(** * StarConnect backend: the notification core

    A shallow embedding of [src/services/notifications.js],
    [src/services/redis.js], the three channel handlers, the notification
    routes, the follow route and the socket handlers of [src/index.js], the
    follow route of [src/routes/users.js] and the like and comment routes of
    [src/routes/posts.js], with the properties of the notification fan-out
    proved about it.

    Conventions of the embedding.
    - A JavaScript value is a [JsVal]; a number is an IEEE 754 binary64 value
      ([spec_float] with precision 53), so [+] on numbers rounds as it does in
      the engine.
    - A string is a [string]; one [ascii] stands for one code unit.
    - A [Map] is an association list in insertion order whose keys are
      compared with SameValueZero.  Objects and arrays are compared by
      reference in JavaScript; references are not part of the model, and two
      values that reach a comparison come from two allocations (two parsed
      messages, two literals), so they compare unequal.
    - Code that can throw lives in the monad [M]: a state transformer on
      [World] whose result is a value or a thrown [JsError]; what was written
      to the state before a throw stays written.
    - [console.log] and [console.error] write nothing to the state; of a
      call of theirs the model keeps the printing of a value in a template
      literal, where that can throw. *)

From Stdlib Require Import List String Ascii ZArith Bool Arith Lia SpecFloat.
From Stdlib Require Import DecimalString.
Import ListNotations.

Set Warnings "-register-all".

Local Open Scope list_scope.

(** ** Numbers *)

Definition number : Type := spec_float.

Definition prec : Z := 53.
Definition emax : Z := 1024.

(** [x + y] on two numbers. *)
Definition num_add (x y : number) : number := SFadd prec emax x y.

(** The number written as the integer literal [z]. *)
Definition num_of_Z (z : Z) : number := binary_normalize prec emax z 0 false.

Definition num_of_nat (n : nat) : number := num_of_Z (Z.of_nat n).

Definition is_nan (x : number) : bool :=
  match x with S754_nan => true | _ => false end.

Definition is_zero (x : number) : bool :=
  match x with S754_zero _ => true | _ => false end.

(** ** Values *)

Inductive JsVal : Type :=
| JUndefined
| JNull
| JBool (b : bool)
| JNum (x : number)
| JStr (s : string)
| JArr (items : list JsVal)
| JObj (props : list (string * JsVal)).

(** The own properties of an object, in insertion order. *)
Definition Props : Type := list (string * JsVal).

Definition is_primitive (v : JsVal) : bool :=
  match v with
  | JArr _ | JObj _ => false
  | _ => true
  end.

(** [a === b]. *)
Definition strict_equals (a b : JsVal) : bool :=
  match a, b with
  | JUndefined, JUndefined => true
  | JNull, JNull => true
  | JBool x, JBool y => Bool.eqb x y
  | JNum x, JNum y => SFeqb x y
  | JStr x, JStr y => String.eqb x y
  | _, _ => false
  end.

(** SameValueZero, the comparison of [Map] keys and of [Array.prototype.includes]:
    as [===], but [NaN] is the same value as [NaN]. *)
Definition same_value_zero (a b : JsVal) : bool :=
  match a, b with
  | JNum x, JNum y => SFeqb x y || (is_nan x && is_nan y)
  | _, _ => strict_equals a b
  end.

(** ToBoolean. *)
Definition truthy (v : JsVal) : bool :=
  match v with
  | JUndefined | JNull => false
  | JBool b => b
  | JNum x => negb (is_zero x || is_nan x)
  | JStr s => negb (String.eqb s EmptyString)
  | JArr _ | JObj _ => true
  end.

(** ** Objects *)

(** [o[k]] on the own properties [o]: [undefined] when absent. *)
Fixpoint own (k : string) (o : Props) : JsVal :=
  match o with
  | [] => JUndefined
  | (k', v) :: rest => if String.eqb k k' then v else own k rest
  end.

Fixpoint has_own (k : string) (o : Props) : bool :=
  match o with
  | [] => false
  | (k', _) :: rest => String.eqb k k' || has_own k rest
  end.

(** [o[k] = v]: an existing property keeps its place, a new one goes last. *)
Fixpoint set_prop (k : string) (v : JsVal) (o : Props) : Props :=
  match o with
  | [] => [(k, v)]
  | (k', v') :: rest =>
      if String.eqb k k' then (k', v) :: rest else (k', v') :: set_prop k v rest
  end.

(** [{ ...o, ...extra }]: the properties of [extra] are set on [o] in order. *)
Definition assign (o extra : Props) : Props :=
  fold_left (fun acc kv => set_prop (fst kv) (snd kv) acc) extra o.

(** ** Maps *)

Section JsMap.
Context {V : Type}.

Definition JsMap : Type := list (JsVal * V).

Fixpoint map_get (k : JsVal) (m : JsMap) : option V :=
  match m with
  | [] => None
  | (k', v) :: rest => if same_value_zero k' k then Some v else map_get k rest
  end.

Definition map_has (k : JsVal) (m : JsMap) : bool :=
  match map_get k m with Some _ => true | None => false end.

Fixpoint map_set (k : JsVal) (v : V) (m : JsMap) : JsMap :=
  match m with
  | [] => [(k, v)]
  | (k', v') :: rest =>
      if same_value_zero k' k then (k', v) :: rest else (k', v') :: map_set k v rest
  end.

Fixpoint map_delete (k : JsVal) (m : JsMap) : JsMap :=
  match m with
  | [] => []
  | (k', v') :: rest =>
      if same_value_zero k' k then rest else (k', v') :: map_delete k rest
  end.
End JsMap.

Arguments JsMap : clear implicits.

(** ** Errors and the monad of the program *)

Inductive JsError : Type :=
| TypeError
| ReferenceError (name : string)
| SyntaxError
| UnhandledError      (* emit('error') without a listener *)
| TransportError.     (* thrown by the socket server *)

Inductive Result (A : Type) : Type :=
| Ok (a : A)
| Throw (e : JsError).

Arguments Ok {A} a.
Arguments Throw {A} e.

Definition bindR {A B : Type} (r : Result A) (k : A -> Result B) : Result B :=
  match r with
  | Ok a => k a
  | Throw e => Throw e
  end.

Declare Scope exc_scope.
Delimit Scope exc_scope with exc.
Notation "x <- c ;; k" := (bindR c (fun x => k))
  (at level 61, c at next level, right associativity) : exc_scope.

(** [v.k] for a property name [k] that no prototype defines ([id], [name],
    [post], ...): reading a property of [undefined] or [null] throws, a missing
    property is [undefined]. *)
Definition get (v : JsVal) (k : string) : Result JsVal :=
  match v with
  | JUndefined | JNull => Throw TypeError
  | JObj o => Ok (own k o)
  | JStr s => Ok (if String.eqb k "length" then JNum (num_of_nat (String.length s)) else JUndefined)
  | JArr items => Ok (if String.eqb k "length" then JNum (num_of_nat (List.length items)) else JUndefined)
  | JBool _ | JNum _ => Ok JUndefined
  end.

(** [v.substring(0, n)]: only a string has the method. *)
Definition substring0 (v : JsVal) (n : nat) : Result string :=
  match v with
  | JStr s => Ok (substring 0 n s)
  | _ => Throw TypeError
  end.

(** [v.length > n] once [v.substring] has returned, so [v] is a string. *)
Definition longer_than (v : JsVal) (n : nat) : bool :=
  match v with
  | JStr s => n <? String.length s
  | _ => false
  end.

(** [s.substring(0, n) + (s.length > n ? '...' : '')]. *)
Definition ellipsize (v : JsVal) (n : nat) : Result JsVal :=
  (head <- substring0 v n ;;
   Ok (JStr (head ++ (if longer_than v n then "..." else ""))))%exc.

Definition index_key (i : nat) : string := NilEmpty.string_of_uint (Nat.to_uint i).

Fixpoint indexed {A : Type} (f : A -> JsVal) (i : nat) (l : list A) : Props :=
  match l with
  | [] => []
  | x :: rest => (index_key i, f x) :: indexed f (S i) rest
  end.

(** The own enumerable properties a spread [...v] copies. *)
Definition enumerable (v : JsVal) : Props :=
  match v with
  | JObj o => o
  | JArr items => indexed (fun x => x) 0 items
  | JStr s => indexed (fun c => JStr (String c EmptyString)) 0 (list_ascii_of_string s)
  | _ => []
  end.

(** ** The host: clock, random source, number printing, socket server *)

(** What one run of [addNotification] reads from its environment:
    [Date.now()], [Math.random()] and [new Date().toISOString()]. *)
Record Reading : Type := {
  date_now : number;
  math_random : number;
  date_iso : string
}.

(** The socket.io server [io] of [index.js]: whether [io.to(room).emit(...)]
    throws for [room], and whether [io.emit(...)], to every socket, throws. *)
Record IoServer : Type := {
  emit_throws : JsVal -> bool;
  broadcast_throws : bool
}.

Record Host : Type := {
  readings : nat -> Reading;            (* the reading of the n-th addNotification *)
  number_to_string : number -> string;  (* Number.prototype.toString *)
  io : IoServer
}.

(** ** The state of the process *)

(** A record of [data/users.js]. *)
Record User : Type := {
  user_id : JsVal;
  user_email : string;
  user_password : string;
  user_type : string;
  user_name : string;
  user_followers : list JsVal;
  user_following : option (list JsVal)   (* [None]: the property is missing *)
}.

(** One [io.to(room).emit(event, payload)] that went through. *)
Record Emit : Type := {
  emit_room : JsVal;
  emit_event : string;
  emit_payload : JsVal
}.

Record World : Type := {
  notifications : JsMap (list Props);  (* userId -> notifications[] *)
  userSockets : JsMap JsVal;           (* userId -> socketId *)
  users : list User;
  emitted : list Emit;                 (* oldest first *)
  clock : nat                          (* addNotification runs so far *)
}.

Definition M (A : Type) : Type := World -> Result A * World.

Definition ret {A : Type} (a : A) : M A := fun w => (Ok a, w).

Definition throw {A : Type} (e : JsError) : M A := fun w => (Throw e, w).

Definition bind {A B : Type} (c : M A) (k : A -> M B) : M B :=
  fun w =>
    match c w with
    | (Ok a, w') => k a w'
    | (Throw e, w') => (Throw e, w')
    end.

Definition lift {A : Type} (r : Result A) : M A := fun w => (r, w).

(** [try { body } catch (error) { console.error(...) }]. *)
Definition try_catch (body : M unit) : M unit :=
  fun w =>
    match body w with
    | (Ok _, w') => (Ok tt, w')
    | (Throw _, w') => (Ok tt, w')
    end.

(** Calling an [async] function whose body does not await: the body runs to
    its end and the call returns a promise, fulfilled or rejected; it never
    throws. *)
Definition async {A : Type} (body : M A) : M (Result A) :=
  fun w => let (r, w') := body w in (Ok r, w').

(** [await p] on a settled promise. *)
Definition await {A : Type} (p : Result A) : M A := lift p.

Declare Scope js_scope.
Delimit Scope js_scope with js.
Notation "x <- c ;; k" := (bind c (fun x => k))
  (at level 61, c at next level, right associativity) : js_scope.
Notation "c ;; k" := (bind c (fun _ => k))
  (at level 61, right associativity) : js_scope.

(** [l.forEach(f)]. *)
Fixpoint forEach {A : Type} (f : A -> M unit) (l : list A) : M unit :=
  match l with
  | [] => ret tt
  | x :: rest => (f x ;; forEach f rest)%js
  end.

(** [l.filter(p)] for a predicate that may throw. *)
Fixpoint filterR {A : Type} (p : A -> Result bool) (l : list A) : Result (list A) :=
  match l with
  | [] => Ok []
  | x :: rest =>
      (keep <- p x ;;
       tail <- filterR p rest ;;
       Ok (if keep then x :: tail else tail))%exc
  end.

(** [l.includes(v)]. *)
Definition includes (v : JsVal) (l : list JsVal) : bool :=
  existsb (fun x => same_value_zero x v) l.

Definition with_notifications (m : JsMap (list Props)) (w : World) : World :=
  {| notifications := m;
     userSockets := userSockets w;
     users := users w;
     emitted := emitted w;
     clock := clock w |}.

Definition with_userSockets (m : JsMap JsVal) (w : World) : World :=
  {| notifications := notifications w;
     userSockets := m;
     users := users w;
     emitted := emitted w;
     clock := clock w |}.

Definition with_emitted (l : list Emit) (w : World) : World :=
  {| notifications := notifications w;
     userSockets := userSockets w;
     users := users w;
     emitted := l;
     clock := clock w |}.

Definition tick (w : World) : World :=
  {| notifications := notifications w;
     userSockets := userSockets w;
     users := users w;
     emitted := emitted w;
     clock := S (clock w) |}.

(** The array stored for [userId], empty when the map has no such key. *)
Definition stored (userId : JsVal) (w : World) : list Props :=
  match map_get userId (notifications w) with
  | Some l => l
  | None => []
  end.

Section Program.
Variable host : Host.

(** ** services/notifications.js *)

(** [{ id: Date.now() + Math.random(), ...notification,
       timestamp: new Date().toISOString(), read: false }]. *)
Definition newNotification (r : Reading) (notification : JsVal) : Props :=
  set_prop "read" (JBool false)
    (set_prop "timestamp" (JStr (date_iso r))
       (assign [("id"%string, JNum (num_add (date_now r) (math_random r)))]
               (enumerable notification))).

(** [has], [set] and [get] act on one and the same key, so the array is the
    stored one or a new empty one; [unshift], then [splice(50)] when the
    length exceeds 50. *)
Definition addNotification (userId notification : JsVal) (w : World)
  : Props * World :=
  let userNotifications := stored userId w in
  let created := newNotification (readings host (clock w)) notification in
  let unshifted := created :: userNotifications in
  let kept :=
    if 50 <? List.length unshifted then firstn 50 unshifted else unshifted in
  (created, tick (with_notifications (map_set userId kept (notifications w)) w)).

(** [slice(0, limit)] for an integer [limit]; [None] is the omitted
    argument, which defaults to 20. *)
Definition slice0 {A : Type} (limit : Z) (l : list A) : list A :=
  if (limit <? 0)%Z
  then firstn (Z.to_nat (Z.of_nat (List.length l) + limit)) l
  else firstn (Z.to_nat limit) l.

Definition getNotifications (userId : JsVal) (limit : option Z) (w : World)
  : list Props :=
  if negb (map_has userId (notifications w)) then []
  else slice0 (match limit with Some n => n | None => 20%Z end) (stored userId w).

Definition unread (n : Props) : bool := negb (truthy (own "read" n)).

Definition getUnreadCount (userId : JsVal) (w : World) : nat :=
  if negb (map_has userId (notifications w)) then 0
  else List.length (filter unread (stored userId w)).

(** [l.find(p)], as the position of the element found. *)
Fixpoint find_index {A : Type} (p : A -> bool) (l : list A) : option nat :=
  match l with
  | [] => None
  | x :: rest =>
      if p x then Some 0 else option_map S (find_index p rest)
  end.

(** The element at position [i] replaced by [f] of it: a write to an object
    the array holds. *)
Fixpoint update_at {A : Type} (i : nat) (f : A -> A) (l : list A) : list A :=
  match l, i with
  | [], _ => []
  | x :: rest, 0 => f x :: rest
  | x :: rest, S j => x :: update_at j f rest
  end.

Definition set_read : Props -> Props := set_prop "read" (JBool true).

Definition markAsRead (userId notificationId : JsVal) (w : World)
  : bool * World :=
  if negb (map_has userId (notifications w)) then (false, w)
  else
    let userNotifications := stored userId w in
    match find_index (fun n => strict_equals (own "id" n) notificationId)
                     userNotifications with
    | Some i =>
        (true,
         with_notifications
           (map_set userId (update_at i set_read userNotifications)
                    (notifications w)) w)
    | None => (false, w)
    end.

Definition markAllAsRead (userId : JsVal) (w : World) : bool * World :=
  if negb (map_has userId (notifications w)) then (false, w)
  else
    (true,
     with_notifications
       (map_set userId (map set_read (stored userId w)) (notifications w)) w).

Definition registerUserSocket (userId socketId : JsVal) (w : World) : World :=
  with_userSockets (map_set userId socketId (userSockets w)) w.

Definition unregisterUserSocket (userId : JsVal) (w : World) : World :=
  with_userSockets (map_delete userId (userSockets w)) w.

Definition getUserSocket (userId : JsVal) (w : World) : JsVal :=
  match map_get userId (userSockets w) with
  | Some socketId => socketId
  | None => JUndefined
  end.

(** [io.to(socketId).emit('newNotification', notification)]. *)
Definition io_emit (srv : IoServer) (room : JsVal) (event : string)
           (payload : JsVal) : M unit :=
  fun w =>
    if emit_throws srv room then (Throw TransportError, w)
    else
      (Ok tt,
       with_emitted
         (emitted w ++ [{| emit_room := room;
                           emit_event := event;
                           emit_payload := payload |}]) w).

(** The third argument is the server, or [None] for a falsy value.  The
    [console.log] after the emit prints [userId]; a [userId] that has a socket
    is a primitive value, which prints without a throw. *)
Definition sendNotificationToUser (userId notification : JsVal)
           (server : option IoServer) : M unit :=
  fun w =>
    let socketId := getUserSocket userId w in
    match server with
    | Some srv =>
        if truthy socketId
        then io_emit srv socketId "newNotification" notification w
        else (Ok tt, w)
    | None => (Ok tt, w)
    end.

(** The text a template literal puts in place of [${v}].  An array is
    joined, each element but [undefined] and [null] converted in turn.  An
    object with an own property [toString] cannot be converted: that
    property is no function (no value of [JsVal] is), and
    [Object.prototype.valueOf] returns the object itself, so the conversion
    throws a [TypeError]. *)
Fixpoint to_string (v : JsVal) : Result string :=
  match v with
  | JUndefined => Ok "undefined"
  | JNull => Ok "null"
  | JBool true => Ok "true"
  | JBool false => Ok "false"
  | JNum x => Ok (number_to_string host x)
  | JStr s => Ok s
  | JArr items =>
      (fix join (l : list JsVal) : Result string :=
         match l with
         | [] => Ok ""
         | x :: rest =>
             match
               match x with
               | JUndefined | JNull => Ok ""
               | _ => to_string x
               end
             with
             | Throw e => Throw e
             | Ok piece =>
                 match rest with
                 | [] => Ok piece
                 | _ :: _ =>
                     match join rest with
                     | Throw e => Throw e
                     | Ok tail => Ok (piece ++ "," ++ tail)
                     end
                 end
             end
         end) items
  | JObj props =>
      if has_own "toString" props then Throw TypeError
      else Ok "[object Object]"
  end%string.

Definition createPostNotification (post author : JsVal) : Result JsVal :=
  (name <- get author "name" ;;
   message <- to_string name ;;
   postId <- get post "id" ;;
   authorId <- get post "userId" ;;
   authorName <- get author "name" ;;
   text <- get post "content" ;;
   content <- ellipsize text 100 ;;
   Ok (JObj
         [("type", JStr "newPost");
          ("title", JStr "New Post");
          ("message", JStr (message ++ " just posted something new!"));
          ("data",
           JObj [("postId", postId);
                 ("authorId", authorId);
                 ("authorName", authorName);
                 ("content", content)])]))%exc%string.

Definition createLikeNotification (post liker postAuthor : JsVal)
  : Result JsVal :=
  (name <- get liker "name" ;;
   message <- to_string name ;;
   postId <- get post "id" ;;
   likerId <- get liker "id" ;;
   likerName <- get liker "name" ;;
   Ok (JObj
         [("type", JStr "newLike");
          ("title", JStr "New Like");
          ("message", JStr (message ++ " liked your post"));
          ("data",
           JObj [("postId", postId);
                 ("likerId", likerId);
                 ("likerName", likerName)])]))%exc%string.

(** An identifier that no parameter, no declaration of the module and no
    global binds: evaluating it throws. *)
Definition unbound (name : string) : Result JsVal :=
  Throw (ReferenceError name).

(** The function has three parameters, and its body reads [comment], which
    is none of them. *)
Definition createCommentNotification (post commenter postAuthor : JsVal)
  : Result JsVal :=
  (name <- get commenter "name" ;;
   message <- to_string name ;;
   postId <- get post "id" ;;
   comment <- unbound "comment" ;;
   commentId <- get comment "id" ;;
   commenterId <- get commenter "id" ;;
   commenterName <- get commenter "name" ;;
   comment' <- unbound "comment" ;;
   text <- get comment' "text" ;;
   commentText <- ellipsize text 50 ;;
   Ok (JObj
         [("type", JStr "newComment");
          ("title", JStr "New Comment");
          ("message", JStr (message ++ " commented on your post"));
          ("data",
           JObj [("postId", postId);
                 ("commentId", commentId);
                 ("commenterId", commenterId);
                 ("commenterName", commenterName);
                 ("commentText", commentText)])]))%exc%string.

(** ** index.js: the three channel handlers *)

Definition gets {A : Type} (f : World -> A) : M A := fun w => (Ok (f w), w).

(** A call of [addNotification] whose result is dropped. *)
Definition addNotification_ (userId notification : JsVal) : M unit :=
  fun w => (Ok tt, snd (addNotification userId notification w)).

(** [user.following && user.following.includes(author.id)]. *)
Definition follows (author : JsVal) (user : User) : Result bool :=
  match user_following user with
  | None => Ok false
  | Some following =>
      (authorId <- get author "id" ;; Ok (includes authorId following))%exc
  end.

(** The arrow function the [newPost] handler runs on each follower. *)
Definition notifyFollower (post author : JsVal) (follower : User) : M unit :=
  (notification <- lift (createPostNotification post author) ;;
   addNotification_ (user_id follower) notification ;;
   sendNotificationToUser (user_id follower) notification (Some (io host)))%js.

Definition newPostHandler (data : JsVal) : M (Result unit) :=
  async (try_catch
    (post <- lift (get data "post") ;;
     author <- lift (get data "author") ;;
     table <- gets users ;;
     followers <- lift (filterR (follows author) table) ;;
     forEach (notifyFollower post author) followers))%js.

(** The [console.log] that ends the [try] prints [postAuthor.name]: a throw
    there is caught like any other, with the record stored and pushed. *)
Definition newLikeHandler (data : JsVal) : M (Result unit) :=
  async (try_catch
    (post <- lift (get data "post") ;;
     liker <- lift (get data "liker") ;;
     postAuthor <- lift (get data "postAuthor") ;;
     likerId <- lift (get liker "id") ;;
     authorId <- lift (get postAuthor "id") ;;
     if strict_equals likerId authorId then ret tt
     else
       notification <- lift (createLikeNotification post liker postAuthor) ;;
       addNotification_ authorId notification ;;
       sendNotificationToUser authorId notification (Some (io host)) ;;
       name <- lift (get postAuthor "name") ;;
       printed <- lift (to_string name) ;;
       ret tt))%js.

(** The call passes four arguments, [(post, comment, commenter, postAuthor)],
    to the three parameters of [createCommentNotification]: the fourth is
    dropped and [comment] arrives as [commenter]. *)
Definition newCommentHandler (data : JsVal) : M (Result unit) :=
  async (try_catch
    (post <- lift (get data "post") ;;
     comment <- lift (get data "comment") ;;
     commenter <- lift (get data "commenter") ;;
     postAuthor <- lift (get data "postAuthor") ;;
     commenterId <- lift (get commenter "id") ;;
     authorId <- lift (get postAuthor "id") ;;
     if strict_equals commenterId authorId then ret tt
     else
       notification <- lift (createCommentNotification post comment commenter) ;;
       addNotification_ authorId notification ;;
       sendNotificationToUser authorId notification (Some (io host))))%js.

(** [POST /api/notifications/:id/read], once the token is verified:
    [req.params.id] is a string; the answer is the status code. *)
Definition mark_read_route (userId : JsVal) (id : string) (w : World)
  : nat * World :=
  let result := markAsRead userId (JStr id) w in
  (if fst result then 200 else 404, snd result).

(** ** services/redis.js *)

(** What travels on a channel: a JSON text, written as the value it parses
    to, or [None] for [undefined]. *)
Definition Message : Type := option JsVal.

(** The value a JSON text keeps of [v]: a property whose value is
    [undefined] is left out, [undefined] in an array and a number that is
    not finite become [null], and [-0] becomes [0]. *)
Fixpoint json_value (v : JsVal) : JsVal :=
  match v with
  | JUndefined => JNull
  | JNum x =>
      match x with
      | S754_nan | S754_infinity _ => JNull
      | S754_zero _ => JNum (S754_zero false)
      | S754_finite _ _ _ => v
      end
  | JArr items => JArr (map json_value items)
  | JObj props =>
      JObj ((fix keep (ps : list (string * JsVal)) : list (string * JsVal) :=
               match ps with
               | [] => []
               | (k, JUndefined) :: rest => keep rest
               | (k, x) :: rest => (k, json_value x) :: keep rest
               end) props)
  | _ => v
  end.

Definition JSON_stringify (v : JsVal) : Message :=
  match v with
  | JUndefined => None
  | _ => Some (json_value v)
  end.

Definition JSON_parse (message : Message) : Result JsVal :=
  match message with
  | Some v => Ok v
  | None => Throw SyntaxError
  end.

Definition Listener : Type := Message -> M unit.

(** The listeners of the module's [EventEmitter], per channel, in the order
    they were added. *)
Definition EventEmitter : Type := list (string * list Listener).

Fixpoint listeners (channel : string) (e : EventEmitter) : list Listener :=
  match e with
  | [] => []
  | (c, ls) :: rest => if String.eqb c channel then ls else listeners channel rest
  end.

(** [eventEmitter.on(channel, listener)]. *)
Fixpoint on (channel : string) (l : Listener) (e : EventEmitter) : EventEmitter :=
  match e with
  | [] => [(channel, [l])]
  | (c, ls) :: rest =>
      if String.eqb c channel then (c, ls ++ [l]) :: rest
      else (c, ls) :: on channel l rest
  end.

(** [eventEmitter.removeAllListeners(channel)]. *)
Fixpoint removeAllListeners (channel : string) (e : EventEmitter) : EventEmitter :=
  match e with
  | [] => []
  | (c, ls) :: rest =>
      if String.eqb c channel then rest
      else (c, ls) :: removeAllListeners channel rest
  end.

(** [eventEmitter.emit(channel, message)]: the listeners run in order, and
    a listener that throws ends the call; the channel [error] without a
    listener throws. *)
Definition emit (e : EventEmitter) (channel : string) (message : Message)
  : M unit :=
  match listeners channel e with
  | [] => if String.eqb channel "error" then throw UnhandledError else ret tt
  | ls => forEach (fun l : Listener => l message) ls
  end.

(** The three [InMemoryRedis] instances and the emitter they share. *)
Record Redis : Type := {
  client_isConnected : bool;
  subscriber_isConnected : bool;
  publisher_isConnected : bool;
  eventEmitter : EventEmitter
}.

Definition with_eventEmitter (e : EventEmitter) (r : Redis) : Redis :=
  {| client_isConnected := client_isConnected r;
     subscriber_isConnected := subscriber_isConnected r;
     publisher_isConnected := publisher_isConnected r;
     eventEmitter := e |}.

(** The module as loaded: each constructor sets [isConnected = true]. *)
Definition redis_loaded : Redis :=
  {| client_isConnected := true;
     subscriber_isConnected := true;
     publisher_isConnected := true;
     eventEmitter := [] |}.

Definition connectRedis (r : Redis) : Redis :=
  {| client_isConnected := true;
     subscriber_isConnected := true;
     publisher_isConnected := true;
     eventEmitter := eventEmitter r |}.

Definition disconnectRedis (r : Redis) : Redis :=
  {| client_isConnected := false;
     subscriber_isConnected := false;
     publisher_isConnected := false;
     eventEmitter := eventEmitter r |}.

(** [publisher.publish(channel, message)]. *)
Definition publisher_publish (r : Redis) (channel : string) (message : Message)
  : M (Result unit) :=
  async (if publisher_isConnected r
         then emit (eventEmitter r) channel message
         else ret tt).

(** [subscriber.subscribe(channel, callback)]. *)
Definition subscriber_subscribe (channel : string) (callback : Listener)
           (r : Redis) : Redis :=
  if subscriber_isConnected r
  then with_eventEmitter (on channel callback (eventEmitter r)) r
  else r.

Definition publishMessage (r : Redis) (channel : string) (message : JsVal)
  : M (Result unit) :=
  async (try_catch
    (settled <- publisher_publish r channel (JSON_stringify message) ;;
     await settled))%js.

(** The listener [subscribeToChannel] registers around [callback]. *)
Definition parsing_listener {A : Type} (callback : JsVal -> M A) : Listener :=
  fun message =>
    try_catch
      (parsedMessage <- lift (JSON_parse message) ;;
       callback parsedMessage ;;
       ret tt)%js.

Definition subscribeToChannel {A : Type} (channel : string)
           (callback : JsVal -> M A) (r : Redis) : Redis :=
  subscriber_subscribe channel (parsing_listener callback) r.

Definition unsubscribeFromChannel (channel : string) (r : Redis) : Redis :=
  if subscriber_isConnected r
  then with_eventEmitter (removeAllListeners channel (eventEmitter r)) r
  else r.

(** The bus once [index.js] has run its three [subscribeToChannel] calls. *)
Definition index_redis : Redis :=
  subscribeToChannel "newComment" newCommentHandler
    (subscribeToChannel "newLike" newLikeHandler
       (subscribeToChannel "newPost" newPostHandler
          (connectRedis redis_loaded))).

End Program.

(** * The vocabulary of the statements *)

(** The representative of a number among the numbers that are the same map
    key: the two zeros are one key. *)
Definition canon (x : number) : number :=
  match x with
  | S754_zero _ => S754_zero false
  | _ => x
  end.

Definition key (v : JsVal) : JsVal :=
  match v with
  | JNum x => JNum (canon x)
  | _ => v
  end.

(** A run of [addNotification] calls, one per [(userId, notification)], with
    the records the calls return. *)
Fixpoint addNotifications (host : Host) (calls : list (JsVal * JsVal)) (w : World)
  : list Props * World :=
  match calls with
  | [] => ([], w)
  | (userId, notification) :: rest =>
      let step := addNotification host userId notification w in
      let later := addNotifications host rest (snd step) in
      (fst step :: fst later, snd later)
  end.

(** Of the records [created] by [calls], those made for [userId], in the
    order of the calls. *)
Fixpoint created_for (userId : JsVal) (calls : list (JsVal * JsVal))
         (created : list Props) : list Props :=
  match calls, created with
  | (u, _) :: calls', c :: created' =>
      if same_value_zero u userId
      then c :: created_for userId calls' created'
      else created_for userId calls' created'
  | _, _ => []
  end.

(** The process as started: no notification, no socket, a table of users. *)
Definition initial (table : list User) : World :=
  {| notifications := [];
     userSockets := [];
     users := table;
     emitted := [];
     clock := 0 |}.

Definition with_users (table : list User) (w : World) : World :=
  {| notifications := notifications w;
     userSockets := userSockets w;
     users := table;
     emitted := emitted w;
     clock := clock w |}.

(** One event of the process: a message handled on one of the three channels,
    a call of a notification route, a socket that authenticates or
    disconnects, or a follow route rewriting the table of users. *)
Inductive Action : Type :=
| NewPost (data : JsVal)
| NewLike (data : JsVal)
| NewComment (data : JsVal)
| MarkAsRead (userId notificationId : JsVal)
| MarkAllAsRead (userId : JsVal)
| Register (userId socketId : JsVal)
| Unregister (userId : JsVal)
| Follow (table : list User).

Definition perform (host : Host) (a : Action) (w : World) : World :=
  match a with
  | NewPost data => snd (newPostHandler host data w)
  | NewLike data => snd (newLikeHandler host data w)
  | NewComment data => snd (newCommentHandler host data w)
  | MarkAsRead userId notificationId => snd (markAsRead userId notificationId w)
  | MarkAllAsRead userId => snd (markAllAsRead userId w)
  | Register userId socketId => registerUserSocket userId socketId w
  | Unregister userId => unregisterUserSocket userId w
  | Follow table => with_users table w
  end.

(** The events of [actions], first to last. *)
Definition run (host : Host) (actions : list Action) (w : World) : World :=
  fold_left (fun w a => perform host a w) actions w.

Inductive reachable (host : Host) : World -> Prop :=
| reachable_initial (table : list User) : reachable host (initial table)
| reachable_step (a : Action) (w : World) :
    reachable host w -> reachable host (perform host a w).

(** Whether an event writes the socket of [userId]. *)
Definition rebinds (userId : JsVal) (a : Action) : bool :=
  match a with
  | Register u _ | Unregister u => same_value_zero u userId
  | _ => false
  end.

(** A stored record whose [id] is a number. *)
Definition numbered (n : Props) : Prop := exists x, own "id" n = JNum x.

(** A stored array: not empty, and every record numbered. *)
Definition list_ok (l : list Props) : Prop := l <> [] /\ Forall numbered l.

Definition store_ok (w : World) : Prop :=
  Forall (fun kv => list_ok (snd kv)) (notifications w).

(** How many entries of a map have a key that is the same value as [k]. *)
Definition count_key {V : Type} (k : JsVal) (m : JsMap V) : nat :=
  List.length (filter (fun kv => same_value_zero (fst kv) k) m).

Definition sockets_ok (w : World) : Prop :=
  forall k, count_key k (userSockets w) <= 1.

Definition world_ok (w : World) : Prop := store_ok w /\ sockets_ok w.

(** A computation that keeps [P] true of the state, whatever it returns. *)
Definition preserves {A : Type} (P : World -> Prop) (c : M A) : Prop :=
  forall w, P w -> P (snd (c w)).

(** The outcome of [sendNotificationToUser] for a user whose socket is [h]:
    nothing for a falsy [h], else one emit to the room [h], which the server
    lets through or answers by a throw. *)
Definition push_to (srv : IoServer) (h notification : JsVal) (w : World)
  : Result unit * World :=
  if truthy h
  then if emit_throws srv h
       then (Throw TransportError, w)
       else (Ok tt,
             with_emitted
               (emitted w ++ [{| emit_room := h;
                                 emit_event := "newNotification";
                                 emit_payload := notification |}]) w)
  else (Ok tt, w).

(** The bus after [subscribeToChannel(channel, callback)] for each entry of
    [subs], in order. *)
Definition subscribe_all (subs : list (string * (JsVal -> M unit))) (r : Redis)
  : Redis :=
  fold_left (fun r s => subscribeToChannel (fst s) (snd s) r) subs r.

(** The callbacks [subs] holds for [channel], in subscription order. *)
Definition callbacks_on (channel : string) (subs : list (string * (JsVal -> M unit)))
  : list (JsVal -> M unit) :=
  map snd (filter (fun s => String.eqb (fst s) channel) subs).

(** Every callback run on the parsed message, each from the state the one
    before left, whether that one returned or threw; a message that does not
    parse runs none. *)
Definition run_callbacks (callbacks : list (JsVal -> M unit)) (message : Message)
           (w : World) : World :=
  match message with
  | Some v => fold_left (fun w callback => snd (callback v w)) callbacks w
  | None => w
  end.

(** Whether [u] follows the author: the test the handler filters with. *)
Definition is_follower (authorId : JsVal) (u : User) : bool :=
  match user_following u with
  | Some following => includes authorId following
  | None => false
  end.

(** No two records of the table have ids that are the same value. *)
Fixpoint distinct_ids (l : list User) : bool :=
  match l with
  | [] => true
  | u :: rest =>
      forallb (fun v => negb (same_value_zero (user_id u) (user_id v))) rest
      && distinct_ids rest
  end.

Definition primitive_ids (l : list User) : bool :=
  forallb (fun u => is_primitive (user_id u)) l.

(** ** Sample data *)

Local Open Scope string_scope.

(** 0.5, that is 2^52 * 2^-53. *)
Definition one_half : number := S754_finite false 4503599627370496 (-53).

(** 0.5 + 2^-20, that is (2^52 + 2^33) * 2^-53. *)
Definition one_half_and_a_bit : number :=
  S754_finite false 4503608217305088 (-53).

(** Number printing, exact on the integers below 10^21; the samples print
    no other number. *)
Definition print_number (x : number) : string :=
  match x with
  | S754_zero _ => "0"
  | S754_infinity s => if s then "-Infinity" else "Infinity"
  | S754_nan => "NaN"
  | S754_finite s m e =>
      let z := cond_Zopp s (Zpos m) in
      if (0 <=? e)%Z then NilEmpty.string_of_int (Z.to_int (z * 2 ^ e))
      else if (z mod 2 ^ (- e) =? 0)%Z
           then NilEmpty.string_of_int (Z.to_int (z / 2 ^ (- e)))
           else ""
  end.

(** A clock that advances one millisecond per call, a random source stuck at
    0.5, and a server that lets every emit through. *)
Definition sample_host : Host :=
  {| readings := fun n =>
       {| date_now := num_of_Z (1700000000000 + Z.of_nat n);
          math_random := one_half;
          date_iso := "2023-11-14T22:13:20.000Z" |};
     number_to_string := print_number;
     io := {| emit_throws := fun _ => false; broadcast_throws := false |} |}.

(** Two calls in the same millisecond, with two different random draws. *)
Definition same_millisecond_host : Host :=
  {| readings := fun n =>
       {| date_now := num_of_Z 1700000000000;
          math_random := match n with 0 => one_half | _ => one_half_and_a_bit end;
          date_iso := "2023-11-14T22:13:20.000Z" |};
     number_to_string := print_number;
     io := {| emit_throws := fun _ => false; broadcast_throws := false |} |}.

(** A server whose emit to the room [socket-2] throws. *)
Definition flaky_host : Host :=
  {| readings := readings sample_host;
     number_to_string := print_number;
     io := {| emit_throws := fun room => strict_equals room (JStr "socket-2");
              broadcast_throws := false |} |}.

Definition uid (z : Z) : JsVal := JNum (num_of_Z z).

(** The two records of [data/users.js]. *)
Definition john_record : User :=
  {| user_id := uid 1;
     user_email := "celeb@example.com";
     user_password := "123456";
     user_type := "celebrity";
     user_name := "John Celebrity";
     user_followers := [uid 2];
     user_following := Some [] |}.

Definition jane_record : User :=
  {| user_id := uid 2;
     user_email := "user@example.com";
     user_password := "123456";
     user_type := "public";
     user_name := "Jane Public";
     user_followers := [];
     user_following := Some [uid 1] |}.

Definition users_js : list User := [john_record; jane_record].

(** A third user, who follows the celebrity too. *)
Definition fay_record : User :=
  {| user_id := uid 3;
     user_email := "fan@example.com";
     user_password := "123456";
     user_type := "public";
     user_name := "Fay Fan";
     user_followers := [];
     user_following := Some [uid 1] |}.

Definition three_users : list User := [john_record; jane_record; fay_record].

(** A table in which the celebrity follows themself. *)
Definition self_following_users : list User :=
  [ {| user_id := uid 1;
       user_email := "celeb@example.com";
       user_password := "123456";
       user_type := "celebrity";
       user_name := "John Celebrity";
       user_followers := [uid 1];
       user_following := Some [uid 1] |} ].

Definition john : JsVal :=
  JObj [("id", uid 1); ("name", JStr "John Celebrity"); ("type", JStr "celebrity")].

Definition jane : JsVal :=
  JObj [("id", uid 2); ("name", JStr "Jane Public"); ("type", JStr "public")].

Definition post_3 : JsVal :=
  JObj [("id", uid 3); ("userId", uid 1); ("content", JStr "Hello fans");
        ("image", JNull); ("timestamp", JStr "2023-11-14T22:13:20.000Z");
        ("likes", JArr []); ("comments", JArr [])].

Definition comment_1 : JsVal :=
  JObj [("id", uid 1); ("userId", uid 2);
        ("text", JStr "a very long comment exceeding fifty characters in total length");
        ("timestamp", JStr "2023-11-14T22:13:20.000Z")].

Definition post_event : JsVal := JObj [("post", post_3); ("author", john)].

Definition like_event : JsVal :=
  JObj [("post", post_3); ("liker", jane); ("postAuthor", john)].

Definition comment_event : JsVal :=
  JObj [("post", post_3); ("comment", comment_1);
        ("commenter", jane); ("postAuthor", john)].

Definition post_draft : JsVal :=
  JObj [("type", JStr "newPost");
        ("title", JStr "New Post");
        ("message", JStr "John Celebrity just posted something new!");
        ("data", JObj [("postId", uid 3);
                       ("authorId", uid 1);
                       ("authorName", JStr "John Celebrity");
                       ("content", JStr "Hello fans")])].

Definition like_draft : JsVal :=
  JObj [("type", JStr "newLike");
        ("title", JStr "New Like");
        ("message", JStr "Jane Public liked your post");
        ("data", JObj [("postId", uid 3);
                       ("likerId", uid 2);
                       ("likerName", JStr "Jane Public")])].

(** A draft that carries an [id] of its own. *)
Definition draft_with_id : JsVal :=
  JObj [("id", uid 7); ("type", JStr "newLike"); ("title", JStr "New Like")].

(** The world after Jane liked the post of John. *)
Definition liked_once : World := run sample_host [NewLike like_event] (initial users_js).

(** The world after fifty such likes, none of them read. *)
Definition liked_fifty_times : World :=
  run sample_host (repeat (NewLike like_event) 50) (initial users_js).

(** Three users, and the socket [socket-2] registered for user 2. *)
Definition second_user_connected : World :=
  registerUserSocket (uid 2) (JStr "socket-2") (initial three_users).

Local Close Scope string_scope.

(** * The routes and socket handlers around the store *)

Definition nullish (v : JsVal) : bool :=
  match v with
  | JUndefined | JNull => true
  | _ => false
  end.

(** A value a template literal can print: no object with an own property
    [toString], and no array that holds one, at any depth. *)
Fixpoint printable (v : JsVal) : bool :=
  match v with
  | JArr items =>
      (fix all (l : list JsVal) : bool :=
         match l with
         | [] => true
         | x :: rest => printable x && all rest
         end) items
  | JObj props => negb (has_own "toString" props)
  | _ => true
  end.

(** [GET /api/notifications], once the token is verified: the notifications
    of the default limit and the unread count. *)
Definition get_notifications_route (userId : JsVal) (w : World)
  : list Props * nat :=
  (getNotifications userId None w, getUnreadCount userId w).

(** [POST /api/notifications/read-all], once the token is verified: the
    result of [markAllAsRead] is dropped and the answer is a success. *)
Definition read_all_route (userId : JsVal) (w : World) : nat * World :=
  (200, snd (markAllAsRead userId w)).

(** A connected socket: its id, and the [userId] the [authenticate] handler
    writes on it ([undefined] until then). *)
Record Socket : Type := {
  socket_id : JsVal;
  socket_userId : JsVal
}.

(** [io.on('connection', socket => ...)]: the socket as it connects. *)
Definition connected (id : JsVal) : Socket :=
  {| socket_id := id; socket_userId := JUndefined |}.

(** What a handler sends back on its own socket; [socket.emit] on the
    socket itself is taken to go through. *)
Inductive SocketEvent : Type :=
| NotificationCount (unreadCount : nat)
| AuthError.

(** [socket.on('authenticate', ...)]; [verified] is what
    [jwt.verify(token, JWT_SECRET)] returns or throws.  The name of the room
    the socket joins is printed from [userId]: the definition is for ids
    that are primitive values, which print without a throw. *)
Definition on_authenticate (verified : Result JsVal) (socket : Socket) (w : World)
  : SocketEvent * Socket * World :=
  match (decoded <- verified ;; get decoded "userId")%exc with
  | Ok userId =>
      let w' := registerUserSocket userId (socket_id socket) w in
      (NotificationCount (getUnreadCount userId w'),
       {| socket_id := socket_id socket; socket_userId := userId |},
       w')
  | Throw _ => (AuthError, socket, w)
  end.

(** [socket.on('disconnect', ...)]. *)
Definition on_disconnect (socket : Socket) (w : World) : World :=
  if truthy (socket_userId socket)
  then unregisterUserSocket (socket_userId socket) w
  else w.

(** A value a JSON text can carry as it is: no [undefined], no number that
    is not finite, no negative zero. *)
Fixpoint json_clean (v : JsVal) : bool :=
  match v with
  | JUndefined => false
  | JNum x =>
      match x with
      | S754_finite _ _ _ => true
      | S754_zero s => negb s
      | S754_infinity _ | S754_nan => false
      end
  | JArr items =>
      (fix all (l : list JsVal) : bool :=
         match l with
         | [] => true
         | x :: rest => json_clean x && all rest
         end) items
  | JObj props =>
      (fix all (ps : list (string * JsVal)) : bool :=
         match ps with
         | [] => true
         | (_, x) :: rest => json_clean x && all rest
         end) props
  | JNull | JBool _ | JStr _ => true
  end.

(** The bus after [subscriber.subscribe(channel, listener)] for each of
    [ls], in order: listeners registered without the parsing wrapper. *)
Definition subscribe_raw (channel : string) (ls : list Listener) (r : Redis)
  : Redis :=
  fold_left (fun r l => subscriber_subscribe channel l r) ls r.

(** A stored record as [addNotification] makes it and the two [mark]
    functions leave it: a number for [id], a string for [timestamp], a
    boolean for [read]. *)
Definition well_formed_record (n : Props) : Prop :=
  exists x iso b,
    own "id" n = JNum x /\ own "timestamp" n = JStr iso /\ own "read" n = JBool b.

(** Every stored list holds at most 50 well-formed records, and no two
    entries of the map have the same key. *)
Definition bounded_store (w : World) : Prop :=
  Forall (fun kv => List.length (snd kv) <= 50 /\
                    Forall well_formed_record (snd kv)) (notifications w) /\
  (forall k, count_key k (notifications w) <= 1).

(** The event [sendNotificationToUser] emits to the room [h]. *)
Definition push_event (h notification : JsVal) : Emit :=
  {| emit_room := h;
     emit_event := "newNotification";
     emit_payload := notification |}.

(** From [w0] to [w']: the log of emits has only been extended, the clock
    has not gone back, and no user's list has become shorter. *)
Definition grows_from (w0 w' : World) : Prop :=
  (exists pushed, emitted w' = emitted w0 ++ pushed) /\
  clock w0 <= clock w' /\
  (forall u, List.length (stored u w0) <= List.length (stored u w')).

(** * The follow routes *)

(** The code units [String.prototype.trim] and [parseInt] skip, among
    those below 256: TAB, LF, VT, FF, CR, space and the no-break space. *)
Definition is_white_space (c : ascii) : bool :=
  let n := nat_of_ascii c in
  (n =? 9) || (n =? 10) || (n =? 11) || (n =? 12) || (n =? 13) || (n =? 32)
  || (n =? 160).

Fixpoint skip_white_space (s : string) : string :=
  match s with
  | String c rest => if is_white_space c then skip_white_space rest else s
  | EmptyString => s
  end.

(** The value of a digit in radix 10 or 16. *)
Definition digit_value (radix : Z) (c : ascii) : option Z :=
  let n := Z.of_nat (nat_of_ascii c) in
  if (48 <=? n)%Z && (n <=? 57)%Z then Some (n - 48)%Z
  else if (radix =? 16)%Z && (97 <=? n)%Z && (n <=? 102)%Z then Some (n - 87)%Z
  else if (radix =? 16)%Z && (65 <=? n)%Z && (n <=? 70)%Z then Some (n - 55)%Z
  else None.

(** The integer the longest prefix of digits spells; [acc] is what was read
    so far, [None] when no digit was. *)
Fixpoint digits_prefix (radix : Z) (s : string) (acc : option Z) : option Z :=
  match s with
  | String c rest =>
      match digit_value radix c with
      | Some d =>
          digits_prefix radix rest
            (Some (match acc with Some a => a * radix + d | None => d end)%Z)
      | None => acc
      end
  | EmptyString => acc
  end.

(** [parseInt(s)] for a string: white space, a sign, [0x] or [0X] for radix
    16, then digits; [NaN] without a digit.  The integer read is rounded to
    the nearest number. *)
Definition parse_int_string (s : string) : number :=
  let unsigned :=
    match skip_white_space s with
    | String "-" rest => (true, rest)
    | String "+" rest => (false, rest)
    | other => (false, other)
    end in
  let digits :=
    match snd unsigned with
    | String "0" (String "x" rest) => (16%Z, rest)
    | String "0" (String "X" rest) => (16%Z, rest)
    | other => (10%Z, other)
    end in
  match digits_prefix (fst digits) (snd digits) None with
  | None => S754_nan
  | Some 0%Z => S754_zero (fst unsigned)
  | Some z =>
      binary_normalize prec emax (if fst unsigned then - z else z) 0 false
  end.

(** What a route answers: the status and the JSON body. *)
Record Response : Type := {
  status : nat;
  body : JsVal
}.

Definition error_response (code : nat) (message : string) : Response :=
  {| status := code; body := JObj [("error"%string, JStr message)] |}.

(** [l.find(p)], as the position and the element found. *)
Definition find_entry {A : Type} (p : A -> bool) (l : list A) : option (nat * A) :=
  match find_index p l with
  | Some i =>
      match nth_error l i with
      | Some x => Some (i, x)
      | None => None
      end
  | None => None
  end.

(** [l.find(p)] for a callback that may throw: it runs on the elements in
    order, up to the first it holds of, and a throw ends the search. *)
Fixpoint find_entryR {A : Type} (p : A -> Result bool) (l : list A)
  : Result (option (nat * A)) :=
  match l with
  | [] => Ok None
  | x :: rest =>
      match p x with
      | Throw e => Throw e
      | Ok true => Ok (Some (0, x))
      | Ok false =>
          match find_entryR p rest with
          | Ok (Some (i, y)) => Ok (Some (S i, y))
          | other => other
          end
      end
  end.

Definition with_following (following : option (list JsVal)) (u : User) : User :=
  {| user_id := user_id u;
     user_email := user_email u;
     user_password := user_password u;
     user_type := user_type u;
     user_name := user_name u;
     user_followers := user_followers u;
     user_following := following |}.

Definition with_followers (followers : list JsVal) (u : User) : User :=
  {| user_id := user_id u;
     user_email := user_email u;
     user_password := user_password u;
     user_type := user_type u;
     user_name := user_name u;
     user_followers := followers;
     user_following := user_following u |}.

(** [l.filter(id => id !== x)]. *)
Definition without (x : JsVal) (l : list JsVal) : list JsVal :=
  filter (fun id => negb (strict_equals id x)) l.

Section FollowRoutes.
Variable host : Host.

(** [parseInt(v)]: [v] is converted to a string, which may throw, and the
    string is parsed. *)
Definition parseInt (v : JsVal) : Result JsVal :=
  (s <- to_string host v ;; Ok (JNum (parse_int_string s)))%exc.

(** [POST /follow] of [index.js], once the token is verified: [userId] is
    [req.user.userId] and [targetUserId] the field of the body, which
    [express.json] made an object.  [parseInt(targetUserId)] sits in the
    callback of the second [find] and runs once per record looked at.
    [io.emit('followUpdate', ...)] comes after the two writes and inside the
    [try]: when it throws, the answer is 500 and the table stays written.
    Beside the answer, the payload of the broadcast that went through. *)
Definition follow_route (userId targetUserId : JsVal) (w : World)
  : Response * option JsVal * World :=
  if negb (truthy targetUserId)
  then (error_response 400 "Target user ID is required", None, w)
  else
    let currentUser :=
      find_entry (fun u => strict_equals (user_id u) userId) (users w) in
    match find_entryR
            (fun u => (target <- parseInt targetUserId ;;
                       Ok (strict_equals (user_id u) target))%exc)
            (users w) with
    | Throw _ => (error_response 500 "Internal server error", None, w)
    | Ok targetUser =>
        match currentUser, targetUser with
        | Some (i, currentUser), Some (j, targetUser) =>
            if strict_equals (user_id currentUser) (user_id targetUser)
            then (error_response 400 "Cannot follow yourself", None, w)
            else
              match user_following currentUser with
              | None => (error_response 500 "Internal server error", None, w)
              | Some following =>
                  let isFollowing := includes (user_id targetUser) following in
                  let following' :=
                    if isFollowing then without (user_id targetUser) following
                    else following ++ [user_id targetUser] in
                  let followers' :=
                    if isFollowing
                    then without (user_id currentUser) (user_followers targetUser)
                    else user_followers targetUser ++ [user_id currentUser] in
                  let action :=
                    JStr (if isFollowing then "unfollowed" else "followed") in
                  let table :=
                    update_at j (with_followers followers')
                      (update_at i (with_following (Some following')) (users w)) in
                  if broadcast_throws (io host)
                  then (error_response 500 "Internal server error", None,
                        with_users table w)
                  else
                    ({| status := 200;
                        body := JObj [("success", JBool true);
                                      ("action", action);
                                      ("following", JArr following');
                                      ("followers", JArr followers')]%string |},
                     Some (JObj [("followerId", user_id currentUser);
                                 ("followerName", JStr (user_name currentUser));
                                 ("targetUserId", user_id targetUser);
                                 ("targetUserName", JStr (user_name targetUser));
                                 ("action", action)]%string),
                     with_users table w)
              end
        | _, _ => (error_response 404 "User not found", None, w)
        end
    end.

(** [POST /api/users/:userId/follow] of [routes/users.js], once the token is
    verified: [param] is [req.params.userId]. *)
Definition users_follow_route (currentUserId : JsVal) (param : string) (w : World)
  : Response * World :=
  match parseInt (JStr param) with
  | Throw _ => (error_response 500 "Internal server error", w)
  | Ok targetUserId =>
    match find_entry (fun u => strict_equals (user_id u) targetUserId) (users w) with
    | None => (error_response 404 "User not found", w)
    | Some (j, targetUser) =>
        match find_entry (fun u => strict_equals (user_id u) currentUserId)
                         (users w) with
        | None => (error_response 404 "Current user not found", w)
        | Some (i, currentUser) =>
            if negb (String.eqb (user_type currentUser) "public")
               || negb (String.eqb (user_type targetUser) "celebrity")
            then (error_response 403 "Only public users can follow celebrities", w)
            else
              let following :=
                match user_following currentUser with
                | Some l => l
                | None => []
                end in
              let isFollowing := includes targetUserId following in
              let following' :=
                if isFollowing then without targetUserId following
                else following ++ [targetUserId] in
              let followers' :=
                if isFollowing
                then without currentUserId (user_followers targetUser)
                else user_followers targetUser ++ [currentUserId] in
              let table :=
                update_at j (with_followers followers')
                  (update_at i (with_following (Some following')) (users w)) in
              ({| status := 200;
                  body := JObj [("success", JBool true);
                                ("isFollowing", JBool (negb isFollowing));
                                ("followerCount",
                                 JNum (num_of_nat (List.length followers')));
                                ("message",
                                 JStr (if isFollowing
                                       then "Unfollowed successfully"
                                       else "Followed successfully"))]%string |},
               with_users table w)
        end
    end
  end.

End FollowRoutes.

(** The followers and the following lists of the table agree, and nobody
    follows themself: what the two routes keep true of the table. *)
Definition no_self_follow (table : list User) : bool :=
  forallb (fun u => negb (is_follower (user_id u) u)) table.

Definition mirrored (table : list User) : bool :=
  forallb
    (fun a =>
       forallb
         (fun b =>
            Bool.eqb (is_follower (user_id b) a)
                     (includes (user_id a) (user_followers b)))
         table)
    table.

Definition table_ok (table : list User) : bool :=
  distinct_ids table && no_self_follow table && mirrored table.

(** The [following] list of the first record whose id is [=== id]. *)
Definition following_of (id : JsVal) (table : list User) : list JsVal :=
  match find_entry (fun u => strict_equals (user_id u) id) table with
  | Some (_, u) =>
      match user_following u with
      | Some l => l
      | None => []
      end
  | None => []
  end.

(** What the process is asked to do once it runs: a message on one of the
    three channels, a notification route, a socket that connects or
    disconnects, or one of the two follow routes, which alone write the
    table of users. *)
Inductive Request : Type :=
| OnNewPost (data : JsVal)
| OnNewLike (data : JsVal)
| OnNewComment (data : JsVal)
| ReadOne (userId notificationId : JsVal)
| ReadAll (userId : JsVal)
| Connect (userId socketId : JsVal)
| Disconnect (userId : JsVal)
| PostFollow (userId targetUserId : JsVal)
| PostUserFollow (currentUserId : JsVal) (param : string).

Definition serve (host : Host) (r : Request) (w : World) : World :=
  match r with
  | OnNewPost data => perform host (NewPost data) w
  | OnNewLike data => perform host (NewLike data) w
  | OnNewComment data => perform host (NewComment data) w
  | ReadOne userId notificationId =>
      perform host (MarkAsRead userId notificationId) w
  | ReadAll userId => perform host (MarkAllAsRead userId) w
  | Connect userId socketId => perform host (Register userId socketId) w
  | Disconnect userId => perform host (Unregister userId) w
  | PostFollow userId targetUserId =>
      snd (follow_route host userId targetUserId w)
  | PostUserFollow currentUserId param =>
      snd (users_follow_route host currentUserId param w)
  end.

Definition serve_all (host : Host) (requests : list Request) (w : World) : World :=
  fold_left (fun w r => serve host r w) requests w.

(** * The like route of [routes/posts.js] *)

(** A comment of a post: the id is a number, as the literal of the module
    and the comment route make it; the date is written as the text JSON
    makes of it. *)
Record Comment : Type := {
  comment_id : number;
  comment_userId : JsVal;
  comment_text : string;
  comment_timestamp : JsVal
}.

Definition comment_props (c : Comment) : Props :=
  [("id", JNum (comment_id c)); ("userId", comment_userId c);
   ("text", JStr (comment_text c)); ("timestamp", comment_timestamp c)]%string.

(** A post of the [posts] array.  [likes] and [comments] are arrays or
    missing ([None]); the date is written as the text JSON makes of it. *)
Record Post : Type := {
  post_id : JsVal;
  post_userId : JsVal;
  post_content : JsVal;
  post_image : JsVal;
  post_timestamp : JsVal;
  post_likes : option (list JsVal);
  post_comments : option (list Comment)
}.

Definition with_likes (likes : option (list JsVal)) (p : Post) : Post :=
  {| post_id := post_id p;
     post_userId := post_userId p;
     post_content := post_content p;
     post_image := post_image p;
     post_timestamp := post_timestamp p;
     post_likes := likes;
     post_comments := post_comments p |}.

Definition optional (k : string) (l : option (list JsVal)) : Props :=
  match l with
  | Some items => [(k, JArr items)]
  | None => []
  end.

(** The own properties of a post. *)
Definition post_props (p : Post) : Props :=
  [("id", post_id p); ("userId", post_userId p); ("content", post_content p);
   ("image", post_image p); ("timestamp", post_timestamp p)]%string
  ++ optional "likes" (post_likes p)
  ++ optional "comments"
       (option_map (map (fun c => JObj (comment_props c))) (post_comments p)).

(** [{ id: u.id, name: u.name, type: u.type }]. *)
Definition user_summary (u : User) : JsVal :=
  JObj [("id", user_id u); ("name", JStr (user_name u));
        ("type", JStr (user_type u))]%string.

Section LikeRoute.
Variable host : Host.

(** [POST /api/posts/:id/like], once the token is verified: [userId] is
    [req.user.userId], [param] is [req.params.id], [r] the bus the module
    [services/redis.js] holds. *)
Definition like_route (r : Redis) (userId : JsVal) (param : string)
           (posts : list Post) (w : World) : Response * list Post * World :=
  match parseInt host (JStr param) with
  | Throw _ => (error_response 500 "Internal server error", posts, w)
  | Ok postId =>
      match find_entry (fun p => strict_equals (post_id p) postId) posts with
      | None => (error_response 404 "Post not found", posts, w)
      | Some (i, found) =>
          let likes :=
            match post_likes found with
            | Some l => l
            | None => []
            end in
          let liked := includes userId likes in
          let likes' := if liked then without userId likes else likes ++ [userId] in
          let post := with_likes (Some likes') found in
          let posts' := update_at i (with_likes (Some likes')) posts in
          let user :=
            find_entry (fun u => strict_equals (user_id u) (post_userId post))
                       (users w) in
          let liker :=
            find_entry (fun u => strict_equals (user_id u) userId) (users w) in
          let w' :=
            match liked, liker, user with
            | false, Some (_, liker), Some (_, user) =>
                snd (publishMessage r "newLike"
                       (JObj [("post", JObj (post_props post));
                              ("liker", user_summary liker);
                              ("postAuthor", user_summary user)]%string) w)
            | _, _, _ => w
            end in
          ({| status := 200;
              body :=
                JObj [("success", JBool true);
                      ("post",
                       JObj (assign (post_props post)
                               [("userName",
                                 JStr (match user with
                                       | Some (_, user) => user_name user
                                       | None => "Unknown User"
                                       end));
                                ("userType",
                                 JStr (match user with
                                       | Some (_, user) => user_type user
                                       | None => "unknown"
                                       end))]%string));
                      ("liked", JBool (negb liked))]%string |},
           posts', w')
      end
  end.

End LikeRoute.

(** * The comment route of [routes/posts.js] *)

Definition with_comments (comments : option (list Comment)) (p : Post) : Post :=
  {| post_id := post_id p;
     post_userId := post_userId p;
     post_content := post_content p;
     post_image := post_image p;
     post_timestamp := post_timestamp p;
     post_likes := post_likes p;
     post_comments := comments |}.

Definition reverse (s : string) : string :=
  string_of_list_ascii (rev (list_ascii_of_string s)).

(** [s.trim()]: the white space at both ends is dropped. *)
Definition trim (s : string) : string :=
  reverse (skip_white_space (reverse (skip_white_space s))).

(** One step of [Math.max]: [NaN] wins over everything, then the larger
    number, and [+0] over [-0]. *)
Definition max2 (highest x : number) : number :=
  if is_nan highest || is_nan x then S754_nan
  else
    match SFcompare highest x with
    | Some Lt => x
    | Some Eq =>
        match highest, x with
        | S754_zero true, S754_zero false => x
        | _, _ => highest
        end
    | _ => highest
    end.

(** [Math.max(...l)]: minus infinity for no argument. *)
Definition Math_max (l : list number) : number :=
  fold_left max2 l (S754_infinity true).

(** [a || b]. *)
Definition or_else (a b : JsVal) : JsVal := if truthy a then a else b.

Section CommentRoute.
Variable host : Host.

(** [POST /api/posts/:id/comment], once the token is verified: [userId] is
    [req.user.userId], [text] the field of the body, [param] is
    [req.params.id], [r] the bus.  [new Date()] is the reading of the clock,
    which the call uses up. *)
Definition comment_route (r : Redis) (userId text : JsVal) (param : string)
           (posts : list Post) (w : World) : Response * list Post * World :=
  match parseInt host (JStr param) with
  | Throw _ => (error_response 500 "Internal server error", posts, w)
  | Ok postId =>
      match text with
      | JStr s =>
          if negb (truthy text) || (String.length (trim s) =? 0)
          then (error_response 400 "Comment text is required", posts, w)
          else if 500 <? String.length s
          then (error_response 400 "Comment cannot exceed 500 characters", posts, w)
          else
            match find_entry (fun p => strict_equals (post_id p) postId) posts with
            | None => (error_response 404 "Post not found", posts, w)
            | Some (i, found) =>
                let comments :=
                  match post_comments found with
                  | Some l => l
                  | None => []
                  end in
                let newCommentId :=
                  if 0 <? List.length comments
                  then num_add (Math_max (map comment_id comments)) (num_of_Z 1)
                  else num_of_Z 1 in
                let newComment :=
                  {| comment_id := newCommentId;
                     comment_userId := userId;
                     comment_text := trim s;
                     comment_timestamp :=
                       JStr (date_iso (readings host (clock w))) |} in
                let post := with_comments (Some (comments ++ [newComment])) found in
                let commentUser :=
                  find_entry (fun u => strict_equals (user_id u) userId) (users w) in
                let postUser :=
                  find_entry (fun u => strict_equals (user_id u) (post_userId post))
                             (users w) in
                let w' :=
                  match commentUser, postUser with
                  | Some (_, commentUser), Some (_, postUser) =>
                      snd (publishMessage r "newComment"
                             (JObj [("post", JObj (post_props post));
                                    ("comment", JObj (comment_props newComment));
                                    ("commenter", user_summary commentUser);
                                    ("postAuthor", user_summary postUser)]%string)
                             (tick w))
                  | _, _ => tick w
                  end in
                ({| status := 201;
                    body :=
                      JObj [("success", JBool true);
                            ("comment",
                             JObj (assign (comment_props newComment)
                                     [("user",
                                       JObj [("id",
                                              match commentUser with
                                              | Some (_, u) => or_else (user_id u) userId
                                              | None => userId
                                              end);
                                             ("name",
                                              match commentUser with
                                              | Some (_, u) =>
                                                  or_else (JStr (user_name u))
                                                          (JStr "Unknown User")
                                              | None => JStr "Unknown User"
                                              end);
                                             ("avatar", JNull)])]));
                            ("post",
                             JObj (assign (post_props post)
                                     [("userName",
                                       JStr (match postUser with
                                             | Some (_, u) => user_name u
                                             | None => "Unknown User"
                                             end));
                                      ("userType",
                                       JStr (match postUser with
                                             | Some (_, u) => user_type u
                                             | None => "unknown"
                                             end))]))]%string |},
                 update_at i (with_comments (Some (comments ++ [newComment]))) posts,
                 w')
            end
      | _ =>
          if truthy text
          then (error_response 500 "Internal server error", posts, w)
          else (error_response 400 "Comment text is required", posts, w)
      end
  end.

End CommentRoute.

(** A value the JSON text gives back as it was: [JSON.parse(JSON.stringify(v))
    === v]. *)
Definition survives_json (v : JsVal) : bool := strict_equals (json_value v) v.

(** What a JSON text keeps of the properties of an object. *)
Fixpoint json_props (ps : Props) : Props :=
  match ps with
  | [] => []
  | (k, JUndefined) :: rest => json_props rest
  | (k, x) :: rest => (k, json_value x) :: json_props rest
  end.

(** What a property holding [v] reads as once the object went through a
    JSON text: a property that is [undefined] is dropped and reads as
    [undefined]. *)
Definition kept (v : JsVal) : JsVal :=
  match v with
  | JUndefined => JUndefined
  | _ => json_value v
  end.

(** The draft [createLikeNotification] builds from the message the like
    route publishes for [post] and [liker]. *)
Definition like_notification (post : Post) (liker : User) : JsVal :=
  JObj [("type", JStr "newLike");
        ("title", JStr "New Like");
        ("message", JStr (user_name liker ++ " liked your post"));
        ("data", JObj [("postId", kept (post_id post));
                       ("likerId", kept (user_id liker));
                       ("likerName", JStr (user_name liker))])]%string.

(** The [likes] of the first post whose id is [=== id]. *)
Definition likes_of (id : JsVal) (posts : list Post) : list JsVal :=
  match find_entry (fun p => strict_equals (post_id p) id) posts with
  | Some (_, p) =>
      match post_likes p with
      | Some l => l
      | None => []
      end
  | None => []
  end.

(** ** More sample data *)

(** The two posts of [routes/posts.js] as loaded, with the dates the sample
    host reads. *)
Definition first_post : Post :=
  {| post_id := uid 1;
     post_userId := uid 1;
     post_content :=
       JStr "Excited to connect with my fans on StarConnect!";
     post_image := JNull;
     post_timestamp := JStr "2023-11-14T22:13:20.000Z";
     post_likes := Some [];
     post_comments :=
       Some [{| comment_id := num_of_Z 1;
                comment_userId := uid 2;
                comment_text :=
                  "Welcome to StarConnect! Looking forward to your posts!";
                comment_timestamp := JStr "2023-11-14T22:08:20.000Z" |}] |}%string.

Definition second_post : Post :=
  {| post_id := uid 2;
     post_userId := uid 2;
     post_content :=
       JStr "Just joined StarConnect to follow my favorite celebrities!";
     post_image := JNull;
     post_timestamp := JStr "2023-11-14T22:13:20.000Z";
     post_likes := Some [];
     post_comments := Some [] |}%string.

Definition posts_js : list Post := [first_post; second_post].

(** The payload of a token of Jane. *)
Definition jane_token : JsVal :=
  JObj [("userId", uid 2); ("email", JStr "user@example.com");
        ("type", JStr "public")]%string.

(** A listener that throws, and one that does nothing. *)
Definition throwing_listener : Listener := fun _ => throw TypeError.

Definition idle_listener : Listener := fun _ => ret tt.

(** Jane unfollows John through [POST /follow], follows him again through
    [POST /api/users/1/follow], and a like is handled in between. *)
Definition follow_requests : list Request :=
  [PostFollow (uid 2) (JStr "1"); OnNewLike like_event;
   PostUserFollow (uid 2) "1"]%string.

(** * Properties *)

#[local] Arguments firstn : simpl never.
#[local] Arguments Nat.ltb : simpl never.

(** ** Equality of values *)

Ltac refute_iff :=
  split; [discriminate | intros [? ?]; discriminate].

Lemma SFeqb_true_iff (x y : number) :
  SFeqb x y = true <-> canon x = canon y /\ is_nan x = false.
Proof.
  assert (forall mx ex my ey,
             match (ex ?= ey)%Z with
             | Eq => Pos.compare mx my
             | c => c
             end = Eq <-> mx = my /\ ex = ey) as same.
  { intros mx ex my ey.
    destruct (Z.compare_spec ex ey) as [He | He | He];
      try (split; [discriminate | intros [_ ?]; lia]).
    destruct (Pos.compare_spec mx my) as [Hm | Hm | Hm];
      try (split; [discriminate | intros [? _]; lia]).
    tauto. }
  unfold SFeqb, SFcompare.
  destruct x as [sx | [] | | [] mx ex], y as [sy | [] | | [] my ey]; simpl;
    try refute_iff; try (split; [auto | reflexivity]);
    fold (Pos.compare mx my); specialize (same mx ex my ey).
  - destruct (ex ?= ey)%Z, (mx ?= my)%positive; simpl;
      try (split; [discriminate | intros [[= -> ->] _]]);
      try (split; [intros _ | reflexivity]);
      try (destruct same as [same _]; destruct same; [reflexivity | now subst]);
      destruct same as [_ same]; now specialize (same (conj eq_refl eq_refl)).
  - destruct (ex ?= ey)%Z, (mx ?= my)%positive; simpl;
      try (split; [discriminate | intros [[= -> ->] _]]);
      try (split; [intros _ | reflexivity]);
      try (destruct same as [same _]; destruct same; [reflexivity | now subst]);
      destruct same as [_ same]; now specialize (same (conj eq_refl eq_refl)).
Qed.

Lemma same_value_zero_iff (a b : JsVal) :
  same_value_zero a b = true <-> is_primitive a = true /\ key a = key b.
Proof.
  destruct a, b; simpl; try refute_iff; try (split; [auto | reflexivity]).
  - rewrite Bool.eqb_true_iff. split.
    + intros ->. auto.
    + intros [_ H]. now inversion H.
  - rewrite orb_true_iff, andb_true_iff, SFeqb_true_iff. split.
    + intros [[H _] | [H1 H2]].
      * split; [reflexivity | now rewrite H].
      * destruct x, x0; try discriminate. auto.
    + intros [_ H]. inversion H as [H'].
      destruct (is_nan x) eqn:Hn.
      * right. split; [reflexivity |].
        destruct x; try discriminate. destruct x0; try discriminate; reflexivity.
      * left. auto.
  - rewrite String.eqb_eq. split.
    + intros ->. auto.
    + intros [_ H]. now inversion H.
Qed.

Lemma same_value_zero_refl (k : JsVal) :
  is_primitive k = true -> same_value_zero k k = true.
Proof. intros H. apply same_value_zero_iff. auto. Qed.

Lemma same_value_zero_trans (a b c : JsVal) :
  same_value_zero a b = true -> same_value_zero a c = true ->
  same_value_zero b c = true.
Proof.
  rewrite !same_value_zero_iff. intros [Ha Hab] [_ Hac]. split.
  - destruct a, b; simpl in *; try discriminate; reflexivity.
  - congruence.
Qed.

Lemma same_value_zero_sym (a b : JsVal) :
  same_value_zero a b = same_value_zero b a.
Proof.
  destruct (same_value_zero a b) eqn:Hab, (same_value_zero b a) eqn:Hba;
    try reflexivity.
  - apply same_value_zero_iff in Hab as [Ha Hab].
    assert (same_value_zero b a = true) as E; [| congruence].
    apply same_value_zero_iff. split; [| congruence].
    destruct a, b; simpl in *; try discriminate; reflexivity.
  - apply same_value_zero_iff in Hba as [Hb Hba].
    assert (same_value_zero a b = true) as E; [| congruence].
    apply same_value_zero_iff. split; [| congruence].
    destruct a, b; simpl in *; try discriminate; reflexivity.
Qed.

(** ** Maps *)

Section JsMapFacts.
Context {V : Type}.
Implicit Types (m : JsMap V) (k : JsVal) (v : V).

Lemma map_get_set k k' v m :
  map_get k' (map_set k v m) =
  if same_value_zero k k' then Some v else map_get k' m.
Proof.
  induction m as [| [k0 v0] rest IH]; simpl.
  - destruct (same_value_zero k k'); reflexivity.
  - destruct (same_value_zero k0 k) eqn:H0; simpl.
    + destruct (same_value_zero k0 k') eqn:H1.
      * now rewrite (same_value_zero_trans _ _ _ H0 H1).
      * destruct (same_value_zero k k') eqn:H2; [| reflexivity].
        rewrite same_value_zero_sym in H0.
        pose proof (same_value_zero_trans _ _ _ H0 H2) as E.
        congruence.
    + destruct (same_value_zero k0 k') eqn:H1; [| exact IH].
      destruct (same_value_zero k k') eqn:H2; [| reflexivity].
      rewrite same_value_zero_sym in H1.
      rewrite same_value_zero_sym in H2.
      pose proof (same_value_zero_trans _ _ _ H1 H2) as E.
      congruence.
Qed.

Lemma map_get_set_same k v m :
  is_primitive k = true -> map_get k (map_set k v m) = Some v.
Proof.
  intros H. now rewrite map_get_set, same_value_zero_refl.
Qed.

(** A second write to a key that is present replaces the first. *)
Lemma map_set_set k v v' m :
  map_has k m = true -> map_set k v' (map_set k v m) = map_set k v' m.
Proof.
  unfold map_has.
  induction m as [| [k0 v0] rest IH]; simpl; [discriminate |].
  destruct (same_value_zero k0 k) eqn:H0; simpl; rewrite H0.
  - reflexivity.
  - intros H. now rewrite IH.
Qed.

Lemma map_get_set_present k v m :
  map_has k m = true -> map_get k (map_set k v m) = Some v.
Proof.
  unfold map_has.
  induction m as [| [k0 v0] rest IH]; simpl; [discriminate |].
  destruct (same_value_zero k0 k) eqn:H0; simpl; rewrite H0; auto.
Qed.

Lemma map_delete_absent k m : map_get k m = None -> map_delete k m = m.
Proof.
  induction m as [| [k0 v0] rest IH]; simpl; [reflexivity |].
  destruct (same_value_zero k0 k); [discriminate |].
  intros H. now rewrite IH.
Qed.
End JsMapFacts.

(** Two keys that are the same value read the same entry. *)
Lemma map_get_same_key {V : Type} (k k' : JsVal) (m : JsMap V) :
  same_value_zero k k' = true -> map_get k m = map_get k' m.
Proof.
  intros H. induction m as [| [k0 v0] rest IH]; simpl; [reflexivity |].
  destruct (same_value_zero k0 k) eqn:H0, (same_value_zero k0 k') eqn:H1;
    try reflexivity; try exact IH.
  - rewrite same_value_zero_sym in H0.
    pose proof (same_value_zero_trans _ _ _ H0 H) as E. congruence.
  - rewrite same_value_zero_sym in H.
    rewrite same_value_zero_sym in H1.
    pose proof (same_value_zero_trans _ _ _ H1 H) as E. congruence.
Qed.

Lemma map_get_delete_other {V : Type} (k k' : JsVal) (m : JsMap V) :
  same_value_zero k k' = false -> map_get k' (map_delete k m) = map_get k' m.
Proof.
  intros H. induction m as [| [k0 v0] rest IH]; simpl; [reflexivity |].
  destruct (same_value_zero k0 k) eqn:H0; simpl.
  - destruct (same_value_zero k0 k') eqn:H1; [| reflexivity].
    pose proof (same_value_zero_trans _ _ _ H0 H1) as E. congruence.
  - now rewrite IH.
Qed.

(** ** Objects *)

Lemma own_set_prop_same (k : string) (v : JsVal) (o : Props) :
  own k (set_prop k v o) = v.
Proof.
  induction o as [| [k' v'] rest IH]; simpl.
  - now rewrite String.eqb_refl.
  - destruct (String.eqb k k') eqn:E; simpl; rewrite E; auto.
Qed.

Lemma own_set_prop_other (k k' : string) (v : JsVal) (o : Props) :
  k <> k' -> own k (set_prop k' v o) = own k o.
Proof.
  intros Hne. induction o as [| [k0 v0] rest IH]; simpl.
  - destruct (String.eqb_spec k k'); [contradiction | reflexivity].
  - destruct (String.eqb_spec k' k0) as [-> | H0]; simpl.
    + destruct (String.eqb_spec k k0); [contradiction | reflexivity].
    + destruct (String.eqb k k0); auto.
Qed.

Lemma set_prop_twice (k : string) (v : JsVal) (o : Props) :
  set_prop k v (set_prop k v o) = set_prop k v o.
Proof.
  induction o as [| [k' v'] rest IH]; simpl.
  - now rewrite String.eqb_refl.
  - destruct (String.eqb k k') eqn:E; simpl; rewrite E; [reflexivity |].
    now rewrite IH.
Qed.

Lemma own_assign_absent (k : string) (extra o : Props) :
  has_own k extra = false -> own k (assign o extra) = own k o.
Proof.
  unfold assign. revert o.
  induction extra as [| [k' v'] rest IH]; intros o H; simpl in *; [reflexivity |].
  apply orb_false_iff in H as [Hk Hrest].
  rewrite IH by exact Hrest.
  apply own_set_prop_other. intros ->. now rewrite String.eqb_refl in Hk.
Qed.

(** ** Lists *)

(** [splice(50)] on an array longer than 50 and no change otherwise is
    [firstn 50]. *)
Lemma splice_is_firstn {A : Type} (n : nat) (l : list A) :
  (if n <? List.length l then firstn n l else l) = firstn n l.
Proof.
  destruct (Nat.ltb_spec n (List.length l)); [reflexivity |].
  symmetry. now apply firstn_all2.
Qed.

Lemma Forall_take {A : Type} (Q : A -> Prop) (n : nat) (l : list A) :
  Forall Q l -> Forall Q (firstn n l).
Proof.
  intros H. rewrite <- (firstn_skipn n l) in H.
  now apply Forall_app in H.
Qed.

Lemma firstn_app_firstn {A : Type} (n : nat) (a b : list A) :
  firstn n (a ++ firstn n b) = firstn n (a ++ b).
Proof.
  rewrite !firstn_app, firstn_firstn.
  now replace (Nat.min (n - List.length a) n) with (n - List.length a) by lia.
Qed.

(** ** The notification store *)

Section StoreFacts.
Variable host : Host.

Lemma stored_addNotification (userId notification other : JsVal) (w : World) :
  stored other (snd (addNotification host userId notification w)) =
  if same_value_zero userId other
  then firstn 50 (fst (addNotification host userId notification w)
                    :: stored userId w)
  else stored other w.
Proof.
  unfold addNotification, stored at 1.
  cbn [snd fst notifications with_notifications tick].
  rewrite map_get_set, splice_is_firstn.
  destruct (same_value_zero userId other); reflexivity.
Qed.

Lemma newNotification_read (r : Reading) (notification : JsVal) :
  own "read" (newNotification r notification) = JBool false.
Proof. apply own_set_prop_same. Qed.

Lemma newNotification_timestamp (r : Reading) (notification : JsVal) :
  own "timestamp" (newNotification r notification) = JStr (date_iso r).
Proof.
  unfold newNotification.
  rewrite own_set_prop_other by discriminate.
  apply own_set_prop_same.
Qed.

Lemma newNotification_id (r : Reading) (notification : JsVal) :
  has_own "id" (enumerable notification) = false ->
  own "id" (newNotification r notification) =
  JNum (num_add (date_now r) (math_random r)).
Proof.
  intros H. unfold newNotification.
  rewrite !own_set_prop_other by discriminate.
  now rewrite own_assign_absent.
Qed.

Lemma has_own_In (k : string) (o : Props) :
  has_own k o = true <-> In k (map fst o).
Proof.
  induction o as [| [k' v'] rest IH]; simpl; [split; [discriminate | tauto] |].
  rewrite orb_true_iff, IH. split.
  - intros [H | H]; [left; symmetry; now apply String.eqb_eq | now right].
  - intros [H | H]; [left; subst; apply String.eqb_refl | now right].
Qed.

Lemma own_assign_present (k : string) (extra : Props) :
  forall o,
    NoDup (map fst extra) -> has_own k extra = true ->
    own k (assign o extra) = own k extra.
Proof.
  unfold assign.
  induction extra as [| [k' v'] rest IH]; intros o Hnd Hk; simpl in *;
    [discriminate |].
  inversion Hnd as [| ? ? Hnotin Hrest]; subst.
  destruct (String.eqb_spec k k') as [-> | Hne].
  - assert (has_own k' rest = false) as Habsent.
    { destruct (has_own k' rest) eqn:E; [| reflexivity].
      apply has_own_In in E. contradiction. }
    pose proof (own_assign_absent k' rest (set_prop k' v' o) Habsent) as E.
    unfold assign in E. rewrite E. apply own_set_prop_same.
  - simpl in Hk. now apply IH.
Qed.

(** What the spread copies: a property of the draft other than [timestamp]
    and [read] is in the record as the draft has it, [id] included. *)
Lemma newNotification_keeps (r : Reading) (notification : JsVal) (k : string) :
  NoDup (map fst (enumerable notification)) ->
  has_own k (enumerable notification) = true ->
  k <> "timestamp"%string -> k <> "read"%string ->
  own k (newNotification r notification) = own k (enumerable notification).
Proof.
  intros Hnd Hk Hts Hread. unfold newNotification.
  rewrite !own_set_prop_other by assumption.
  now apply own_assign_present.
Qed.

Lemma stored_addNotifications (userId : JsVal) (calls : list (JsVal * JsVal)) :
  forall w,
    List.length (stored userId w) <= 50 ->
    stored userId (snd (addNotifications host calls w)) =
    firstn 50 (rev (created_for userId calls (fst (addNotifications host calls w)))
                 ++ stored userId w).
Proof.
  induction calls as [| [u d] rest IH]; intros w Hlen;
    cbn [addNotifications created_for fst snd rev app].
  - symmetry. now apply firstn_all2.
  - set (step := addNotification host u d w).
    assert (List.length (stored userId (snd step)) <= 50) as Hstep.
    { subst step. rewrite stored_addNotification.
      destruct (same_value_zero u userId); [| exact Hlen].
      apply firstn_le_length. }
    rewrite (IH (snd step) Hstep). subst step.
    rewrite stored_addNotification.
    destruct (same_value_zero u userId) eqn:Hu.
    + assert (stored u w = stored userId w) as ->
          by (unfold stored; now rewrite (map_get_same_key _ _ _ Hu)).
      cbn [rev]. rewrite firstn_app_firstn, <- app_assoc. reflexivity.
    + reflexivity.
Qed.

(** [getNotifications(userId, n)] is the first [n] of the stored array. *)
Lemma getNotifications_stored (userId : JsVal) (n : nat) (w : World) :
  getNotifications userId (Some (Z.of_nat n)) w = firstn n (stored userId w).
Proof.
  unfold getNotifications, slice0, map_has, stored.
  destruct (map_get userId (notifications w)); simpl.
  - destruct (Z.ltb_spec (Z.of_nat n) 0); [lia |]. now rewrite Nat2Z.id.
  - now rewrite firstn_nil.
Qed.
End StoreFacts.

(** C6, as the code has it.  For a user id that is a primitive value,
    [addNotification] returns the record it builds: [read] is [false] and
    [timestamp] is the time of the call whatever the draft carries; every
    other property of the draft (an object, with distinct keys) is in the
    record as the draft has it, its [id] included, so the generated [id] is
    the record's only when the draft has none of its own.  The record is put
    in front of the user's list, the list is cut to its first 50 entries,
    and no other user's list changes.  Hence after any run of calls the
    user's list is the first 50 of the records made for the user, latest
    first, followed by what was stored before: its length is at most 50, and
    what is dropped is dropped from the old end, whatever its [read] flag. *)
Theorem addNotification_prepends_and_bounds (host : Host) (userId : JsVal) :
  is_primitive userId = true ->
  (forall (notification : JsVal) (w : World),
      let r := readings host (clock w) in
      let created := fst (addNotification host userId notification w) in
      let w' := snd (addNotification host userId notification w) in
      own "read" created = JBool false /\
      own "timestamp" created = JStr (date_iso r) /\
      (has_own "id" (enumerable notification) = false ->
       own "id" created = JNum (num_add (date_now r) (math_random r))) /\
      (NoDup (map fst (enumerable notification)) ->
       forall k,
         has_own k (enumerable notification) = true ->
         k <> "timestamp"%string -> k <> "read"%string ->
         own k created = own k (enumerable notification)) /\
      stored userId w' = firstn 50 (created :: stored userId w) /\
      (forall other, same_value_zero userId other = false ->
                     stored other w' = stored other w)) /\
  (forall (calls : list (JsVal * JsVal)) (w : World),
      List.length (stored userId w) <= 50 ->
      let created := fst (addNotifications host calls w) in
      let w' := snd (addNotifications host calls w) in
      stored userId w' =
        firstn 50 (rev (created_for userId calls created) ++ stored userId w) /\
      List.length (stored userId w') <= 50 /\
      getNotifications userId (Some 50%Z) w' = stored userId w').
Proof.
  intros Hprim. split.
  - intros notification w r created w'. subst created w'.
    repeat split.
    + apply newNotification_read.
    + apply newNotification_timestamp.
    + apply newNotification_id.
    + intros Hnd k Hk Hts Hread. now apply newNotification_keeps.
    + rewrite stored_addNotification.
      now rewrite same_value_zero_refl.
    + intros other Hother. rewrite stored_addNotification. now rewrite Hother.
  - intros calls w Hlen created w'. subst created w'.
    pose proof (stored_addNotifications host userId calls w Hlen) as E.
    assert (List.length (stored userId (snd (addNotifications host calls w))) <= 50)
      as Hbound by (rewrite E; apply firstn_le_length).
    repeat split; [exact E | exact Hbound |].
    change 50%Z with (Z.of_nat 50).
    rewrite getNotifications_stored. now apply firstn_all2.
Qed.

(** ** [find] and the write to the element found *)

Section FindFacts.
Context {A : Type}.
Variables (p : A -> bool) (f : A -> A).

Lemma find_index_Some (l : list A) (i : nat) :
  find_index p l = Some i ->
  exists before x after,
    l = before ++ x :: after /\ List.length before = i /\ p x = true /\
    (forall y, In y before -> p y = false).
Proof.
  revert i. induction l as [| x rest IH]; intros i; simpl; [discriminate |].
  destruct (p x) eqn:Hx.
  - intros [= <-]. exists [], x, rest. repeat split; auto. intros y [].
  - destruct (find_index p rest) as [j |] eqn:Hj; [| discriminate].
    intros [= <-].
    destruct (IH j eq_refl) as (before & y & after & -> & Hlen & Hy & Hb).
    exists (x :: before), y, after. simpl. repeat split; auto.
    intros z [<- | Hz]; auto.
Qed.

Lemma find_index_None (l : list A) :
  find_index p l = None <-> (forall x, In x l -> p x = false).
Proof.
  induction l as [| x rest IH]; simpl.
  - split; [intros _ y [] | reflexivity].
  - destruct (p x) eqn:Hx.
    + split; [discriminate |]. intros H. specialize (H x (or_introl eq_refl)).
      congruence.
    + destruct (find_index p rest); simpl.
      * split; [discriminate |]. intros H.
        assert (Some n = None) as E; [| discriminate].
        apply IH. intros y Hy. apply H. now right.
      * split; [| reflexivity]. intros _ y [<- | Hy]; [exact Hx |].
        now apply IH.
Qed.

Lemma update_at_split (before after : list A) (x : A) :
  update_at (List.length before) f (before ++ x :: after) =
  before ++ f x :: after.
Proof.
  induction before as [| y rest IH]; simpl; [reflexivity |]. now rewrite IH.
Qed.

Lemma find_index_update_at (l : list A) (i : nat) :
  (forall x, p (f x) = p x) ->
  find_index p (update_at i f l) = find_index p l.
Proof.
  intros Hp. revert i.
  induction l as [| x rest IH]; intros [| j]; simpl; try reflexivity.
  - now rewrite Hp.
  - now rewrite IH.
Qed.

Lemma update_at_twice (l : list A) (i : nat) :
  (forall x, f (f x) = f x) ->
  update_at i f (update_at i f l) = update_at i f l.
Proof.
  intros Hf. revert i.
  induction l as [| x rest IH]; intros [| j]; simpl; try reflexivity.
  - now rewrite Hf.
  - now rewrite IH.
Qed.
End FindFacts.

Lemma stored_absent (userId : JsVal) (w : World) :
  map_has userId (notifications w) = false -> stored userId w = [].
Proof.
  unfold map_has, stored.
  destruct (map_get userId (notifications w)); [discriminate | reflexivity].
Qed.

Lemma own_id_set_read (n : Props) : own "id" (set_read n) = own "id" n.
Proof. apply own_set_prop_other. discriminate. Qed.

(** C8.  [markAsRead] returns [true] exactly when the user's list holds an
    entry whose [id] is [===] to the requested one.  It then sets [read] to
    [true] on the first such entry and changes nothing else; otherwise the
    state is the one it was given.  No other user's list changes, and a second
    call with the same arguments returns the same value and leaves the state of
    the first call. *)
Theorem markAsRead_marks_and_is_idempotent (userId notificationId : JsVal) (w : World) :
  let found := fst (markAsRead userId notificationId w) in
  let w' := snd (markAsRead userId notificationId w) in
  (found = true <->
   exists n, In n (stored userId w) /\
             strict_equals (own "id" n) notificationId = true) /\
  (found = false -> w' = w) /\
  (found = true ->
   exists before n after,
     stored userId w = before ++ n :: after /\
     (forall n', In n' before ->
                 strict_equals (own "id" n') notificationId = false) /\
     strict_equals (own "id" n) notificationId = true /\
     stored userId w' = before ++ set_read n :: after /\
     own "read" (set_read n) = JBool true) /\
  (forall other, same_value_zero userId other = false ->
                 stored other w' = stored other w) /\
  markAsRead userId notificationId w' = (found, w').
Proof.
  cbv zeta.
  set (p := fun n : Props => strict_equals (own "id" n) notificationId).
  destruct (map_has userId (notifications w)) eqn:Hhas.
  2:{ assert (markAsRead userId notificationId w = (false, w)) as E
        by (unfold markAsRead; now rewrite Hhas).
      rewrite E. cbn [fst snd].
      pose proof (stored_absent _ _ Hhas) as Hnil.
      repeat split; try discriminate; auto.
      intros (n & Hin & _). rewrite Hnil in Hin. destruct Hin. }
  destruct (find_index p (stored userId w)) as [i |] eqn:Hfind.
  - set (marked := update_at i set_read (stored userId w)).
    set (w1 := with_notifications (map_set userId marked (notifications w)) w).
    assert (markAsRead userId notificationId w = (true, w1)) as E
        by (unfold markAsRead; rewrite Hhas; cbn [negb]; fold p;
            now rewrite Hfind).
    rewrite E. cbn [fst snd].
    destruct (find_index_Some p _ _ Hfind)
      as (before & n & after & Hl & Hlen & Hn & Hbefore).
    assert (marked = before ++ set_read n :: after) as Hmarked
        by (subst marked; rewrite Hl, <- Hlen; apply update_at_split).
    assert (map_has userId (notifications w1) = true) as Hhas1
        by (unfold map_has; subst w1; cbn [notifications with_notifications];
            now rewrite map_get_set_present).
    assert (stored userId w1 = marked) as Hstored
        by (unfold stored; subst w1; cbn [notifications with_notifications];
            now rewrite map_get_set_present).
    repeat split; try discriminate; auto.
    + exists n. split; [| exact Hn]. rewrite Hl. apply in_elt.
    + intros _. exists before, n, after. rewrite Hstored, <- Hmarked.
      repeat split; auto. apply own_set_prop_same.
    + intros other Hother. unfold stored. subst w1.
      cbn [notifications with_notifications].
      now rewrite map_get_set, Hother.
    + unfold markAsRead. rewrite Hhas1. cbn [negb]. fold p. rewrite Hstored.
      assert (find_index p marked = Some i) as ->.
      { subst marked. rewrite <- Hfind. apply find_index_update_at.
        intros x. unfold p. now rewrite own_id_set_read. }
      assert (update_at i set_read marked = marked) as ->
          by (subst marked; apply update_at_twice; intros x; apply set_prop_twice).
      subst w1. cbn [notifications with_notifications].
      now rewrite map_set_set.
  - assert (markAsRead userId notificationId w = (false, w)) as E
        by (unfold markAsRead; rewrite Hhas; cbn [negb]; fold p;
            now rewrite Hfind).
    rewrite E. cbn [fst snd].
    pose proof (proj1 (find_index_None p _) Hfind) as Hnone.
    repeat split; try discriminate; auto.
    intros (n & Hin & Hn). specialize (Hnone n Hin). unfold p in Hnone.
    congruence.
Qed.

(** ** The worlds the process reaches *)

Section Preservation.
Variable P : World -> Prop.

Lemma preserves_ret {A : Type} (a : A) : preserves P (ret a).
Proof. intros w H. exact H. Qed.

Lemma preserves_gets {A : Type} (f : World -> A) : preserves P (gets f).
Proof. intros w H. exact H. Qed.

Lemma preserves_bind {A B : Type} (c : M A) (k : A -> M B) :
  preserves P c -> (forall a, preserves P (k a)) -> preserves P (bind c k).
Proof.
  intros Hc Hk w H. unfold bind. specialize (Hc w H).
  destruct (c w) as [[a | e] w1]; simpl in *; [| exact Hc].
  now apply Hk.
Qed.

Lemma preserves_bind_lift {A B : Type} (r : Result A) (k : A -> M B) :
  (forall a, r = Ok a -> preserves P (k a)) -> preserves P (bind (lift r) k).
Proof.
  intros Hk w H. unfold bind, lift.
  destruct r as [a | e]; simpl; [| exact H]. now apply (Hk a).
Qed.

Lemma preserves_forEach {A : Type} (f : A -> M unit) (l : list A) :
  (forall x, preserves P (f x)) -> preserves P (forEach f l).
Proof.
  intros Hf. induction l as [| x rest IH]; simpl.
  - apply preserves_ret.
  - apply preserves_bind; [apply Hf | intros _; exact IH].
Qed.

Lemma preserves_try_catch (body : M unit) :
  preserves P body -> preserves P (try_catch body).
Proof.
  intros Hb w H. unfold try_catch. specialize (Hb w H).
  now destruct (body w) as [[a | e] w1].
Qed.

Lemma preserves_async {A : Type} (body : M A) :
  preserves P body -> preserves P (async body).
Proof.
  intros Hb w H. unfold async. specialize (Hb w H).
  now destruct (body w) as [r w1].
Qed.
End Preservation.

(** ** What every reachable world satisfies *)

Lemma Forall_map_set {V : Type} (Q : V -> Prop) (k : JsVal) (v : V) (m : JsMap V) :
  Forall (fun kv => Q (snd kv)) m -> Q v ->
  Forall (fun kv => Q (snd kv)) (map_set k v m).
Proof.
  intros Hm Hv. induction Hm as [| [k0 v0] rest H0 Hrest IH]; simpl.
  - constructor; [exact Hv | constructor].
  - destruct (same_value_zero k0 k); constructor; auto.
Qed.

Lemma Forall_map_get {V : Type} (Q : V -> Prop) (k : JsVal) (v : V) (m : JsMap V) :
  Forall (fun kv => Q (snd kv)) m -> map_get k m = Some v -> Q v.
Proof.
  intros Hm. induction Hm as [| [k0 v0] rest H0 Hrest IH]; simpl; [discriminate |].
  destruct (same_value_zero k0 k); [| exact IH].
  intros [= <-]. exact H0.
Qed.

Lemma count_key_same {V : Type} (k k' : JsVal) (m : JsMap V) :
  same_value_zero k k' = true -> count_key k m = count_key k' m.
Proof.
  intros H. unfold count_key. f_equal. apply filter_ext. intros [k0 v0]. simpl.
  destruct (same_value_zero k0 k) eqn:H0, (same_value_zero k0 k') eqn:H1;
    try reflexivity.
  - rewrite same_value_zero_sym in H0.
    pose proof (same_value_zero_trans _ _ _ H0 H). congruence.
  - rewrite same_value_zero_sym in H, H1.
    pose proof (same_value_zero_trans _ _ _ H1 H). congruence.
Qed.

Lemma count_key_map_set_le {V : Type} (k k' : JsVal) (v : V) (m : JsMap V) :
  same_value_zero k k' = false ->
  count_key k' (map_set k v m) <= count_key k' m.
Proof.
  intros H. unfold count_key.
  induction m as [| [k0 v0] rest IH]; simpl.
  - rewrite H. simpl. lia.
  - destruct (same_value_zero k0 k); simpl.
    + destruct (same_value_zero k0 k'); simpl; lia.
    + destruct (same_value_zero k0 k'); simpl; lia.
Qed.

Lemma count_key_map_set_self {V : Type} (k : JsVal) (v : V) (m : JsMap V) :
  count_key k m <= 1 -> count_key k (map_set k v m) <= 1.
Proof.
  unfold count_key.
  induction m as [| [k0 v0] rest IH]; simpl.
  - destruct (same_value_zero k k); simpl; lia.
  - destruct (same_value_zero k0 k) eqn:H0; simpl; rewrite H0; simpl.
    + auto.
    + exact IH.
Qed.

Lemma count_key_map_delete {V : Type} (k k' : JsVal) (m : JsMap V) :
  count_key k' (map_delete k m) <= count_key k' m.
Proof.
  unfold count_key.
  induction m as [| [k0 v0] rest IH]; simpl; [lia |].
  destruct (same_value_zero k0 k); simpl.
  - destruct (same_value_zero k0 k'); simpl; lia.
  - destruct (same_value_zero k0 k'); simpl; lia.
Qed.

Lemma store_ok_stored (userId : JsVal) (w : World) :
  store_ok w -> Forall numbered (stored userId w).
Proof.
  intros H. unfold stored.
  destruct (map_get userId (notifications w)) as [l |] eqn:E; [| constructor].
  exact (proj2 (Forall_map_get list_ok _ _ _ H E)).
Qed.

(** In a well-formed store a key that is present holds a record. *)
Lemma store_ok_present (userId : JsVal) (w : World) :
  store_ok w -> stored userId w = [] -> map_has userId (notifications w) = false.
Proof.
  intros H. unfold stored, map_has.
  destruct (map_get userId (notifications w)) as [l |] eqn:E; [| reflexivity].
  intros ->. now destruct (proj1 (Forall_map_get list_ok _ _ _ H E)).
Qed.

Section Invariant.
Variable host : Host.

Lemma addNotification_ok (userId notification : JsVal) :
  has_own "id" (enumerable notification) = false ->
  preserves world_ok (addNotification_ host userId notification).
Proof.
  intros Hid w [Hstore Hsock]. split; [| exact Hsock].
  unfold addNotification_, addNotification, store_ok.
  cbn [snd notifications with_notifications tick].
  apply Forall_map_set; [exact Hstore |].
  rewrite splice_is_firstn. split.
  - discriminate.
  - apply Forall_take. constructor.
    + eexists. now apply newNotification_id.
    + now apply store_ok_stored.
Qed.

Lemma sendNotificationToUser_ok (userId notification : JsVal)
      (server : option IoServer) :
  preserves world_ok (sendNotificationToUser userId notification server).
Proof.
  intros w H. unfold sendNotificationToUser, io_emit.
  destruct server as [srv |]; [| exact H].
  destruct (truthy (getUserSocket userId w)); [| exact H].
  destruct (emit_throws srv (getUserSocket userId w)); exact H.
Qed.

Lemma createPostNotification_no_id (post author draft : JsVal) :
  createPostNotification host post author = Ok draft ->
  has_own "id" (enumerable draft) = false.
Proof.
  unfold createPostNotification, ellipsize, bindR.
  repeat match goal with
         | |- context [match ?r with Ok _ => _ | Throw _ => _ end] =>
             destruct r; try discriminate
         end.
  now intros [= <-].
Qed.

Lemma createLikeNotification_no_id (post liker postAuthor draft : JsVal) :
  createLikeNotification host post liker postAuthor = Ok draft ->
  has_own "id" (enumerable draft) = false.
Proof.
  unfold createLikeNotification, bindR.
  repeat match goal with
         | |- context [match ?r with Ok _ => _ | Throw _ => _ end] =>
             destruct r; try discriminate
         end.
  now intros [= <-].
Qed.

(** The body of [createCommentNotification] never reaches its [return]. *)
Lemma createCommentNotification_throws (post commenter postAuthor : JsVal) :
  exists e, createCommentNotification host post commenter postAuthor = Throw e.
Proof.
  unfold createCommentNotification, unbound, bindR.
  destruct (get commenter "name") as [name |]; [| eauto].
  destruct (to_string host name); [| eauto].
  destruct (get post "id"); eauto.
Qed.

(** What [addNotification] keeps for a draft without an [id] of its own and
    [sendNotificationToUser] keeps, the three handlers keep. *)
Section Handlers.
Variable P : World -> Prop.
Hypothesis P_add :
  forall userId notification,
    has_own "id" (enumerable notification) = false ->
    preserves P (addNotification_ host userId notification).
Hypothesis P_send :
  forall userId notification server,
    preserves P (sendNotificationToUser userId notification server).

Lemma newPostHandler_preserves (data : JsVal) :
  preserves P (newPostHandler host data).
Proof.
  apply preserves_async, preserves_try_catch.
  apply preserves_bind_lift; intros post _.
  apply preserves_bind_lift; intros author _.
  apply preserves_bind; [apply preserves_gets | intros table].
  apply preserves_bind_lift; intros followers _.
  apply preserves_forEach; intros follower. unfold notifyFollower.
  apply preserves_bind_lift; intros draft Hdraft.
  apply preserves_bind; [| intros _; apply P_send].
  apply P_add. now apply createPostNotification_no_id in Hdraft.
Qed.

Lemma newLikeHandler_preserves (data : JsVal) :
  preserves P (newLikeHandler host data).
Proof.
  apply preserves_async, preserves_try_catch.
  apply preserves_bind_lift; intros post _.
  apply preserves_bind_lift; intros liker _.
  apply preserves_bind_lift; intros postAuthor _.
  apply preserves_bind_lift; intros likerId _.
  apply preserves_bind_lift; intros authorId _.
  destruct (strict_equals likerId authorId); [apply preserves_ret |].
  apply preserves_bind_lift; intros draft Hdraft.
  apply preserves_bind;
    [apply P_add; now apply createLikeNotification_no_id in Hdraft |].
  intros _. apply preserves_bind; [apply P_send |].
  intros _. apply preserves_bind_lift; intros name _.
  apply preserves_bind_lift; intros printed _.
  apply preserves_ret.
Qed.
End Handlers.

(** Whatever the message, the [newComment] handler returns the state it was
    given: every path that does not return early ends in the throw of
    [createCommentNotification], which the handler catches. *)
Lemma newCommentHandler_identity (data : JsVal) (w : World) :
  newCommentHandler host data w = (Ok (Ok tt), w).
Proof.
  unfold newCommentHandler, async, try_catch, bind, lift, ret.
  destruct (get data "post") as [post |]; [| reflexivity].
  destruct (get data "comment") as [comment |]; [| reflexivity].
  destruct (get data "commenter") as [commenter |]; [| reflexivity].
  destruct (get data "postAuthor") as [postAuthor |]; [| reflexivity].
  destruct (get commenter "id") as [commenterId |]; [| reflexivity].
  destruct (get postAuthor "id") as [authorId |]; [| reflexivity].
  destruct (strict_equals commenterId authorId); [reflexivity |].
  destruct (createCommentNotification_throws post comment commenter) as [e ->].
  reflexivity.
Qed.

Lemma markAsRead_ok (userId notificationId : JsVal) (w : World) :
  world_ok w -> world_ok (snd (markAsRead userId notificationId w)).
Proof.
  intros [Hstore Hsock]. unfold markAsRead.
  destruct (negb (map_has userId (notifications w))); [now split |].
  destruct (find_index _ (stored userId w)) as [i |] eqn:Hfind; [| now split].
  split; [| exact Hsock]. unfold store_ok.
  cbn [snd notifications with_notifications].
  apply Forall_map_set; [exact Hstore |].
  destruct (find_index_Some _ _ _ Hfind) as (before & n & after & Hl & Hlen & _).
  pose proof (store_ok_stored userId w Hstore) as Hnum.
  rewrite Hl in *. rewrite <- Hlen, update_at_split. split.
  - now destruct before.
  - apply Forall_app in Hnum as [Hb Hn]. apply Forall_app. split; [exact Hb |].
    inversion Hn as [| ? ? [x Hx] Ha]; subst. constructor; [| exact Ha].
    exists x. now rewrite own_id_set_read.
Qed.

Lemma markAllAsRead_ok (userId : JsVal) (w : World) :
  world_ok w -> world_ok (snd (markAllAsRead userId w)).
Proof.
  intros [Hstore Hsock]. unfold markAllAsRead.
  destruct (negb (map_has userId (notifications w))) eqn:Hhas; [now split |].
  split; [| exact Hsock]. unfold store_ok.
  cbn [snd notifications with_notifications].
  apply Forall_map_set; [exact Hstore |].
  apply negb_false_iff in Hhas.
  pose proof (store_ok_stored userId w Hstore) as Hnum. split.
  - intros E. apply map_eq_nil in E.
    pose proof (store_ok_present userId w Hstore E). congruence.
  - apply Forall_map. eapply Forall_impl; [| exact Hnum].
    intros n [x Hx]. exists x. now rewrite own_id_set_read.
Qed.

Lemma registerUserSocket_ok (userId socketId : JsVal) (w : World) :
  world_ok w -> world_ok (registerUserSocket userId socketId w).
Proof.
  intros [Hstore Hsock]. split; [exact Hstore |].
  intros k. unfold registerUserSocket. cbn [userSockets with_userSockets].
  destruct (same_value_zero userId k) eqn:Hk.
  - rewrite <- (count_key_same _ _ _ Hk).
    apply count_key_map_set_self. apply Hsock.
  - etransitivity; [now apply count_key_map_set_le | apply Hsock].
Qed.

Lemma unregisterUserSocket_ok (userId : JsVal) (w : World) :
  world_ok w -> world_ok (unregisterUserSocket userId w).
Proof.
  intros [Hstore Hsock]. split; [exact Hstore |].
  intros k. unfold unregisterUserSocket. cbn [userSockets with_userSockets].
  etransitivity; [apply count_key_map_delete | apply Hsock].
Qed.

Lemma perform_ok (a : Action) (w : World) :
  world_ok w -> world_ok (perform host a w).
Proof.
  destruct a; simpl.
  - apply newPostHandler_preserves;
      [apply addNotification_ok | apply sendNotificationToUser_ok].
  - apply newLikeHandler_preserves;
      [apply addNotification_ok | apply sendNotificationToUser_ok].
  - now rewrite newCommentHandler_identity.
  - apply markAsRead_ok.
  - apply markAllAsRead_ok.
  - apply registerUserSocket_ok.
  - apply unregisterUserSocket_ok.
  - auto.
Qed.

Lemma reachable_ok (w : World) : reachable host w -> world_ok w.
Proof.
  induction 1 as [table | a w Hreach IH].
  - split; [apply Forall_nil | intros k; cbv; repeat constructor].
  - now apply perform_ok.
Qed.

(** An event that does not write the socket of [userId] leaves it as it is. *)
Lemma perform_keeps_socket (userId : JsVal) (a : Action) (w : World) :
  rebinds userId a = false ->
  getUserSocket userId (perform host a w) = getUserSocket userId w.
Proof.
  set (Q := fun w' : World => userSockets w' = userSockets w).
  assert (forall u d, preserves Q (addNotification_ host u d)) as Qadd
      by (intros u d w' H; exact H).
  assert (forall u n s, preserves Q (sendNotificationToUser u n s)) as Qsend.
  { intros u n s w' H. unfold sendNotificationToUser, io_emit.
    destruct s as [srv |]; [| exact H].
    destruct (truthy (getUserSocket u w')); [| exact H].
    destruct (emit_throws srv (getUserSocket u w')); exact H. }
  unfold getUserSocket.
  destruct a; simpl; intros Hre.
  - now rewrite (newPostHandler_preserves Q (fun u d _ => Qadd u d) Qsend data w).
  - now rewrite (newLikeHandler_preserves Q (fun u d _ => Qadd u d) Qsend data w).
  - now rewrite newCommentHandler_identity.
  - unfold markAsRead.
    destruct (negb (map_has userId0 (notifications w))); [reflexivity |].
    now destruct (find_index _ (stored userId0 w)).
  - unfold markAllAsRead.
    now destruct (negb (map_has userId0 (notifications w))).
  - now rewrite map_get_set, Hre.
  - now rewrite map_get_delete_other.
  - reflexivity.
Qed.

Lemma run_keeps_socket (userId : JsVal) (actions : list Action) :
  forall w,
    forallb (fun a => negb (rebinds userId a)) actions = true ->
    getUserSocket userId (run host actions w) = getUserSocket userId w.
Proof.
  induction actions as [| a rest IH]; intros w H; [reflexivity |].
  cbn [forallb] in H.
  apply andb_true_iff in H as [Ha Hrest]. apply negb_true_iff in Ha.
  change (run host (a :: rest) w) with (run host rest (perform host a w)).
  rewrite IH by exact Hrest.
  now apply perform_keeps_socket.
Qed.
End Invariant.

(** ** The claims on the store and the registry *)

(** C7.  In a world the process reaches, for a user with no stored
    notification, [getNotifications] returns the empty array whatever the
    limit, [getUnreadCount] returns 0, and [markAllAsRead] returns [false] and
    the state it was given.  None of the three can throw: they are total
    functions, and the two readers return no state at all. *)
Theorem unknown_user_reads_nothing (host : Host) (userId : JsVal)
        (limit : option Z) (w : World) :
  reachable host w ->
  stored userId w = [] ->
  getNotifications userId limit w = [] /\
  getUnreadCount userId w = 0 /\
  markAllAsRead userId w = (false, w).
Proof.
  intros Hreach Hnone.
  pose proof (store_ok_present userId w (proj1 (reachable_ok host w Hreach)) Hnone)
    as Hhas.
  unfold getNotifications, getUnreadCount, markAllAsRead.
  now rewrite Hhas.
Qed.

(** C10.  In a world the process reaches, every stored [id] is a number, and
    [markAsRead] compares with [===]: asked for a string, as the route does
    with its path parameter, it finds nothing, returns [false] and leaves the
    state as it was, also when the string spells the [id] of a stored record. *)
Theorem markAsRead_string_never_matches (host : Host) (userId : JsVal) (w : World) :
  reachable host w ->
  (forall n, In n (stored userId w) -> exists x, own "id" n = JNum x) /\
  (forall s : string,
      markAsRead userId (JStr s) w = (false, w) /\
      mark_read_route userId s w = (404, w)).
Proof.
  intros Hreach.
  pose proof (store_ok_stored userId w (proj1 (reachable_ok host w Hreach)))
    as Hnum.
  rewrite Forall_forall in Hnum. split; [exact Hnum |].
  intros s.
  assert (markAsRead userId (JStr s) w = (false, w)) as E;
    [| split; [exact E | unfold mark_read_route; now rewrite E]].
  unfold markAsRead.
  destruct (negb (map_has userId (notifications w))); [reflexivity |].
  assert (find_index (fun n => strict_equals (own "id" n) (JStr s))
                     (stored userId w) = None) as ->; [| reflexivity].
  apply find_index_None. intros n Hin.
  destruct (Hnum n Hin) as [x ->]. reflexivity.
Qed.

Lemma with_userSockets_same (w : World) :
  with_userSockets (userSockets w) w = w.
Proof. now destruct w. Qed.

Lemma run_reachable (host : Host) (actions : list Action) :
  forall w, reachable host w -> reachable host (run host actions w).
Proof.
  induction actions as [| a rest IH]; intros w H; [exact H |].
  apply (IH (perform host a w)). now apply reachable_step.
Qed.

(** C9.  The registry holds at most one entry per user.  Once [h2] is
    registered for [U] after [h1], and whatever happens next that does not
    register or unregister [U], the socket of [U] is [h2] and a delivery for
    [U] emits to the room [h2] and to no other.  Unregistering a user who has
    no entry changes nothing, and a delivery for such a user emits nothing and
    leaves the state, the store included, as it was. *)
Theorem registry_last_registration_wins (host : Host) (U : JsVal) (w : World) :
  reachable host w ->
  is_primitive U = true ->
  count_key U (userSockets w) <= 1 /\
  (forall (h1 h2 : JsVal) (later : list Action),
      forallb (fun a => negb (rebinds U a)) later = true ->
      let w2 := run host later
                    (registerUserSocket U h2 (registerUserSocket U h1 w)) in
      getUserSocket U w2 = h2 /\
      count_key U (userSockets w2) <= 1 /\
      forall (notification : JsVal) (srv : IoServer),
        sendNotificationToUser U notification (Some srv) w2 =
        push_to srv h2 notification w2) /\
  (map_has U (userSockets w) = false ->
   unregisterUserSocket U w = w /\
   forall (notification : JsVal) (server : option IoServer),
     sendNotificationToUser U notification server w = (Ok tt, w)).
Proof.
  intros Hreach Hprim. split; [| split].
  - apply (proj2 (reachable_ok host w Hreach)).
  - intros h1 h2 later Hlater w2.
    assert (getUserSocket U w2 = h2) as Hsock.
    { subst w2. rewrite run_keeps_socket by exact Hlater.
      unfold getUserSocket, registerUserSocket.
      cbn [userSockets with_userSockets].
      now rewrite map_get_set_same. }
    split; [exact Hsock | split].
    + assert (reachable host w2) as Hreach2.
      { subst w2. apply run_reachable.
        apply (reachable_step host (Register U h2)).
        now apply (reachable_step host (Register U h1)). }
      apply (proj2 (reachable_ok host w2 Hreach2)).
    + intros notification srv. unfold sendNotificationToUser, push_to, io_emit.
      rewrite Hsock. reflexivity.
  - intros Hnone. unfold map_has in Hnone.
    destruct (map_get U (userSockets w)) eqn:E; [discriminate |]. split.
    + unfold unregisterUserSocket. rewrite map_delete_absent by exact E.
      apply with_userSockets_same.
    + intros notification server. unfold sendNotificationToUser, getUserSocket.
      rewrite E. now destruct server.
Qed.

(** ** The bus *)

Lemma listeners_on (channel channel' : string) (l : Listener) (e : EventEmitter) :
  listeners channel' (on channel l e) =
  if String.eqb channel channel'
  then listeners channel' e ++ [l]
  else listeners channel' e.
Proof.
  induction e as [| [c ls] rest IH]; simpl.
  - rewrite String.eqb_sym. now destruct (String.eqb channel' channel).
  - destruct (String.eqb_spec c channel) as [-> | Hc]; simpl.
    + now destruct (String.eqb channel channel').
    + rewrite IH. destruct (String.eqb_spec c channel') as [-> | Hc'];
        [| reflexivity].
      destruct (String.eqb_spec channel channel'); [congruence | reflexivity].
Qed.

Lemma subscribe_all_listeners (subs : list (string * (JsVal -> M unit)))
      (channel : string) :
  forall r,
    subscriber_isConnected r = true ->
    listeners channel (eventEmitter (subscribe_all subs r)) =
      listeners channel (eventEmitter r)
        ++ map parsing_listener (callbacks_on channel subs) /\
    publisher_isConnected (subscribe_all subs r) = publisher_isConnected r.
Proof.
  induction subs as [| [c callback] rest IH]; intros r Hr.
  - simpl. now rewrite app_nil_r.
  - change (subscribe_all ((c, callback) :: rest) r)
      with (subscribe_all rest (subscribeToChannel c callback r)).
    set (r1 := subscribeToChannel c callback r).
    assert (subscriber_isConnected r1 = true) as Hr1
        by (subst r1; unfold subscribeToChannel, subscriber_subscribe;
            now rewrite Hr).
    destruct (IH r1 Hr1) as [IHl IHp].
    rewrite IHl, IHp. subst r1.
    unfold subscribeToChannel, subscriber_subscribe, callbacks_on.
    rewrite Hr.
    cbn [eventEmitter with_eventEmitter publisher_isConnected fst filter].
    rewrite listeners_on. split; [| reflexivity].
    destruct (String.eqb c channel); cbn [map snd]; [| reflexivity].
    now rewrite <- app_assoc.
Qed.

Lemma parsing_listener_run (callback : JsVal -> M unit) (message : Message)
      (w : World) :
  parsing_listener callback message w = (Ok tt, run_callbacks [callback] message w).
Proof.
  unfold parsing_listener, try_catch, bind, lift, ret, JSON_parse.
  destruct message as [v |]; simpl; [| reflexivity].
  now destruct (callback v w) as [[[] | e] w1].
Qed.

Lemma emit_parsing_listeners (callbacks : list (JsVal -> M unit))
      (message : Message) :
  forall w,
    forEach (fun l : Listener => l message) (map parsing_listener callbacks) w =
    (Ok tt, run_callbacks callbacks message w).
Proof.
  induction callbacks as [| callback rest IH]; intros w; simpl.
  - now destruct message.
  - unfold bind. rewrite parsing_listener_run, IH.
    now destruct message.
Qed.

Lemma forEach_first_throws {A : Type} (f : A -> M unit) (l : list A) (w : World)
      (e : JsError) :
  (forall x w0, f x w0 = (Throw e, w0)) ->
  snd (forEach f l w) = w.
Proof.
  intros Hf. destruct l as [| x rest]; [reflexivity |].
  simpl. unfold bind. now rewrite Hf.
Qed.

Lemma forEach_app {A : Type} (f : A -> M unit) (a b : list A) (w : World) :
  forEach f (a ++ b) w =
  match forEach f a w with
  | (Ok _, w1) => forEach f b w1
  | (Throw e, w1) => (Throw e, w1)
  end.
Proof.
  revert w. induction a as [| x rest IH]; intros w; simpl; [reflexivity |].
  unfold bind. destruct (f x w) as [[[] | e] w1]; [apply IH | reflexivity].
Qed.

(** ** The fan-out of a new post *)

Section FanOut.
Variable host : Host.
Variables post author draft : JsVal.
Hypothesis draft_made : createPostNotification host post author = Ok draft.

(** One turn of the loop: the record is stored, then pushed. *)
Lemma notifyFollower_run (follower : User) (w : World) :
  notifyFollower host post author follower w =
  push_to (io host) (getUserSocket (user_id follower) w) draft
          (snd (addNotification host (user_id follower) draft w)).
Proof.
  unfold notifyFollower, bind, lift. rewrite draft_made.
  unfold addNotification_, sendNotificationToUser, push_to, io_emit. reflexivity.
Qed.

(** A delivery that throws ends the loop: the followers after it are not
    reached. *)
Lemma fan_out_stops_at_throw (before after : list User) (f : User) (w w1 : World) :
  forEach (notifyFollower host post author) before w = (Ok tt, w1) ->
  truthy (getUserSocket (user_id f) w1) = true ->
  emit_throws (io host) (getUserSocket (user_id f) w1) = true ->
  forEach (notifyFollower host post author) (before ++ f :: after) w =
  (Throw TransportError, snd (addNotification host (user_id f) draft w1)).
Proof.
  intros Hbefore Hsock Hthrow. rewrite forEach_app, Hbefore. simpl.
  unfold bind. rewrite notifyFollower_run. unfold push_to.
  now rewrite Hsock, Hthrow.
Qed.
End FanOut.

(** C3, as the code has it.  A message published with [publishMessage] reaches
    every callback that [subscribeToChannel] registered for the channel, in
    subscription order, each run from the state the previous one left whether
    it returned or threw, and the publish call itself returns a fulfilled
    promise.  Inside the [newPost] handler the followers are not isolated from
    one another: a delivery that throws ends the loop with that follower's
    record stored, and the followers after it are not reached. *)
Theorem publish_isolates_handlers (host : Host) :
  (forall (subs : list (string * (JsVal -> M unit))) (channel : string)
          (message : JsVal) (w : World),
      publishMessage (subscribe_all subs (connectRedis redis_loaded))
                     channel message w =
      (Ok (Ok tt),
       run_callbacks (callbacks_on channel subs) (JSON_stringify message) w)) /\
  (forall (post author draft : JsVal) (before after : list User) (f : User)
          (w w1 : World),
      createPostNotification host post author = Ok draft ->
      forEach (notifyFollower host post author) before w = (Ok tt, w1) ->
      truthy (getUserSocket (user_id f) w1) = true ->
      emit_throws (io host) (getUserSocket (user_id f) w1) = true ->
      forEach (notifyFollower host post author) (before ++ f :: after) w =
      (Throw TransportError, snd (addNotification host (user_id f) draft w1))).
Proof.
  split.
  - intros subs channel message w.
    destruct (subscribe_all_listeners subs channel (connectRedis redis_loaded)
                                      eq_refl) as [Hl Hp].
    unfold publishMessage, publisher_publish, async, try_catch, bind, await,
      lift, emit.
    rewrite Hp, Hl. cbn [publisher_isConnected connectRedis listeners
                           eventEmitter redis_loaded app].
    destruct (callbacks_on channel subs) as [| callback rest] eqn:E.
    + cbn [map]. destruct (String.eqb channel "error"), (JSON_stringify message);
        reflexivity.
    + rewrite <- E.
      assert (map parsing_listener (callbacks_on channel subs) <> []) as Hne
          by (rewrite E; discriminate).
      destruct (map parsing_listener (callbacks_on channel subs)) eqn:E';
        [contradiction |].
      rewrite <- E'. now rewrite emit_parsing_listeners.
  - intros post author draft before after f w w1 Hdraft.
    now apply fan_out_stops_at_throw.
Qed.

Lemma forallb_filter {A : Type} (q p : A -> bool) (l : list A) :
  forallb q l = true -> forallb q (filter p l) = true.
Proof.
  induction l as [| x rest IH]; simpl; [reflexivity |].
  intros H. apply andb_true_iff in H as [Hx Hrest].
  destruct (p x); simpl; [rewrite Hx |]; auto.
Qed.

Lemma distinct_ids_filter (p : User -> bool) (l : list User) :
  distinct_ids l = true -> distinct_ids (filter p l) = true.
Proof.
  induction l as [| u rest IH]; simpl; [reflexivity |].
  intros H. apply andb_true_iff in H as [Hu Hrest].
  destruct (p u); simpl; [| auto].
  rewrite IH by exact Hrest. now rewrite forallb_filter.
Qed.

Lemma filterR_follows (author authorId : JsVal) (l : list User) :
  get author "id" = Ok authorId ->
  filterR (follows author) l = Ok (filter (is_follower authorId) l).
Proof.
  intros Hid. induction l as [| u rest IH]; simpl; [reflexivity |].
  rewrite IH. unfold follows, is_follower, bindR.
  destruct (user_following u); [rewrite Hid |]; reflexivity.
Qed.

Lemma stored_ext (k : JsVal) (w1 w2 : World) :
  notifications w1 = notifications w2 -> stored k w1 = stored k w2.
Proof. unfold stored. now intros ->. Qed.

Section FanOutHealthy.
Variable host : Host.
Variables post author draft : JsVal.
Hypothesis draft_made : createPostNotification host post author = Ok draft.
Hypothesis healthy : forall room, emit_throws (io host) room = false.

Lemma notifyFollower_healthy (follower : User) (w : World) :
  exists w1,
    notifyFollower host post author follower w = (Ok tt, w1) /\
    notifications w1 =
      notifications (snd (addNotification host (user_id follower) draft w)) /\
    clock w1 = S (clock w).
Proof.
  rewrite (notifyFollower_run host post author draft draft_made).
  unfold push_to. rewrite healthy.
  destruct (truthy (getUserSocket (user_id follower) w)); eexists; now split.
Qed.

Lemma fan_out_reaches_all (followers : list User) :
  forall w,
    primitive_ids followers = true ->
    distinct_ids followers = true ->
    exists w',
      forEach (notifyFollower host post author) followers w = (Ok tt, w') /\
      (forall f, In f followers ->
         exists t,
           stored (user_id f) w' =
           firstn 50 (newNotification (readings host t) draft
                        :: stored (user_id f) w)) /\
      (forall k,
         (forall f, In f followers -> same_value_zero (user_id f) k = false) ->
         stored k w' = stored k w).
Proof.
  induction followers as [| f rest IH]; intros w Hprim Hdist.
  - exists w. split; [reflexivity |]. split; [intros f [] | reflexivity].
  - cbn [primitive_ids forallb distinct_ids] in Hprim, Hdist.
    apply andb_true_iff in Hprim as [Hf Hprim].
    apply andb_true_iff in Hdist as [Hfresh Hdist].
    rewrite forallb_forall in Hfresh.
    destruct (notifyFollower_healthy f w) as (w1 & Hrun & Hstore & _).
    destruct (IH w1 Hprim Hdist) as (w' & Hrest & Hin & Hout).
    assert (forall k, stored k w1 =
                      if same_value_zero (user_id f) k
                      then firstn 50 (newNotification (readings host (clock w)) draft
                                        :: stored (user_id f) w)
                      else stored k w) as Hw1.
    { intros k. rewrite (stored_ext k _ _ Hstore).
      apply stored_addNotification. }
    exists w'. split; [| split].
    + cbn [forEach]. unfold bind. now rewrite Hrun.
    + intros g [<- | Hg].
      * exists (clock w). rewrite Hout.
        -- now rewrite Hw1, same_value_zero_refl.
        -- intros g Hg. rewrite same_value_zero_sym.
           apply negb_true_iff. now apply Hfresh.
      * destruct (Hin g Hg) as [t Ht]. exists t. rewrite Ht, Hw1.
        specialize (Hfresh g Hg). apply negb_true_iff in Hfresh.
        now rewrite Hfresh.
    + intros k Hk. rewrite Hout.
      * rewrite Hw1. now rewrite (Hk f (or_introl eq_refl)).
      * intros g Hg. apply Hk. now right.
Qed.
End FanOutHealthy.

(** C2, as the code has it.  For a [newPost] message whose [post] and
    [author] the handler can read, with an author that is neither [undefined]
    nor [null]: when [createPostNotification] throws (a [post] that is
    [undefined] or [null], a content that is no string, an author's name that
    cannot be printed), the state is left as it was.  When it returns the
    draft, on a server that lets every emit through and a table of users
    with distinct primitive ids: every user whose [following] holds the
    author's id gets exactly one record put in front of their list (cut to
    50), built from the draft, which carries [post.id] as [postId] and
    [post.userId] as [authorId]; the list of every other key is unchanged.
    The handler has no test of its own that leaves the author out: the
    author gets no record when no record of the table with the author's id
    follows the author. *)
Theorem newPost_notifies_each_follower (host : Host) (data post author authorId : JsVal)
        (w : World) :
  get data "post" = Ok post ->
  get data "author" = Ok author ->
  get author "id" = Ok authorId ->
  let w' := snd (newPostHandler host data w) in
  (forall e, createPostNotification host post author = Throw e -> w' = w) /\
  (forall draft,
     createPostNotification host post author = Ok draft ->
     (forall room, emit_throws (io host) room = false) ->
     primitive_ids (users w) = true ->
     distinct_ids (users w) = true ->
     (forall u, In u (users w) -> is_follower authorId u = true ->
        exists t,
          stored (user_id u) w' =
          firstn 50 (newNotification (readings host t) draft
                       :: stored (user_id u) w)) /\
     (forall k,
        (forall u, In u (users w) -> is_follower authorId u = true ->
                   same_value_zero (user_id u) k = false) ->
        stored k w' = stored k w) /\
     ((forall u, In u (users w) -> same_value_zero (user_id u) authorId = true ->
                 is_follower authorId u = false) ->
      stored authorId w' = stored authorId w) /\
     (exists postId postAuthorId name content message,
        get post "id" = Ok postId /\
        get post "userId" = Ok postAuthorId /\
        draft = JObj [("type", JStr "newPost");
                      ("title", JStr "New Post");
                      ("message", JStr message);
                      ("data", JObj [("postId", postId);
                                     ("authorId", postAuthorId);
                                     ("authorName", name);
                                     ("content", content)])]%string)).
Proof.
  intros Hpost Hauthor Hid w'. split.
  { intros e He. subst w'.
    unfold newPostHandler, async, try_catch, bind, lift, gets.
    rewrite Hpost, Hauthor, (filterR_follows author authorId _ Hid).
    pose proof (forEach_first_throws (notifyFollower host post author)
                  (filter (is_follower authorId) (users w)) w e) as H.
    destruct (forEach (notifyFollower host post author)
                      (filter (is_follower authorId) (users w)) w)
      as [[[] | e'] w1]; simpl in *; apply H;
      intros x w0; unfold notifyFollower, bind, lift; now rewrite He. }
  intros draft Hdraft Hhealthy Hprim Hdist.
  set (followers := filter (is_follower authorId) (users w)).
  destruct (fan_out_reaches_all host post author draft Hdraft Hhealthy followers w)
    as (w1 & Hrun & Hin & Hout).
  { now apply forallb_filter. }
  { now apply distinct_ids_filter. }
  assert (w' = w1) as ->.
  { subst w'. unfold newPostHandler, async, try_catch, bind, lift, gets.
    rewrite Hpost, Hauthor, (filterR_follows author authorId _ Hid).
    fold followers. now rewrite Hrun. }
  assert (forall k,
     (forall u, In u (users w) -> is_follower authorId u = true ->
                same_value_zero (user_id u) k = false) ->
     stored k w1 = stored k w) as Hothers.
  { intros k Hk. apply Hout. intros f Hf.
    apply filter_In in Hf as [Hf1 Hf2]. now apply Hk. }
  split; [| split; [exact Hothers | split]].
  - intros u Hu Hfollows. apply Hin. apply filter_In. now split.
  - intros Hself. apply Hothers. intros u Hu Hfollows.
    destruct (same_value_zero (user_id u) authorId) eqn:E; [| reflexivity].
    rewrite (Hself u Hu E) in Hfollows. discriminate.
  - revert Hdraft. unfold createPostNotification, ellipsize, bindR.
    destruct (get author "name") as [name |]; [| discriminate].
    destruct (to_string host name) as [printed |]; [| discriminate].
    destruct (get post "id") as [postId |]; [| discriminate].
    destruct (get post "userId") as [postAuthorId |]; [| discriminate].
    destruct (get post "content") as [text |]; [| discriminate].
    destruct (substring0 text 100) as [head |]; [| discriminate].
    intros [= <-]. repeat eexists.
Qed.

(** ** A like *)

Lemma getUnreadCount_stored (userId : JsVal) (w : World) :
  getUnreadCount userId w = List.length (filter unread (stored userId w)).
Proof.
  unfold getUnreadCount, stored, map_has.
  now destruct (map_get userId (notifications w)).
Qed.

Lemma sendNotificationToUser_store (userId notification : JsVal)
      (server : option IoServer) (w : World) :
  notifications (snd (sendNotificationToUser userId notification server w)) =
  notifications w.
Proof.
  unfold sendNotificationToUser, io_emit.
  destruct server as [srv |]; [| reflexivity].
  destruct (truthy (getUserSocket userId w)); [| reflexivity].
  now destruct (emit_throws srv (getUserSocket userId w)).
Qed.

(** C5, as the code has it.  For a [newLike] message whose fields and whose
    two ids the handler can read: when the liker's id is [===] to the
    author's, the state is left as it was, and so it is when
    [createLikeNotification] throws (a [post] that is [undefined] or [null], a
    liker's name that cannot be printed).  Otherwise, for an author's id that
    is a primitive value, one record of type [newLike], unread, is put in
    front of the author's list, the list is cut to 50, and no other list
    changes.  The author's unread count then is one more than the number of
    unread records among the 49 latest the author had: one more than before
    whenever the author had fewer than 50 records. *)
Theorem newLike_notifies_author_only (host : Host)
        (data post liker postAuthor likerId authorId : JsVal) (w : World) :
  get data "post" = Ok post ->
  get data "liker" = Ok liker ->
  get data "postAuthor" = Ok postAuthor ->
  get liker "id" = Ok likerId ->
  get postAuthor "id" = Ok authorId ->
  let w' := snd (newLikeHandler host data w) in
  (strict_equals likerId authorId = true -> w' = w) /\
  (strict_equals likerId authorId = false ->
   forall draft,
     createLikeNotification host post liker postAuthor = Ok draft ->
     is_primitive authorId = true ->
     let created := newNotification (readings host (clock w)) draft in
     stored authorId w' = firstn 50 (created :: stored authorId w) /\
     own "type" created = JStr "newLike" /\
     unread created = true /\
     (forall other, same_value_zero authorId other = false ->
                    stored other w' = stored other w) /\
     getUnreadCount authorId w' =
       S (List.length (filter unread (firstn 49 (stored authorId w)))) /\
     (List.length (stored authorId w) < 50 ->
      getUnreadCount authorId w' = S (getUnreadCount authorId w))) /\
  (forall e, createLikeNotification host post liker postAuthor = Throw e ->
             w' = w).
Proof.
  intros Hpost Hliker Hauthor Hlid Haid w'. split; [| split].
  - intros Hself. subst w'.
    unfold newLikeHandler, async, try_catch, bind, lift, ret.
    now rewrite Hpost, Hliker, Hauthor, Hlid, Haid, Hself.
  - intros Hother draft Hdraft Hprim created.
    assert (notifications w' =
            notifications (snd (addNotification host authorId draft w))) as Hstore.
    { subst w'. unfold newLikeHandler, async, try_catch, bind, lift.
      rewrite Hpost, Hliker, Hauthor, Hlid, Haid, Hother, Hdraft.
      unfold addNotification_.
      pose proof (sendNotificationToUser_store authorId draft (Some (io host))
                    (snd (addNotification host authorId draft w))) as Hsend.
      destruct (sendNotificationToUser authorId draft (Some (io host))
                  (snd (addNotification host authorId draft w)))
        as [[[] | e] w1]; [| exact Hsend].
      destruct (get postAuthor "name") as [name |]; [| exact Hsend].
      destruct (to_string host name); exact Hsend. }
    assert (forall k, stored k w' =
                      if same_value_zero authorId k
                      then firstn 50 (created :: stored authorId w)
                      else stored k w) as Hw'.
    { intros k. rewrite (stored_ext k _ _ Hstore). apply stored_addNotification. }
    assert (unread created = true) as Hunread
        by (unfold unread; subst created; now rewrite newNotification_read).
    assert (getUnreadCount authorId w' =
            S (List.length (filter unread (firstn 49 (stored authorId w))))) as Hcount.
    { rewrite getUnreadCount_stored, Hw', same_value_zero_refl by exact Hprim.
      change 50 with (S 49). rewrite firstn_cons. cbn [filter].
      now rewrite Hunread. }
    split; [| split; [| split; [exact Hunread | split; [| split]]]].
    + now rewrite Hw', same_value_zero_refl.
    + revert Hdraft. unfold createLikeNotification, bindR.
      destruct (get liker "name") as [name |]; [| discriminate].
      destruct (to_string host name) as [printed |]; [| discriminate].
      destruct (get post "id") as [postId |]; [| discriminate].
      rewrite Hlid. intros [= <-]. reflexivity.
    + intros other Hne. now rewrite Hw', Hne.
    + exact Hcount.
    + intros Hroom. rewrite Hcount, getUnreadCount_stored.
      now rewrite firstn_all2 by lia.
  - intros e He. subst w'.
    unfold newLikeHandler, async, try_catch, bind, lift, ret.
    rewrite Hpost, Hliker, Hauthor, Hlid, Haid, He.
    now destruct (strict_equals likerId authorId).
Qed.

(** ** A comment, and the ids *)

Lemma substring_all (n : nat) (s : string) :
  String.length s <= n -> substring 0 n s = s.
Proof.
  revert n. induction s as [| c rest IH]; intros [| n] H; simpl in *;
    try reflexivity; try lia.
  now rewrite IH by lia.
Qed.

Lemma substring_length (n : nat) (s : string) :
  String.length (substring 0 n s) <= n.
Proof.
  revert n. induction s as [| c rest IH]; intros [| n]; simpl; try lia.
  specialize (IH n). lia.
Qed.

(** The truncation itself is right: a text of at most [n] code units is kept
    whole, a longer one is cut to [n] and followed by three dots. *)
Lemma ellipsize_spec (n : nat) (s : string) :
  exists t,
    ellipsize (JStr s) n = Ok (JStr t) /\
    (String.length s <= n -> t = s) /\
    (n < String.length s ->
     t = (substring 0 n s ++ "...")%string /\ String.length (substring 0 n s) <= n).
Proof.
  unfold ellipsize, substring0, longer_than, bindR.
  destruct (Nat.ltb_spec n (String.length s)) as [Hlong | Hshort];
    eexists; (split; [reflexivity |]); split; intros H; try lia.
  - split; [reflexivity | apply substring_length].
  - rewrite substring_all by exact H.
    clear. induction s as [| c rest IH]; simpl; [reflexivity | now rewrite IH].
Qed.

(** On the bus of [index.js] a message of the channel [newLike] runs the
    [newLike] handler on what the JSON text keeps of it, and likewise for the
    two other channels. *)
Lemma index_redis_dispatch (host : Host) (data : JsVal) (w : World) :
  publishMessage (index_redis host) "newPost" data w =
    (Ok (Ok tt),
     match JSON_stringify data with
     | Some v => snd (newPostHandler host v w)
     | None => w
     end) /\
  publishMessage (index_redis host) "newLike" data w =
    (Ok (Ok tt),
     match JSON_stringify data with
     | Some v => snd (newLikeHandler host v w)
     | None => w
     end) /\
  publishMessage (index_redis host) "newComment" data w =
    (Ok (Ok tt),
     match JSON_stringify data with
     | Some v => snd (newCommentHandler host v w)
     | None => w
     end).
Proof.
  unfold publishMessage, publisher_publish, index_redis, subscribeToChannel,
    subscriber_subscribe, async, try_catch, bind, await, lift, emit,
    parsing_listener, JSON_parse.
  cbn [connectRedis redis_loaded subscriber_isConnected publisher_isConnected
       eventEmitter with_eventEmitter on listeners String.eqb Ascii.eqb
       Bool.eqb app forEach].
  unfold bind, try_catch, lift, ret.
  repeat split; destruct (JSON_stringify data) as [v |]; try reflexivity.
  - now destruct (newPostHandler host v w) as [[r | e] w1].
  - now destruct (newLikeHandler host v w) as [[r | e] w1].
  - now destruct (newCommentHandler host v w) as [[r | e] w1].
Qed.

(** C1.  The [newComment] handler stores and pushes nothing, whatever the
    message: [createCommentNotification] reads [comment], which none of its
    three parameters binds, and the handler catches the [ReferenceError].  For
    the comment of Jane on the post of John, published on the bus of
    [index.js], the commenter is not the author, the call throws, and John's
    list stays empty. *)
Theorem newComment_creates_no_notification :
  (forall (host : Host) (data : JsVal) (w : World),
      snd (newCommentHandler host data w) = w) /\
  strict_equals (uid 2) (uid 1) = false /\
  createCommentNotification sample_host post_3 comment_1 jane =
    Throw (ReferenceError "comment") /\
  publishMessage (index_redis sample_host) "newComment" comment_event
                 (initial users_js) =
    (Ok (Ok tt), initial users_js) /\
  getNotifications (uid 1) None
    (snd (publishMessage (index_redis sample_host) "newComment" comment_event
                         (initial users_js))) = [].
Proof.
  split; [| vm_compute; repeat split].
  intros host data w. now rewrite newCommentHandler_identity.
Qed.

(** C4.  Two calls of [addNotification] in the same millisecond, with the
    two different random draws 0.5 and 0.5 + 2^-20: both sums round to the
    same number, and the two records, both stored, carry the same [id]. *)
Theorem addNotification_ids_collide :
  let first :=
    addNotification same_millisecond_host (uid 1) like_draft (initial users_js) in
  let second :=
    addNotification same_millisecond_host (uid 1) like_draft (snd first) in
  SFeqb (math_random (readings same_millisecond_host 0))
        (math_random (readings same_millisecond_host 1)) = false /\
  own "id" (fst first) = own "id" (fst second) /\
  strict_equals (own "id" (fst first)) (own "id" (fst second)) = true /\
  stored (uid 1) (snd second) = [fst second; fst first].
Proof. vm_compute. repeat split. Qed.

(** ** The theorems at sample inputs *)

Lemma addNotification_prepends_and_bounds_witness :
  stored (uid 1)
         (snd (addNotification sample_host (uid 1) like_draft liked_fifty_times)) =
  firstn 50 (fst (addNotification sample_host (uid 1) like_draft liked_fifty_times)
               :: stored (uid 1) liked_fifty_times).
Proof.
  destruct (addNotification_prepends_and_bounds sample_host (uid 1) eq_refl)
    as [H _].
  destruct (H like_draft liked_fifty_times) as (_ & _ & _ & _ & Hstored & _).
  exact Hstored.
Defined.

Lemma liked_once_reachable : reachable sample_host liked_once.
Proof.
  exact (reachable_step sample_host (NewLike like_event) _
                        (reachable_initial sample_host users_js)).
Defined.

Lemma unknown_user_reads_nothing_witness :
  getNotifications (uid 2) (Some 20%Z) liked_once = [] /\
  getUnreadCount (uid 2) liked_once = 0 /\
  markAllAsRead (uid 2) liked_once = (false, liked_once).
Proof.
  apply (unknown_user_reads_nothing sample_host (uid 2) (Some 20%Z) liked_once).
  - exact liked_once_reachable.
  - vm_compute. reflexivity.
Defined.

Lemma markAsRead_string_never_matches_witness :
  markAsRead (uid 1) (JStr "1700000000000.5") liked_once = (false, liked_once).
Proof.
  exact (proj1 (proj2 (markAsRead_string_never_matches sample_host (uid 1)
                         liked_once liked_once_reachable)
                      "1700000000000.5"%string)).
Defined.

Lemma registry_last_registration_wins_witness :
  getUserSocket (uid 2)
    (run sample_host [NewPost post_event]
         (registerUserSocket (uid 2) (JStr "socket-B")
            (registerUserSocket (uid 2) (JStr "socket-A") liked_once))) =
  JStr "socket-B".
Proof.
  destruct (registry_last_registration_wins sample_host (uid 2) liked_once
              liked_once_reachable eq_refl) as (_ & H & _).
  destruct (H (JStr "socket-A") (JStr "socket-B") [NewPost post_event] eq_refl)
    as [Hsock _].
  exact Hsock.
Defined.

Lemma newPost_notifies_each_follower_witness :
  exists t,
    stored (uid 2) (snd (newPostHandler sample_host post_event (initial users_js))) =
    firstn 50 (newNotification (readings sample_host t) post_draft
                 :: stored (uid 2) (initial users_js)).
Proof.
  destruct (newPost_notifies_each_follower sample_host post_event post_3 john
              (uid 1) (initial users_js) eq_refl eq_refl eq_refl) as [_ Hdraft].
  destruct (Hdraft post_draft eq_refl (fun _ => eq_refl) eq_refl eq_refl)
    as (H & _).
  apply (H jane_record).
  - right. left. reflexivity.
  - reflexivity.
Defined.

Lemma newLike_notifies_author_only_witness :
  getUnreadCount (uid 1) (snd (newLikeHandler sample_host like_event liked_once)) =
  S (getUnreadCount (uid 1) liked_once).
Proof.
  destruct (newLike_notifies_author_only sample_host like_event post_3 jane john
              (uid 2) (uid 1) liked_once eq_refl eq_refl eq_refl eq_refl eq_refl)
    as (_ & H & _).
  destruct (H eq_refl like_draft eq_refl eq_refl) as (_ & _ & _ & _ & _ & Hcount).
  apply Hcount. vm_compute. repeat constructor.
Defined.

Lemma publish_isolates_handlers_witness :
  forEach (notifyFollower flaky_host post_3 john)
          ([] ++ jane_record :: [fay_record]) second_user_connected =
  (Throw TransportError,
   snd (addNotification flaky_host (uid 2) post_draft second_user_connected)).
Proof.
  destruct (publish_isolates_handlers flaky_host) as [_ H].
  exact (H post_3 john post_draft [] [fay_record] jane_record
           second_user_connected second_user_connected
           eq_refl eq_refl eq_refl eq_refl).
Defined.

(** ** Where the claims as written fail *)

(** C2 as written fails: in a table where the author follows themself, the
    author gets the notification of their own post. *)
Lemma newPost_notifies_self_following_author :
  map (is_follower (uid 1)) self_following_users = [true] /\
  stored (uid 1) (initial self_following_users) = [] /\
  map (own "type")
      (stored (uid 1)
         (snd (newPostHandler sample_host post_event
                              (initial self_following_users)))) =
  [JStr "newPost"].
Proof. vm_compute. repeat split. Qed.

(** C3 as written fails: users 2 and 3 both follow the author, the emit to
    the socket of user 2 throws, and user 3, who has no socket that could
    fail, gets no record; the publish call still returns normally. *)
Lemma newPost_fan_out_stops_at_failed_delivery :
  map (is_follower (uid 1)) three_users = [false; true; true] /\
  getUserSocket (uid 3) second_user_connected = JUndefined /\
  fst (publishMessage (index_redis flaky_host) "newPost" post_event
                      second_user_connected) = Ok (Ok tt) /\
  List.length
    (stored (uid 2)
       (snd (publishMessage (index_redis flaky_host) "newPost" post_event
                            second_user_connected))) = 1 /\
  stored (uid 3)
    (snd (publishMessage (index_redis flaky_host) "newPost" post_event
                         second_user_connected)) = [].
Proof. vm_compute. repeat split. Qed.

(** C5 as written fails: the author holds fifty unread records, Jane likes
    the post once more, and the author's unread count is still fifty. *)
Lemma newLike_at_capacity_keeps_unread_count :
  strict_equals (uid 2) (uid 1) = false /\
  getUnreadCount (uid 1) liked_fifty_times = 50 /\
  getUnreadCount (uid 1)
    (snd (newLikeHandler sample_host like_event liked_fifty_times)) = 50.
Proof. vm_compute. repeat split. Qed.

(** C6 as written fails: a draft that carries an [id] keeps it, and the
    record stored has the draft's [id], not the generated one. *)
Lemma addNotification_keeps_the_id_of_the_draft :
  let r := readings sample_host 0 in
  let created :=
    fst (addNotification sample_host (uid 1) draft_with_id (initial users_js)) in
  own "id" (enumerable draft_with_id) = uid 7 /\
  own "id" created = uid 7 /\
  strict_equals (own "id" created)
                (JNum (num_add (date_now r) (math_random r))) = false /\
  stored (uid 1)
    (snd (addNotification sample_host (uid 1) draft_with_id (initial users_js))) =
  [created].
Proof. vm_compute. repeat split. Qed.

(** * Further properties of the code *)

(** ** The store: reading everything, reading one *)

Lemma unread_set_read (n : Props) : unread (set_read n) = false.
Proof. unfold unread, set_read. now rewrite own_set_prop_same. Qed.

Lemma filter_unread_set_read (l : list Props) :
  filter unread (map set_read l) = [].
Proof.
  induction l as [| n rest IH]; simpl; [reflexivity |].
  now rewrite unread_set_read.
Qed.

(** X1.  [markAllAsRead] answers whether the user has a list; afterwards the
    list is the old one with [read] set on every record, in the same order and
    with the same ids, the unread count is 0, no other user's list has
    changed, and a second call changes nothing more. *)
Theorem markAllAsRead_reads_everything (userId : JsVal) (w : World) :
  let done := fst (markAllAsRead userId w) in
  let w' := snd (markAllAsRead userId w) in
  done = map_has userId (notifications w) /\
  stored userId w' = map set_read (stored userId w) /\
  map (own "id") (stored userId w') = map (own "id") (stored userId w) /\
  getUnreadCount userId w' = 0 /\
  (forall other, same_value_zero userId other = false ->
                 stored other w' = stored other w) /\
  markAllAsRead userId w' = (done, w').
Proof.
  cbv zeta.
  destruct (map_has userId (notifications w)) eqn:Hhas.
  - set (w1 := with_notifications
                 (map_set userId (map set_read (stored userId w))
                          (notifications w)) w).
    assert (markAllAsRead userId w = (true, w1)) as E
        by (unfold markAllAsRead; now rewrite Hhas).
    rewrite E. cbn [fst snd].
    assert (map_has userId (notifications w1) = true) as Hhas1
        by (unfold map_has; subst w1; cbn [notifications with_notifications];
            now rewrite map_get_set_present).
    assert (stored userId w1 = map set_read (stored userId w)) as Hstored
        by (unfold stored at 1; subst w1; cbn [notifications with_notifications];
            now rewrite map_get_set_present).
    repeat split.
    + exact Hstored.
    + rewrite Hstored, map_map. apply map_ext. intros n. apply own_id_set_read.
    + now rewrite getUnreadCount_stored, Hstored, filter_unread_set_read.
    + intros other Hother. unfold stored. subst w1.
      cbn [notifications with_notifications]. now rewrite map_get_set, Hother.
    + unfold markAllAsRead. rewrite Hhas1. cbn [negb]. rewrite Hstored.
      rewrite map_map.
      rewrite (map_ext (fun x => set_read (set_read x)) set_read)
        by (intros x; apply set_prop_twice).
      subst w1. cbn [notifications with_notifications].
      now rewrite map_set_set.
  - assert (markAllAsRead userId w = (false, w)) as E
        by (unfold markAllAsRead; now rewrite Hhas).
    rewrite E. cbn [fst snd].
    pose proof (stored_absent _ _ Hhas) as Hnil.
    repeat split; try reflexivity; try exact E; try (now rewrite Hnil).
    now rewrite getUnreadCount_stored, Hnil.
Qed.

(** How [markAsRead] ends: nothing found and nothing changed, or the first
    record with the requested id marked in place. *)
Lemma markAsRead_cases (userId notificationId : JsVal) (w : World) :
  (markAsRead userId notificationId w = (false, w) /\
   forall n, In n (stored userId w) ->
             strict_equals (own "id" n) notificationId = false) \/
  (exists before n after,
      stored userId w = before ++ n :: after /\
      (forall n', In n' before ->
                  strict_equals (own "id" n') notificationId = false) /\
      strict_equals (own "id" n) notificationId = true /\
      fst (markAsRead userId notificationId w) = true /\
      stored userId (snd (markAsRead userId notificationId w)) =
        before ++ set_read n :: after /\
      forall other, same_value_zero userId other = false ->
                    stored other (snd (markAsRead userId notificationId w)) =
                    stored other w).
Proof.
  unfold markAsRead.
  destruct (map_has userId (notifications w)) eqn:Hhas; cbn [negb].
  2:{ left. split; [reflexivity |]. rewrite (stored_absent _ _ Hhas).
      intros n []. }
  destruct (find_index _ (stored userId w)) as [i |] eqn:Hfind.
  - right.
    destruct (find_index_Some _ _ _ Hfind)
      as (before & n & after & Hl & Hlen & Hn & Hbefore).
    exists before, n, after. cbn [fst snd]. repeat split; auto.
    + unfold stored at 1. cbn [notifications with_notifications].
      rewrite map_get_set_present by exact Hhas.
      rewrite Hl, <- Hlen. apply update_at_split.
    + intros other Hother. unfold stored.
      cbn [notifications with_notifications]. now rewrite map_get_set, Hother.
  - left. split; [reflexivity |]. now apply find_index_None.
Qed.

(** X2.  [markAsRead] lowers the user's unread count by one when the record
    it finds was unread and leaves it alone otherwise (nothing found, or the
    record already read); the count of no other user changes and it never
    grows. *)
Theorem markAsRead_unread_count (userId notificationId : JsVal) (w : World) :
  let found := fst (markAsRead userId notificationId w) in
  let w' := snd (markAsRead userId notificationId w) in
  (found = false -> getUnreadCount userId w' = getUnreadCount userId w) /\
  (found = true ->
   exists n, In n (stored userId w) /\
             strict_equals (own "id" n) notificationId = true /\
             getUnreadCount userId w =
               (if unread n then 1 else 0) + getUnreadCount userId w') /\
  getUnreadCount userId w' <= getUnreadCount userId w /\
  (forall other, same_value_zero userId other = false ->
                 getUnreadCount other w' = getUnreadCount other w).
Proof.
  cbv zeta.
  destruct (markAsRead_cases userId notificationId w)
    as [[E Hnone] | (before & n & after & Hl & Hb & Hn & Hfound & Hl' & Hother)].
  - rewrite E. cbn [fst snd]. repeat split; auto. discriminate.
  - rewrite Hfound.
    assert (getUnreadCount userId w =
            (if unread n then 1 else 0)
            + getUnreadCount userId (snd (markAsRead userId notificationId w)))
      as Hcount.
    { rewrite !getUnreadCount_stored, Hl, Hl', !filter_app, !length_app.
      cbn [filter]. rewrite unread_set_read.
      destruct (unread n); cbn [List.length]; lia. }
    repeat split.
    + discriminate.
    + intros _. exists n. repeat split; auto. rewrite Hl. apply in_elt.
    + destruct (unread n); lia.
    + intros other Hne. rewrite !getUnreadCount_stored. now rewrite Hother.
Qed.

(** ** The record and the draft *)

(** X3.  The record [addNotification] returns carries every property of a
    draft object (with distinct keys) except [timestamp] and [read], the
    draft's own [id] included: a draft that has an [id] keeps it, and the
    generated one is lost.  A key the draft lacks, other than the three the
    function writes, is absent from the record. *)
Theorem addNotification_copies_draft (host : Host) (userId : JsVal)
        (props : Props) (w : World) (k : string) :
  NoDup (map fst props) ->
  k <> "timestamp"%string ->
  k <> "read"%string ->
  let created := fst (addNotification host userId (JObj props) w) in
  (has_own k props = true -> own k created = own k props) /\
  (has_own k props = false -> k <> "id"%string -> own k created = JUndefined).
Proof.
  intros Hnd Hts Hread created. subst created.
  unfold addNotification, newNotification. cbn [fst enumerable].
  rewrite !own_set_prop_other by assumption. split.
  - intros Hk. now apply own_assign_present.
  - intros Hk Hid. rewrite own_assign_absent by exact Hk. simpl.
    destruct (String.eqb_spec k "id"); [contradiction | reflexivity].
Qed.

Lemma get_nullish (v : JsVal) (k : string) :
  nullish v = true -> get v k = Throw TypeError.
Proof. now destruct v. Qed.

Lemma get_not_nullish (v : JsVal) (k : string) :
  nullish v = false -> exists x, get v k = Ok x.
Proof. destruct v; try discriminate; intros _; eexists; reflexivity. Qed.

Lemma string_length_append (a b : string) :
  String.length (a ++ b) = String.length a + String.length b.
Proof. induction a as [| c rest IH]; simpl; [reflexivity | now rewrite IH]. Qed.

(** ** Printing a value *)

Section JsValInduction.
Variable P : JsVal -> Prop.
Hypothesis P_undefined : P JUndefined.
Hypothesis P_null : P JNull.
Hypothesis P_bool : forall b, P (JBool b).
Hypothesis P_num : forall x, P (JNum x).
Hypothesis P_str : forall s, P (JStr s).
Hypothesis P_arr : forall items, Forall P items -> P (JArr items).
Hypothesis P_obj : forall props, Forall (fun kv => P (snd kv)) props -> P (JObj props).

(** Induction on a value, with the hypothesis for every element of an array
    and every property of an object. *)
Fixpoint JsVal_nested_ind (v : JsVal) : P v :=
  match v with
  | JUndefined => P_undefined
  | JNull => P_null
  | JBool b => P_bool b
  | JNum x => P_num x
  | JStr s => P_str s
  | JArr items =>
      P_arr items
        ((fix all (l : list JsVal) : Forall P l :=
            match l with
            | [] => Forall_nil P
            | x :: rest => Forall_cons x (JsVal_nested_ind x) (all rest)
            end) items)
  | JObj props =>
      P_obj props
        ((fix all (ps : list (string * JsVal))
            : Forall (fun kv => P (snd kv)) ps :=
            match ps with
            | [] => Forall_nil _
            | kv :: rest =>
                Forall_cons kv (JsVal_nested_ind (snd kv)) (all rest)
            end) props)
  end.
End JsValInduction.

(** [to_string] returns for the values that can be printed and throws a
    [TypeError] for the others. *)
Lemma to_string_printable (host : Host) (v : JsVal) :
  (printable v = true -> exists s, to_string host v = Ok s) /\
  (printable v = false -> to_string host v = Throw TypeError).
Proof.
  induction v as [| | b | x | s | items IH | props IH] using JsVal_nested_ind;
    try (split; [intros _; eexists; reflexivity | discriminate]).
  - split; [intros _; destruct b; eexists; reflexivity | discriminate].
  - cbn [to_string printable].
    induction IH as [| x rest Hx Hrest IHrest].
    + split; [intros _; eexists; reflexivity | discriminate].
    + destruct Hx as [Hx1 Hx0], IHrest as [IH1 IH0].
      assert ((printable x = true ->
               exists s, match x with
                         | JUndefined | JNull => Ok ""%string
                         | _ => to_string host x
                         end = Ok s) /\
              (printable x = false ->
               match x with
               | JUndefined | JNull => Ok ""%string
               | _ => to_string host x
               end = Throw TypeError)) as [Hp1 Hp0].
      { destruct x; try (split; [intros _; eexists; reflexivity | discriminate]);
          split; auto. }
      destruct (printable x) eqn:Ex; cbn [andb].
      * destruct (Hp1 eq_refl) as [piece ->].
        destruct rest as [| y rest'];
          [split; [intros _; eexists; reflexivity | discriminate] |].
        split.
        -- intros H. destruct (IH1 H) as [tail ->]. eexists. reflexivity.
        -- intros H. now rewrite (IH0 H).
      * rewrite (Hp0 eq_refl). split; [discriminate | reflexivity].
  - cbn [to_string printable]. destruct (has_own "toString" props); simpl;
      split; try discriminate; eauto.
Qed.

(** X4.  [createPostNotification] returns a draft exactly when [author] and
    [post] are neither [undefined] nor [null], [author.name] can be printed
    (it is no object with an own [toString] and no array holding one) and
    [post.content] is a string; in every other case it throws a [TypeError].
    The draft names the author in its message and carries [post.id],
    [post.userId] and the content, kept whole up to 100 code units and
    otherwise cut to 100 and followed by three dots, so never longer than
    103. *)
Theorem createPostNotification_outcome (host : Host) (post author : JsVal) :
  match createPostNotification host post author with
  | Ok draft =>
      exists name printed postId userId s t,
        get author "name" = Ok name /\
        printable name = true /\
        to_string host name = Ok printed /\
        get post "id" = Ok postId /\
        get post "userId" = Ok userId /\
        get post "content" = Ok (JStr s) /\
        draft = JObj [("type", JStr "newPost");
                      ("title", JStr "New Post");
                      ("message",
                       JStr (printed ++ " just posted something new!"));
                      ("data", JObj [("postId", postId);
                                     ("authorId", userId);
                                     ("authorName", name);
                                     ("content", JStr t)])]%string /\
        String.length t <= 103 /\
        (String.length s <= 100 -> t = s) /\
        (100 < String.length s -> t = (substring 0 100 s ++ "...")%string)
  | Throw e =>
      e = TypeError /\
      (nullish author = true \/
       (exists name, get author "name" = Ok name /\ printable name = false) \/
       nullish post = true \/
       forall s, get post "content" <> Ok (JStr s))
  end.
Proof.
  unfold createPostNotification.
  destruct (nullish author) eqn:Ha.
  { rewrite (get_nullish author "name" Ha). simpl. auto. }
  destruct (get_not_nullish author "name" Ha) as [name Hname].
  rewrite Hname. cbn [bindR].
  destruct (printable name) eqn:Hprint.
  2:{ rewrite (proj2 (to_string_printable host name) Hprint). cbn [bindR].
      split; [reflexivity |]. right. left. now exists name. }
  destruct (proj1 (to_string_printable host name) Hprint) as [printed Hprinted].
  rewrite Hprinted. cbn [bindR].
  destruct (nullish post) eqn:Hp.
  { rewrite (get_nullish post "id" Hp). simpl. auto. }
  destruct (get_not_nullish post "id" Hp) as [postId Hid].
  destruct (get_not_nullish post "userId" Hp) as [userId Huid].
  destruct (get_not_nullish post "content" Hp) as [c Hc].
  rewrite Hid, Huid, Hc. cbn [bindR].
  destruct c as [| | b | x | s | items | props];
    try (simpl; split; [reflexivity |]; right; right; right; intros s; congruence).
  destruct (ellipsize_spec 100 s) as (t & Ht & Hshort & Hlong).
  rewrite Ht. cbn [bindR].
  exists name, printed, postId, userId, s, t. repeat split; auto.
  - destruct (Nat.le_gt_cases (String.length s) 100) as [H | H].
    + rewrite (Hshort H). lia.
    + destruct (Hlong H) as [-> Hhead].
      rewrite string_length_append. simpl. lia.
  - intros H. now destruct (Hlong H).
Qed.

(** ** What the handlers push *)

Lemma sendNotificationToUser_is_push (userId notification : JsVal)
      (srv : IoServer) (w : World) :
  sendNotificationToUser userId notification (Some srv) w =
  push_to srv (getUserSocket userId w) notification w.
Proof. reflexivity. Qed.

Lemma push_to_emitted (srv : IoServer) (h n : JsVal) (w : World) :
  emitted (snd (push_to srv h n w)) =
    emitted w ++ (if truthy h && negb (emit_throws srv h)
                  then [push_event h n] else []) /\
  notifications (snd (push_to srv h n w)) = notifications w /\
  userSockets (snd (push_to srv h n w)) = userSockets w /\
  users (snd (push_to srv h n w)) = users w /\
  clock (snd (push_to srv h n w)) = clock w.
Proof.
  unfold push_to, push_event.
  destruct (truthy h); simpl; [| now rewrite app_nil_r].
  destruct (emit_throws srv h); simpl; [now rewrite app_nil_r | auto].
Qed.

(** X5.  For a message the [newLike] handler can read, a like by someone
    else, and a draft that [createLikeNotification] returns (the [post] is
    neither [undefined] nor [null] and the liker's name can be printed), the
    handler stores the record first and pushes second: the author's list gets
    the record whether or not the push goes through, and the log of emits
    grows by one event, to the room of the author's socket, exactly when that
    socket is truthy and the server does not throw.  The payload pushed is
    the draft, which has no [id], [timestamp] or [read]: it is not the record
    that was stored. *)
Theorem newLike_stores_then_pushes_draft (host : Host)
        (data post liker postAuthor likerId authorId draft : JsVal) (w : World) :
  get data "post" = Ok post ->
  get data "liker" = Ok liker ->
  get data "postAuthor" = Ok postAuthor ->
  get liker "id" = Ok likerId ->
  get postAuthor "id" = Ok authorId ->
  strict_equals likerId authorId = false ->
  createLikeNotification host post liker postAuthor = Ok draft ->
  let h := getUserSocket authorId w in
  let w' := snd (newLikeHandler host data w) in
  notifications w' =
    notifications (snd (addNotification host authorId draft w)) /\
  emitted w' =
    emitted w ++ (if truthy h && negb (emit_throws (io host) h)
                  then [push_event h draft] else []) /\
  own "id" (enumerable draft) = JUndefined /\
  own "timestamp" (enumerable draft) = JUndefined /\
  own "read" (enumerable draft) = JUndefined /\
  userSockets w' = userSockets w /\
  clock w' = S (clock w).
Proof.
  intros Hpost Hliker Hauthor Hlid Haid Hother Hdraft h w'.
  assert (w' = snd (push_to (io host) h draft
                            (snd (addNotification host authorId draft w)))) as ->.
  { subst w' h. unfold newLikeHandler, async, try_catch, bind, lift.
    rewrite Hpost, Hliker, Hauthor, Hlid, Haid, Hother, Hdraft.
    unfold addNotification_. rewrite sendNotificationToUser_is_push.
    change (getUserSocket authorId (snd (addNotification host authorId draft w)))
      with (getUserSocket authorId w).
    destruct (push_to (io host) (getUserSocket authorId w) draft
                      (snd (addNotification host authorId draft w)))
      as [[[] | e] w1]; [| reflexivity].
    destruct (get postAuthor "name") as [name |]; [| reflexivity].
    now destruct (to_string host name). }
  destruct (push_to_emitted (io host) h draft
              (snd (addNotification host authorId draft w)))
    as (He & Hn & Hs & _ & Hc).
  rewrite He, Hn, Hs, Hc.
  revert Hdraft. unfold createLikeNotification, bindR.
  destruct (get liker "name") as [name |]; [| discriminate].
  destruct (to_string host name) as [printed |]; [| discriminate].
  destruct (get post "id") as [postId |]; [| discriminate].
  rewrite Hlid. intros [= <-]. repeat split.
Qed.

Section FanOutEmits.
Variable host : Host.
Variables post author draft : JsVal.
Hypothesis draft_made : createPostNotification host post author = Ok draft.
Hypothesis healthy : forall room, emit_throws (io host) room = false.

Lemma fan_out_emits (followers : list User) :
  forall w,
    exists w',
      forEach (notifyFollower host post author) followers w = (Ok tt, w') /\
      emitted w' =
        emitted w ++
        flat_map (fun f => if truthy (getUserSocket (user_id f) w)
                           then [push_event (getUserSocket (user_id f) w) draft]
                           else []) followers /\
      userSockets w' = userSockets w /\
      clock w' = clock w + List.length followers.
Proof.
  induction followers as [| f rest IH]; intros w.
  - exists w. simpl. now rewrite app_nil_r, Nat.add_0_r.
  - pose proof (notifyFollower_run host post author draft draft_made f w) as Hrun.
    destruct (push_to_emitted (io host) (getUserSocket (user_id f) w) draft
                (snd (addNotification host (user_id f) draft w)))
      as (He & _ & Hs & _ & Hc).
    rewrite healthy, andb_true_r in He.
    assert (exists w1, notifyFollower host post author f w = (Ok tt, w1) /\
                       emitted w1 =
                         emitted w ++
                         (if truthy (getUserSocket (user_id f) w)
                          then [push_event (getUserSocket (user_id f) w) draft]
                          else []) /\
                       userSockets w1 = userSockets w /\
                       clock w1 = S (clock w)) as (w1 & Hw1 & He1 & Hs1 & Hc1).
    { rewrite Hrun. unfold push_to in *. rewrite healthy in *.
      destruct (truthy (getUserSocket (user_id f) w)); eexists; split;
        try reflexivity; auto. }
    destruct (IH w1) as (w' & Hrest & He' & Hs' & Hc').
    exists w'. split; [| split; [| split]].
    + cbn [forEach]. unfold bind. now rewrite Hw1.
    + rewrite He', He1, <- app_assoc. f_equal. cbn [flat_map]. f_equal.
      apply flat_map_ext. intros g. unfold getUserSocket. now rewrite Hs1.
    + congruence.
    + rewrite Hc', Hc1. simpl. lia.
Qed.
End FanOutEmits.

(** X6.  For a [newPost] message the handler can read, a draft that
    [createPostNotification] returns (the [post] is neither [undefined] nor
    [null], its content is a string and the author's name can be printed) and
    a server that lets every emit through, the handler pushes one event per
    follower whose socket is truthy, in the order of the table, each to that
    follower's socket and each with the same draft; followers without a
    socket get no push.  It reads the clock once per follower and leaves the
    registry as it was. *)
Theorem newPost_pushes_to_connected_followers (host : Host)
        (data post author authorId draft : JsVal) (w : World) :
  get data "post" = Ok post ->
  get data "author" = Ok author ->
  get author "id" = Ok authorId ->
  createPostNotification host post author = Ok draft ->
  (forall room, emit_throws (io host) room = false) ->
  let followers := filter (is_follower authorId) (users w) in
  let w' := snd (newPostHandler host data w) in
  emitted w' =
    emitted w ++
    flat_map (fun f => if truthy (getUserSocket (user_id f) w)
                       then [push_event (getUserSocket (user_id f) w) draft]
                       else []) followers /\
  userSockets w' = userSockets w /\
  clock w' = clock w + List.length followers.
Proof.
  intros Hpost Hauthor Hid Hdraft Hhealthy followers w'.
  destruct (fan_out_emits host post author draft Hdraft Hhealthy followers w)
    as (w1 & Hrun & He & Hs & Hc).
  assert (w' = w1) as ->; [| auto].
  subst w'. unfold newPostHandler, async, try_catch, bind, lift, gets.
  rewrite Hpost, Hauthor, (filterR_follows author authorId _ Hid).
  fold followers. now rewrite Hrun.
Qed.

(** ** What every reachable store looks like *)

Lemma well_formed_set_read (n : Props) :
  well_formed_record n -> well_formed_record (set_read n).
Proof.
  intros (x & iso & b & Hid & Hts & Hread). exists x, iso, true.
  unfold set_read. repeat split.
  - now rewrite own_set_prop_other by discriminate.
  - now rewrite own_set_prop_other by discriminate.
  - apply own_set_prop_same.
Qed.

Lemma well_formed_newNotification (r : Reading) (draft : JsVal) :
  has_own "id" (enumerable draft) = false ->
  well_formed_record (newNotification r draft).
Proof.
  intros H. exists (num_add (date_now r) (math_random r)), (date_iso r), false.
  repeat split.
  - now apply newNotification_id.
  - apply newNotification_timestamp.
  - apply newNotification_read.
Qed.

Lemma bounded_stored (userId : JsVal) (w : World) :
  bounded_store w ->
  List.length (stored userId w) <= 50 /\
  Forall well_formed_record (stored userId w).
Proof.
  intros [H _]. unfold stored.
  destruct (map_get userId (notifications w)) as [l |] eqn:E.
  - exact (Forall_map_get
             (fun l => List.length l <= 50 /\ Forall well_formed_record l)
             _ _ _ H E).
  - split; [simpl; lia | constructor].
Qed.

Lemma count_key_map_set_one {V : Type} (k k' : JsVal) (v : V) (m : JsMap V) :
  (forall j, count_key j m <= 1) -> count_key k' (map_set k v m) <= 1.
Proof.
  intros H. destruct (same_value_zero k k') eqn:Hk.
  - rewrite <- (count_key_same _ _ _ Hk). apply count_key_map_set_self, H.
  - etransitivity; [now apply count_key_map_set_le | apply H].
Qed.

Lemma bounded_map_set (userId : JsVal) (l : list Props) (w : World) :
  bounded_store w ->
  List.length l <= 50 -> Forall well_formed_record l ->
  bounded_store (with_notifications (map_set userId l (notifications w)) w).
Proof.
  intros [Hl Hk] Hlen Hwf. split; cbn [notifications with_notifications].
  - now apply (Forall_map_set
                 (fun l => List.length l <= 50 /\ Forall well_formed_record l)).
  - intros k. now apply count_key_map_set_one.
Qed.

Section Bounded.
Variable host : Host.

Lemma addNotification_bounded (userId draft : JsVal) :
  has_own "id" (enumerable draft) = false ->
  preserves bounded_store (addNotification_ host userId draft).
Proof.
  intros Hid w Hw. unfold addNotification_, addNotification. cbn [snd].
  rewrite splice_is_firstn.
  destruct (bounded_stored userId w Hw) as [_ Hwf].
  destruct (bounded_map_set userId
              (firstn 50 (newNotification (readings host (clock w)) draft
                            :: stored userId w)) w Hw) as [H1 H2].
  - apply firstn_le_length.
  - apply Forall_take. constructor; [now apply well_formed_newNotification | auto].
  - split; [exact H1 | exact H2].
Qed.

Lemma sendNotificationToUser_bounded (userId notification : JsVal)
      (server : option IoServer) :
  preserves bounded_store (sendNotificationToUser userId notification server).
Proof.
  intros w H. unfold bounded_store.
  now rewrite sendNotificationToUser_store.
Qed.

Lemma markAsRead_bounded (userId notificationId : JsVal) (w : World) :
  bounded_store w -> bounded_store (snd (markAsRead userId notificationId w)).
Proof.
  intros Hw. unfold markAsRead.
  destruct (negb (map_has userId (notifications w))); [exact Hw |].
  destruct (find_index _ (stored userId w)) as [i |] eqn:Hfind; [| exact Hw].
  cbn [snd]. destruct (bounded_stored userId w Hw) as [Hlen Hwf].
  destruct (find_index_Some _ _ _ Hfind) as (before & n & after & Hl & Hi & _).
  rewrite Hl in *. rewrite <- Hi, update_at_split.
  apply bounded_map_set; [exact Hw | |].
  - rewrite length_app in *. exact Hlen.
  - apply Forall_app in Hwf as [Hb Hn]. apply Forall_app. split; [exact Hb |].
    inversion Hn; subst. constructor; [now apply well_formed_set_read | auto].
Qed.

Lemma markAllAsRead_bounded (userId : JsVal) (w : World) :
  bounded_store w -> bounded_store (snd (markAllAsRead userId w)).
Proof.
  intros Hw. unfold markAllAsRead.
  destruct (negb (map_has userId (notifications w))); [exact Hw |].
  cbn [snd]. destruct (bounded_stored userId w Hw) as [Hlen Hwf].
  apply bounded_map_set; [exact Hw | now rewrite length_map |].
  apply Forall_map. eapply Forall_impl; [| exact Hwf].
  intros n. apply well_formed_set_read.
Qed.

Lemma perform_bounded (a : Action) (w : World) :
  bounded_store w -> bounded_store (perform host a w).
Proof.
  destruct a; simpl.
  - apply newPostHandler_preserves;
      [apply addNotification_bounded | apply sendNotificationToUser_bounded].
  - apply newLikeHandler_preserves;
      [apply addNotification_bounded | apply sendNotificationToUser_bounded].
  - now rewrite newCommentHandler_identity.
  - apply markAsRead_bounded.
  - apply markAllAsRead_bounded.
  - auto.
  - auto.
  - auto.
Qed.

Lemma reachable_bounded (w : World) : reachable host w -> bounded_store w.
Proof.
  induction 1 as [table | a w Hreach IH].
  - split; [apply Forall_nil | intros k; cbv; repeat constructor].
  - now apply perform_bounded.
Qed.
End Bounded.

(** X7.  In every world the process reaches, whatever the events were: a
    user's list holds at most 50 records, each with a number for [id], a
    string for [timestamp] and a boolean for [read]; the map has at most one
    entry per user; the unread count is at most the length of the list; and
    [getNotifications] returns at most 50 records however large the limit. *)
Theorem reachable_store_is_bounded (host : Host) (w : World) (userId : JsVal) :
  reachable host w ->
  List.length (stored userId w) <= 50 /\
  Forall well_formed_record (stored userId w) /\
  count_key userId (notifications w) <= 1 /\
  getUnreadCount userId w <= List.length (stored userId w) /\
  (forall limit, List.length (getNotifications userId limit w) <= 50).
Proof.
  intros Hreach. pose proof (reachable_bounded host w Hreach) as Hb.
  destruct (bounded_stored userId w Hb) as [Hlen Hwf].
  repeat split; auto.
  - apply Hb.
  - rewrite getUnreadCount_stored. apply filter_length_le.
  - intros limit. unfold getNotifications, slice0.
    destruct (negb (map_has userId (notifications w))); [simpl; lia |].
    destruct (_ <? 0)%Z; rewrite length_firstn; lia.
Qed.

(** ** What no event undoes *)

Lemma grows_from_refl (w : World) : grows_from w w.
Proof.
  split; [exists []; now rewrite app_nil_r | split; [lia | intros u; lia]].
Qed.

Lemma grows_from_trans (w0 w1 w2 : World) :
  grows_from w0 w1 -> grows_from w1 w2 -> grows_from w0 w2.
Proof.
  intros ([p1 H1] & Hc1 & Hl1) ([p2 H2] & Hc2 & Hl2). split; [| split].
  - exists (p1 ++ p2). now rewrite H2, H1, app_assoc.
  - lia.
  - intros u. specialize (Hl1 u). specialize (Hl2 u). lia.
Qed.

(** A step that leaves the log and the clock alone and the length of every
    list as it was. *)
Lemma grows_from_same (w w' : World) :
  emitted w' = emitted w -> clock w' = clock w ->
  (forall u, List.length (stored u w') = List.length (stored u w)) ->
  grows_from w w'.
Proof.
  intros He Hc Hl. split; [| split].
  - exists []. now rewrite He, app_nil_r.
  - lia.
  - intros u. now rewrite Hl.
Qed.

Section Grows.
Variable host : Host.

Lemma addNotification_grows (userId draft : JsVal) (w : World) :
  bounded_store w ->
  grows_from w (snd (addNotification host userId draft w)).
Proof.
  intros Hw. split; [| split].
  - exists []. unfold addNotification. simpl. now rewrite app_nil_r.
  - unfold addNotification. simpl. lia.
  - intros u. rewrite stored_addNotification.
    destruct (same_value_zero userId u) eqn:Hu; [| lia].
    assert (stored u w = stored userId w) as ->
        by (unfold stored; now rewrite (map_get_same_key _ _ _ Hu)).
    destruct (bounded_stored userId w Hw) as [Hlen _].
    rewrite length_firstn. cbn [List.length]. lia.
Qed.

Lemma sendNotificationToUser_grows (userId notification : JsVal)
      (server : option IoServer) (w : World) :
  grows_from w (snd (sendNotificationToUser userId notification server w)).
Proof.
  destruct server as [srv |]; [| apply grows_from_refl].
  rewrite sendNotificationToUser_is_push.
  destruct (push_to_emitted srv (getUserSocket userId w) notification w)
    as (He & Hn & _ & _ & Hc).
  split; [| split].
  - eexists. exact He.
  - lia.
  - intros u. now rewrite (stored_ext u _ _ Hn).
Qed.

Lemma markAsRead_grows (userId notificationId : JsVal) (w : World) :
  grows_from w (snd (markAsRead userId notificationId w)).
Proof.
  apply grows_from_same.
  - unfold markAsRead.
    destruct (negb (map_has userId (notifications w))); [reflexivity |].
    now destruct (find_index _ (stored userId w)).
  - unfold markAsRead.
    destruct (negb (map_has userId (notifications w))); [reflexivity |].
    now destruct (find_index _ (stored userId w)).
  - intros u.
    destruct (markAsRead_cases userId notificationId w)
      as [[E _] | (before & n & after & Hl & _ & _ & _ & Hl' & Hother)].
    + now rewrite E.
    + destruct (same_value_zero userId u) eqn:Hu; [| now rewrite Hother].
      assert (forall w0, stored u w0 = stored userId w0) as Hsame
          by (intros w0; unfold stored; now rewrite (map_get_same_key _ _ _ Hu)).
      rewrite !Hsame, Hl', Hl, !length_app. reflexivity.
Qed.

Lemma markAllAsRead_grows (userId : JsVal) (w : World) :
  grows_from w (snd (markAllAsRead userId w)).
Proof.
  apply grows_from_same.
  - unfold markAllAsRead.
    now destruct (negb (map_has userId (notifications w))).
  - unfold markAllAsRead.
    now destruct (negb (map_has userId (notifications w))).
  - intros u. unfold markAllAsRead.
    destruct (map_has userId (notifications w)) eqn:Hhas; cbn [negb snd];
      [| reflexivity].
    unfold stored at 1. cbn [notifications with_notifications].
    rewrite map_get_set.
    destruct (same_value_zero userId u) eqn:Hu; [| reflexivity].
    rewrite length_map. unfold stored.
    now rewrite (map_get_same_key _ _ _ Hu).
Qed.

Lemma perform_grows (a : Action) (w : World) :
  bounded_store w -> grows_from w (perform host a w).
Proof.
  intros Hw.
  set (P := fun w' : World => bounded_store w' /\ grows_from w w').
  assert (P w) as HP by (split; [exact Hw | apply grows_from_refl]).
  assert (forall u d, has_own "id" (enumerable d) = false ->
                      preserves P (addNotification_ host u d)) as Padd.
  { intros u d Hid w1 [Hb Hg]. split.
    - now apply addNotification_bounded.
    - eapply grows_from_trans; [exact Hg |]. now apply addNotification_grows. }
  assert (forall u n s, preserves P (sendNotificationToUser u n s)) as Psend.
  { intros u n s w1 [Hb Hg]. split.
    - now apply sendNotificationToUser_bounded.
    - eapply grows_from_trans; [exact Hg |]. apply sendNotificationToUser_grows. }
  destruct a; simpl.
  - apply (newPostHandler_preserves host P Padd Psend data w HP).
  - apply (newLikeHandler_preserves host P Padd Psend data w HP).
  - rewrite newCommentHandler_identity. apply grows_from_refl.
  - apply markAsRead_grows.
  - apply markAllAsRead_grows.
  - now apply grows_from_same.
  - now apply grows_from_same.
  - now apply grows_from_same.
Qed.
End Grows.

(** X8.  From a world the process reaches, no sequence of events takes
    anything back: the log of emits is only extended, the clock does not go
    back, and no user's list gets shorter (a list that holds 50 records stays
    at 50). *)
Theorem run_only_grows (host : Host) (actions : list Action) (w : World) :
  reachable host w -> grows_from w (run host actions w).
Proof.
  revert w. induction actions as [| a rest IH]; intros w Hreach.
  - apply grows_from_refl.
  - change (run host (a :: rest) w) with (run host rest (perform host a w)).
    eapply grows_from_trans.
    + apply perform_grows. now apply (reachable_bounded host).
    + apply IH. now apply reachable_step.
Qed.

(** ** A new post that changes nothing *)

Lemma filterR_follows_unreadable (author : JsVal) (table : list User) :
  get author "id" = Throw TypeError ->
  filterR (follows author) table = Ok [] \/
  filterR (follows author) table = Throw TypeError.
Proof.
  intros Hid. induction table as [| u rest IH]; simpl; [now left |].
  assert (follows author u = Ok false \/ follows author u = Throw TypeError)
    as [-> | ->].
  { unfold follows. destruct (user_following u); [right | now left].
    now rewrite Hid. }
  - cbn [bindR]. destruct IH as [-> | ->]; cbn [bindR]; [now left | now right].
  - now right.
Qed.

(** X9.  The [newPost] handler changes the state only for a message whose
    [post] and [author] it can read, whose draft it can build, and whose
    author has at least one follower in the table; for every other message
    (a missing field, a content that is not a string, an author nobody
    follows) it returns the state it was given. *)
Theorem newPost_changes_state_only_if (host : Host) (data : JsVal) (w : World) :
  snd (newPostHandler host data w) = w \/
  exists post author authorId draft,
    get data "post" = Ok post /\
    get data "author" = Ok author /\
    get author "id" = Ok authorId /\
    createPostNotification host post author = Ok draft /\
    filter (is_follower authorId) (users w) <> [].
Proof.
  unfold newPostHandler, async, try_catch, bind, lift, gets.
  destruct (get data "post") as [post |] eqn:Hpost; [| now left].
  destruct (get data "author") as [author |] eqn:Hauthor; [| now left].
  destruct (nullish author) eqn:Hnull.
  - pose proof (get_nullish author "id" Hnull) as Hid.
    destruct (filterR_follows_unreadable author (users w) Hid) as [-> | ->];
      now left.
  - destruct (get_not_nullish author "id" Hnull) as [authorId Hid].
    rewrite (filterR_follows author authorId _ Hid).
    destruct (createPostNotification host post author) as [draft | e] eqn:Hdraft.
    + destruct (filter (is_follower authorId) (users w)) as [| f rest] eqn:Hf;
        [now left |].
      right. exists post, author, authorId, draft. rewrite Hf.
      repeat split; auto. discriminate.
    + left.
      pose proof (forEach_first_throws (notifyFollower host post author)
                    (filter (is_follower authorId) (users w)) w e) as H.
      destruct (forEach (notifyFollower host post author)
                        (filter (is_follower authorId) (users w)) w)
        as [[[] | e'] w1]; simpl in *; apply H;
        intros x w0; unfold notifyFollower, bind, lift; now rewrite Hdraft.
Qed.

(** ** The bus: disconnecting, unsubscribing, listeners without the wrapper *)

(** X10.  Once [disconnectRedis] has run, [publishMessage] reaches no
    listener and still returns a fulfilled promise, and [subscribeToChannel]
    and [unsubscribeFromChannel] change nothing; the listeners registered
    before are kept, so after [connectRedis] a publish runs them again as if
    the bus had never been disconnected. *)
Theorem disconnected_bus_is_silent (r : Redis) (channel : string)
        (callback : JsVal -> M unit) (message : JsVal) (w : World) :
  publishMessage (disconnectRedis r) channel message w = (Ok (Ok tt), w) /\
  subscribeToChannel channel callback (disconnectRedis r) = disconnectRedis r /\
  unsubscribeFromChannel channel (disconnectRedis r) = disconnectRedis r /\
  publishMessage (connectRedis (disconnectRedis r)) channel message w =
    publishMessage (connectRedis r) channel message w.
Proof. repeat split. Qed.

Lemma listeners_absent (channel : string) (e : EventEmitter) :
  ~ In channel (map fst e) -> listeners channel e = [].
Proof.
  induction e as [| [c ls] rest IH]; simpl; [reflexivity |].
  intros H. destruct (String.eqb_spec c channel) as [-> | Hc]; [tauto |].
  apply IH. tauto.
Qed.

Lemma on_channels_in (channel : string) (l : Listener) (e : EventEmitter)
      (c : string) :
  In c (map fst (on channel l e)) -> c = channel \/ In c (map fst e).
Proof.
  induction e as [| [c0 ls] rest IH]; simpl.
  - intros [<- | []]. now left.
  - destruct (String.eqb c0 channel); simpl; [tauto |].
    intros [<- | H]; [tauto |]. destruct (IH H); tauto.
Qed.

Lemma on_channels (channel : string) (l : Listener) (e : EventEmitter) :
  NoDup (map fst e) -> NoDup (map fst (on channel l e)).
Proof.
  induction e as [| [c0 ls] rest IH]; intros Hnd; simpl.
  - constructor; [intros [] | constructor].
  - inversion Hnd as [| ? ? Hnotin Hrest]; subst.
    destruct (String.eqb_spec c0 channel) as [-> | Hc]; simpl.
    + now constructor.
    + constructor; [| now apply IH].
      intros H. destruct (on_channels_in _ _ _ _ H); [congruence | contradiction].
Qed.

Lemma listeners_removeAllListeners (channel channel' : string) (e : EventEmitter) :
  NoDup (map fst e) ->
  listeners channel' (removeAllListeners channel e) =
  if String.eqb channel channel' then [] else listeners channel' e.
Proof.
  induction e as [| [c ls] rest IH]; intros Hnd; simpl.
  - now destruct (String.eqb channel channel').
  - inversion Hnd as [| ? ? Hnotin Hrest]; subst.
    destruct (String.eqb_spec c channel) as [-> | Hc]; simpl.
    + destruct (String.eqb_spec channel channel') as [<- | Hne];
        [now apply listeners_absent | reflexivity].
    + rewrite IH by exact Hrest.
      destruct (String.eqb_spec c channel') as [-> | Hc']; [| reflexivity].
      destruct (String.eqb_spec channel channel'); [congruence | reflexivity].
Qed.

Lemma subscribe_all_shape (subs : list (string * (JsVal -> M unit))) :
  forall r,
    subscriber_isConnected r = true ->
    NoDup (map fst (eventEmitter r)) ->
    subscriber_isConnected (subscribe_all subs r) = true /\
    NoDup (map fst (eventEmitter (subscribe_all subs r))).
Proof.
  induction subs as [| [c callback] rest IH]; intros r Hr Hnd; [now split |].
  change (subscribe_all ((c, callback) :: rest) r)
    with (subscribe_all rest (subscribeToChannel c callback r)).
  apply IH; unfold subscribeToChannel, subscriber_subscribe; rewrite Hr.
  - exact Hr.
  - cbn [eventEmitter with_eventEmitter]. now apply on_channels.
Qed.

(** What [publishMessage] does depends on the publisher's flag and on the
    listeners of the channel only. *)
Lemma publishMessage_ext (r r' : Redis) (channel : string) (message : JsVal)
      (w : World) :
  publisher_isConnected r = publisher_isConnected r' ->
  listeners channel (eventEmitter r) = listeners channel (eventEmitter r') ->
  publishMessage r channel message w = publishMessage r' channel message w.
Proof.
  intros Hp Hl. unfold publishMessage, publisher_publish, emit.
  now rewrite Hp, Hl.
Qed.

(** X11.  After [unsubscribeFromChannel(channel)] on a bus built with
    [subscribeToChannel], a publish on that channel runs no callback and
    leaves the state as it was, while a publish on any other channel does
    exactly what it did before. *)
Theorem unsubscribe_silences_one_channel
        (subs : list (string * (JsVal -> M unit))) (channel : string) :
  let before := subscribe_all subs (connectRedis redis_loaded) in
  let after := unsubscribeFromChannel channel before in
  (forall message w, publishMessage after channel message w = (Ok (Ok tt), w)) /\
  (forall other message w,
      other <> channel ->
      publishMessage after other message w = publishMessage before other message w).
Proof.
  cbv zeta.
  destruct (subscribe_all_shape subs (connectRedis redis_loaded) eq_refl)
    as [Hconn Hnd]; [constructor |].
  destruct (subscribe_all_listeners subs channel (connectRedis redis_loaded)
                                    eq_refl) as [_ Hpub].
  unfold unsubscribeFromChannel. rewrite Hconn. split.
  - intros message w.
    unfold publishMessage, publisher_publish, emit, async, try_catch, bind,
      await, lift.
    cbn [publisher_isConnected eventEmitter with_eventEmitter].
    rewrite listeners_removeAllListeners by exact Hnd.
    rewrite String.eqb_refl, Hpub. cbn [publisher_isConnected connectRedis].
    now destruct (String.eqb channel "error").
  - intros other message w Hother. apply publishMessage_ext; [reflexivity |].
    cbn [eventEmitter with_eventEmitter].
    rewrite listeners_removeAllListeners by exact Hnd.
    destruct (String.eqb_spec channel other); [congruence | reflexivity].
Qed.

Lemma subscribe_raw_listeners (channel : string) (ls : list Listener) :
  forall r,
    subscriber_isConnected r = true ->
    listeners channel (eventEmitter (subscribe_raw channel ls r)) =
      listeners channel (eventEmitter r) ++ ls /\
    publisher_isConnected (subscribe_raw channel ls r) = publisher_isConnected r.
Proof.
  induction ls as [| l rest IH]; intros r Hr.
  - simpl. now rewrite app_nil_r.
  - change (subscribe_raw channel (l :: rest) r)
      with (subscribe_raw channel rest (subscriber_subscribe channel l r)).
    assert (subscriber_isConnected (subscriber_subscribe channel l r) = true) as Hr1
        by (unfold subscriber_subscribe; now rewrite Hr).
    destruct (IH _ Hr1) as [-> ->].
    unfold subscriber_subscribe. rewrite Hr.
    cbn [eventEmitter with_eventEmitter publisher_isConnected].
    rewrite listeners_on, String.eqb_refl, <- app_assoc. now split.
Qed.

(** X12.  Listeners registered with [subscriber.subscribe] itself are not
    isolated: when one of them throws, [emit] stops there, the listeners
    registered after it are not called, and the promise of
    [publisher.publish] is rejected with what was thrown; [publishMessage]
    catches the rejection and still returns a fulfilled promise. *)
Theorem raw_listener_throw_ends_emit
        (channel : string) (before after : list Listener) (l : Listener)
        (data : JsVal) (w w1 w2 : World) (e : JsError) :
  forEach (fun l' : Listener => l' (JSON_stringify data)) before w = (Ok tt, w1) ->
  l (JSON_stringify data) w1 = (Throw e, w2) ->
  let r := subscribe_raw channel (before ++ l :: after)
                         (connectRedis redis_loaded) in
  publisher_publish r channel (JSON_stringify data) w = (Ok (Throw e), w2) /\
  publishMessage r channel data w = (Ok (Ok tt), w2).
Proof.
  intros Hbefore Hl r.
  destruct (subscribe_raw_listeners channel (before ++ l :: after)
              (connectRedis redis_loaded) eq_refl) as [Hls Hp].
  fold r in Hls, Hp.
  assert (emit (eventEmitter r) channel (JSON_stringify data) w = (Throw e, w2))
    as Hemit.
  { unfold emit. rewrite Hls. cbn [connectRedis eventEmitter redis_loaded
                                     listeners app].
    destruct (before ++ l :: after) eqn:E; [now destruct before |].
    rewrite <- E, forEach_app, Hbefore. simpl. unfold bind. now rewrite Hl. }
  unfold publishMessage, publisher_publish, async, try_catch, bind, await, lift.
  rewrite Hp. cbn [publisher_isConnected connectRedis]. now rewrite Hemit.
Qed.

(** ** What a JSON text keeps of a value *)


Lemma json_value_clean (v : JsVal) : json_clean (json_value v) = true.
Proof.
  induction v as [| | b | x | s | items IH | props IH] using JsVal_nested_ind;
    try reflexivity.
  - now destruct x as [[] | | |].
  - simpl. induction IH as [| x rest Hx Hrest IHrest]; simpl; [reflexivity |].
    now rewrite Hx.
  - simpl. induction IH as [| [k x] rest Hx Hrest IHrest]; simpl; [reflexivity |].
    simpl in Hx. destruct x; simpl in *; try exact IHrest; now rewrite ?Hx.
Qed.

Lemma json_value_of_clean (v : JsVal) : json_clean v = true -> json_value v = v.
Proof.
  induction v as [| | b | x | s | items IH | props IH] using JsVal_nested_ind;
    try reflexivity; try discriminate.
  - now destruct x as [[] | | |].
  - simpl. intros H. f_equal.
    induction IH as [| x rest Hx Hrest IHrest]; simpl in *; [reflexivity |].
    apply andb_true_iff in H as [H1 H2]. now rewrite Hx, IHrest.
  - simpl. intros H. f_equal.
    induction IH as [| [k x] rest Hx Hrest IHrest]; simpl in *; [reflexivity |].
    apply andb_true_iff in H as [H1 H2]. rewrite IHrest by exact H2.
    rewrite Hx by exact H1. now destruct x.
Qed.

(** X13.  What a subscriber parses is always a plain JSON value: it holds no
    [undefined], no [NaN], no infinity and no negative zero, and a second
    trip through the bus would not change it.  A value that is already such
    a JSON value arrives exactly as it was published, and [undefined] itself
    cannot be published: the text is [undefined] and parsing it throws. *)
Theorem json_round_trip (v : JsVal) :
  (forall parsed, JSON_parse (JSON_stringify v) = Ok parsed ->
                  json_clean parsed = true /\
                  JSON_parse (JSON_stringify parsed) = Ok parsed) /\
  (json_clean v = true -> JSON_parse (JSON_stringify v) = Ok v) /\
  (JSON_parse (JSON_stringify v) = Throw SyntaxError <-> v = JUndefined).
Proof.
  assert (forall x, json_clean x = true -> JSON_parse (JSON_stringify x) = Ok x)
    as Hclean.
  { intros x Hx. unfold JSON_stringify, JSON_parse.
    destruct x; try discriminate; now rewrite json_value_of_clean. }
  split; [| split].
  - intros parsed Hparsed.
    assert (parsed = json_value v) as ->
        by (destruct v; cbv [JSON_stringify JSON_parse] in Hparsed;
            try discriminate; now injection Hparsed as <-).
    split; [apply json_value_clean | apply Hclean, json_value_clean].
  - apply Hclean.
  - split; [destruct v; cbv [JSON_stringify JSON_parse]; congruence
           | now intros ->].
Qed.

(** ** The notification routes *)

Lemma getNotifications_default (userId : JsVal) (w : World) :
  getNotifications userId None w = firstn 20 (stored userId w).
Proof. exact (getNotifications_stored userId 20 w). Qed.

(** X14.  [GET /api/notifications] returns the first 20 records of the
    user's list, newest first, but counts the unread records of the whole
    list: the count it reports is the number of unread records it returns
    plus the number of unread records beyond the twentieth. *)
Theorem get_route_counts_beyond_the_page (userId : JsVal) (w : World) :
  let page := fst (get_notifications_route userId w) in
  let unreadCount := snd (get_notifications_route userId w) in
  page = firstn 20 (stored userId w) /\
  List.length page <= 20 /\
  unreadCount =
    List.length (filter unread page)
    + List.length (filter unread (skipn 20 (stored userId w))).
Proof.
  cbv zeta. unfold get_notifications_route. cbn [fst snd].
  rewrite getNotifications_default, getUnreadCount_stored.
  repeat split.
  - apply firstn_le_length.
  - rewrite <- length_app, <- filter_app. now rewrite firstn_skipn.
Qed.

(** X15.  [POST /api/notifications/read-all] answers 200 whether or not the
    user has a list; afterwards [GET /api/notifications] shows the same
    records in the same order, all of them read, and an unread count of 0,
    and no other user's list has changed. *)
Theorem read_all_route_then_get (userId : JsVal) (w : World) :
  let w' := snd (read_all_route userId w) in
  fst (read_all_route userId w) = 200 /\
  map (own "id") (fst (get_notifications_route userId w')) =
    map (own "id") (fst (get_notifications_route userId w)) /\
  Forall (fun n => own "read" n = JBool true)
         (fst (get_notifications_route userId w')) /\
  snd (get_notifications_route userId w') = 0 /\
  (forall other, same_value_zero userId other = false ->
                 get_notifications_route other w' = get_notifications_route other w).
Proof.
  cbv zeta. unfold read_all_route, get_notifications_route. cbn [fst snd].
  assert (stored userId (snd (markAllAsRead userId w)) =
          map set_read (stored userId w)) as Hstored.
  { unfold markAllAsRead.
    destruct (map_has userId (notifications w)) eqn:Hhas; cbn [negb snd].
    - unfold stored at 1. cbn [notifications with_notifications].
      now rewrite map_get_set_present.
    - now rewrite (stored_absent _ _ Hhas). }
  assert (forall other, same_value_zero userId other = false ->
            stored other (snd (markAllAsRead userId w)) = stored other w) as Hother.
  { intros other Hne. unfold markAllAsRead.
    destruct (negb (map_has userId (notifications w))); [reflexivity |].
    unfold stored. cbn [snd notifications with_notifications].
    now rewrite map_get_set, Hne. }
  rewrite !getNotifications_default, !getUnreadCount_stored, Hstored.
  repeat split.
  - rewrite firstn_map, map_map. apply map_ext. intros n.
    apply own_id_set_read.
  - apply Forall_take, Forall_map, Forall_forall. intros n _.
    apply own_set_prop_same.
  - now rewrite filter_unread_set_read.
  - intros other Hne.
    now rewrite !getNotifications_default, !getUnreadCount_stored, Hother.
Qed.

(** ** Sockets that connect and disconnect *)

Lemma map_get_delete_same {V : Type} (k : JsVal) (m : JsMap V) :
  count_key k m <= 1 -> map_get k (map_delete k m) = None.
Proof.
  unfold count_key.
  induction m as [| [k0 v0] rest IH]; simpl; [reflexivity |].
  destruct (same_value_zero k0 k) eqn:H0; simpl.
  - intros H.
    assert (List.length
              (filter (fun kv : JsVal * V => same_value_zero (fst kv) k) rest) = 0)
      as Hzero by lia.
    clear IH H. induction rest as [| [k1 v1] rest IH]; simpl in *; [reflexivity |].
    destruct (same_value_zero k1 k); [discriminate | now apply IH].
  - rewrite H0. exact IH.
Qed.

(** X16.  A user authenticates on a socket, then on a second one, and the
    first socket disconnects.  After the second authentication the registry
    names the second socket; the disconnect of the first removes the user's
    entry all the same, so the user, still connected on the second socket,
    gets no push until they authenticate again.  (A user id that is falsy,
    such as 0, is never unregistered by a disconnect.) *)
Theorem stale_disconnect_unregisters_user (decoded userId id1 id2 : JsVal)
        (w : World) :
  get decoded "userId" = Ok userId ->
  is_primitive userId = true ->
  sockets_ok w ->
  let first := on_authenticate (Ok decoded) (connected id1) w in
  let second := on_authenticate (Ok decoded) (connected id2) (snd first) in
  let w' := on_disconnect (snd (fst first)) (snd second) in
  fst (fst second) = NotificationCount (getUnreadCount userId w) /\
  getUserSocket userId (snd second) = id2 /\
  (truthy userId = true ->
   getUserSocket userId w' = JUndefined /\
   forall notification server,
     sendNotificationToUser userId notification server w' = (Ok tt, w')) /\
  (truthy userId = false -> w' = snd second).
Proof.
  intros Hid Hprim Hsock. cbv zeta.
  unfold on_authenticate, connected. cbn [bindR]. rewrite Hid.
  cbn [fst snd socket_id socket_userId]. unfold on_disconnect.
  cbn [socket_userId].
  set (w2 := registerUserSocket userId id2 (registerUserSocket userId id1 w)).
  assert (getUserSocket userId w2 = id2) as Hsecond
      by (unfold getUserSocket; subst w2; unfold registerUserSocket;
          cbn [userSockets with_userSockets]; now rewrite map_get_set_same).
  split; [reflexivity | split; [exact Hsecond | split]].
  - intros Htruthy. rewrite Htruthy.
    assert (getUserSocket userId (unregisterUserSocket userId w2) = JUndefined)
      as Hgone.
    { unfold getUserSocket, unregisterUserSocket.
      cbn [userSockets with_userSockets].
      rewrite map_get_delete_same; [reflexivity |].
      subst w2. unfold registerUserSocket. cbn [userSockets with_userSockets].
      apply count_key_map_set_one. intros j.
      now apply count_key_map_set_one. }
    split; [exact Hgone |].
    intros notification server. unfold sendNotificationToUser.
    rewrite Hgone. now destruct server.
  - intros Hfalsy. now rewrite Hfalsy.
Qed.

(** ** The follow routes *)

Lemma strict_equals_same_value (a b : JsVal) :
  strict_equals a b = same_value_zero a b && strict_equals a a.
Proof.
  destruct a, b; simpl; try reflexivity.
  - now destruct b, b0.
  - destruct (SFeqb x x0) eqn:E; simpl.
    + apply SFeqb_true_iff in E as [_ Hn]. symmetry. apply SFeqb_true_iff. auto.
    + destruct (is_nan x) eqn:Hn; simpl; [| reflexivity].
      destruct (is_nan x0); simpl; [| reflexivity].
      symmetry. destruct (SFeqb x x) eqn:E'; [| reflexivity].
      apply SFeqb_true_iff in E' as [_ E']. congruence.
  - rewrite String.eqb_refl. now rewrite andb_true_r.
Qed.

Lemma strict_equals_true (a b : JsVal) :
  strict_equals a b = true ->
  same_value_zero a b = true /\ strict_equals a a = true /\
  strict_equals b b = true.
Proof.
  intros H. pose proof H as H'.
  rewrite strict_equals_same_value in H. apply andb_true_iff in H as [H1 H2].
  repeat split; auto.
  destruct a, b; simpl in *; try discriminate; auto.
  - apply Bool.eqb_reflx.
  - apply SFeqb_true_iff in H' as [Hc Hn]. apply SFeqb_true_iff. split; auto.
    destruct x, x0; simpl in *; try discriminate; auto.
  - apply String.eqb_refl.
Qed.

Lemma includes_app (v x : JsVal) (l : list JsVal) :
  includes v (l ++ [x]) = includes v l || same_value_zero x v.
Proof. unfold includes. rewrite existsb_app. simpl. now rewrite orb_false_r. Qed.

Lemma same_value_zero_ext (a b c : JsVal) :
  same_value_zero a b = true -> same_value_zero c a = same_value_zero c b.
Proof.
  intros Hab.
  destruct (same_value_zero c a) eqn:Ha, (same_value_zero c b) eqn:Hb;
    try reflexivity.
  - rewrite same_value_zero_sym in Ha.
    pose proof (same_value_zero_trans a c b Ha Hab). congruence.
  - rewrite same_value_zero_sym in Hab, Hb.
    pose proof (same_value_zero_trans b c a Hb Hab). congruence.
Qed.

Lemma includes_ext (a b : JsVal) (l : list JsVal) :
  same_value_zero a b = true -> includes a l = includes b l.
Proof.
  intros Hab. unfold includes. induction l as [| y rest IH]; simpl; [reflexivity |].
  now rewrite IH, (same_value_zero_ext a b y Hab).
Qed.

Lemma includes_without_other (x v : JsVal) (l : list JsVal) :
  same_value_zero x v = false -> includes v (without x l) = includes v l.
Proof.
  intros Hxv. unfold includes, without.
  induction l as [| y rest IH]; simpl; [reflexivity |].
  destruct (strict_equals y x) eqn:Hy; simpl; [| now rewrite IH].
  rewrite IH. apply strict_equals_true in Hy as (Hy & _ & _).
  now rewrite (same_value_zero_sym y v), (same_value_zero_ext y x v Hy),
    (same_value_zero_sym v x), Hxv.
Qed.

Lemma same_value_strict (a b : JsVal) :
  same_value_zero a b = true -> strict_equals b b = true ->
  strict_equals a b = true.
Proof.
  destruct a, b; simpl; auto.
  intros H Hb. apply SFeqb_true_iff in Hb as [_ Hb].
  rewrite Hb, andb_false_r, orb_false_r in H. exact H.
Qed.

Lemma includes_without_same (x y : JsVal) (l : list JsVal) :
  strict_equals x y = true -> includes x (without y l) = false.
Proof.
  intros Hxy. apply strict_equals_true in Hxy as (Hxy & Hx & Hy).
  unfold includes, without.
  induction l as [| z rest IH]; simpl; [reflexivity |].
  destruct (strict_equals z y) eqn:Hz; simpl; [exact IH |].
  rewrite IH, orb_false_r.
  destruct (same_value_zero z x) eqn:Hzx; [| reflexivity].
  rewrite (same_value_zero_ext x y z Hxy) in Hzx.
  pose proof (same_value_strict z y Hzx Hy). congruence.
Qed.


(** *** Positions of the table *)

Lemma nth_error_update_at {A : Type} (f : A -> A) (l : list A) (i k : nat) :
  nth_error (update_at i f l) k =
  if k =? i then option_map f (nth_error l k) else nth_error l k.
Proof.
  revert i k. induction l as [| x rest IH]; intros i k.
  - destruct i, k; simpl; try reflexivity. now destruct (k =? i).
  - destruct i as [| i], k as [| k]; simpl; try reflexivity. apply IH.
Qed.

Lemma find_entry_Some {A : Type} (p : A -> bool) (l : list A) (i : nat) (x : A) :
  find_entry p l = Some (i, x) -> nth_error l i = Some x /\ p x = true.
Proof.
  unfold find_entry. destruct (find_index p l) as [j |] eqn:Hj; [| discriminate].
  destruct (find_index_Some p l j Hj) as (before & y & after & -> & <- & Hy & _).
  rewrite nth_error_app2, Nat.sub_diag by lia. simpl. intros [= <- <-].
  split; [| exact Hy]. now rewrite nth_error_app2, Nat.sub_diag by lia.
Qed.

Lemma distinct_ids_nth (l : list User) (i j : nat) (u v : User) :
  distinct_ids l = true ->
  nth_error l i = Some u -> nth_error l j = Some v ->
  same_value_zero (user_id u) (user_id v) = true -> i = j.
Proof.
  revert i j. induction l as [| x rest IH]; intros i j Hd Hi Hj Hs.
  - now destruct i.
  - cbn [distinct_ids] in Hd. apply andb_true_iff in Hd as [Hx Hd].
    rewrite forallb_forall in Hx.
    destruct i as [| i], j as [| j]; simpl in *; try reflexivity.
    + injection Hi as <-. apply nth_error_In in Hj.
      specialize (Hx v Hj). now rewrite Hs in Hx.
    + injection Hj as <-. apply nth_error_In in Hi.
      specialize (Hx u Hi). rewrite same_value_zero_sym in Hs.
      now rewrite Hs in Hx.
    + f_equal. now apply IH.
Qed.

Lemma distinct_ids_map (l l' : list User) :
  map user_id l = map user_id l' -> distinct_ids l = distinct_ids l'.
Proof.
  revert l'. induction l as [| x rest IH]; intros [| y rest']; simpl;
    try discriminate; [reflexivity |].
  intros [= Hid Hrest]. rewrite (IH rest' Hrest), Hid. f_equal.
  clear IH. revert rest' Hrest.
  induction rest as [| z r IH]; intros [| z' r']; simpl; try discriminate;
    [reflexivity |].
  intros [= Hz Hr]. now rewrite Hz, (IH r' Hr).
Qed.

Lemma map_update_at {A B : Type} (g : A -> B) (f : A -> A) (l : list A) (i : nat) :
  (forall x, g (f x) = g x) -> map g (update_at i f l) = map g l.
Proof.
  intros Hg. revert i. induction l as [| x rest IH]; intros [| i]; simpl;
    try reflexivity.
  - now rewrite Hg.
  - now rewrite IH.
Qed.

Lemma table_ok_iff (table : list User) :
  table_ok table = true <->
  distinct_ids table = true /\
  (forall u, In u table -> is_follower (user_id u) u = false) /\
  (forall a b, In a table -> In b table ->
     is_follower (user_id b) a = includes (user_id a) (user_followers b)).
Proof.
  unfold table_ok, no_self_follow, mirrored.
  rewrite !andb_true_iff, !forallb_forall. split.
  - intros [[Hd Hs] Hm]. repeat split; auto.
    + intros u Hu. apply negb_true_iff. now apply Hs.
    + intros a b Ha Hb. specialize (Hm a Ha). rewrite forallb_forall in Hm.
      apply Bool.eqb_prop. now apply Hm.
  - intros (Hd & Hs & Hm). repeat split; auto.
    + intros u Hu. apply negb_true_iff. now apply Hs.
    + intros a Ha. apply forallb_forall. intros b Hb.
      rewrite (Hm a b Ha Hb). apply Bool.eqb_reflx.
Qed.

(** The two writes of a follow route: [x] is what the route compares and
    pushes for the target, [y] for the current user. *)
Section Relink.
Variables (table : list User) (i j : nat) (cur tgt : User) (x y : JsVal).
Hypothesis ok : table_ok table = true.
Hypothesis at_i : nth_error table i = Some cur.
Hypothesis at_j : nth_error table j = Some tgt.
Hypothesis apart : i <> j.
Hypothesis is_x : strict_equals (user_id tgt) x = true.
Hypothesis is_y : strict_equals (user_id cur) y = true.

Let fl : list JsVal :=
  match user_following cur with
  | Some l => l
  | None => []
  end.
Let fl' : list JsVal :=
  if includes x fl then without x fl else fl ++ [x].
Let fo' : list JsVal :=
  if includes x fl then without y (user_followers tgt)
  else user_followers tgt ++ [y].
Let table' : list User :=
  update_at j (with_followers fo')
    (update_at i (with_following (Some fl')) table).

Lemma relink_nth (k : nat) :
  nth_error table' k =
  option_map
    (fun u => if k =? i then with_following (Some fl') u
              else if k =? j then with_followers fo' u else u)
    (nth_error table k).
Proof.
  unfold table'. rewrite !nth_error_update_at.
  destruct (Nat.eqb_spec k j) as [Hkj | Hkj], (Nat.eqb_spec k i) as [Hki | Hki];
    try (now destruct (nth_error table k)).
  elim apart. congruence.
Qed.

Lemma relink_ids : map user_id table' = map user_id table.
Proof. unfold table'. now rewrite !map_update_at. Qed.

Lemma relink_In (u' : User) :
  In u' table' ->
  exists k u,
    nth_error table k = Some u /\ In u table /\
    u' = (if k =? i then with_following (Some fl') u
          else if k =? j then with_followers fo' u else u).
Proof.
  intros H. apply In_nth_error in H as [k Hk]. rewrite relink_nth in Hk.
  destruct (nth_error table k) as [u |] eqn:Hu; [| discriminate].
  injection Hk as <-. exists k, u. repeat split; auto.
  now apply nth_error_In in Hu.
Qed.

Lemma is_x_at (k : nat) (u : User) :
  nth_error table k = Some u -> same_value_zero x (user_id u) = (k =? j).
Proof.
  intros Hu. apply table_ok_iff in ok as (Hd & _ & _).
  apply strict_equals_true in is_x as (Hx & _ & _).
  destruct (Nat.eqb_spec k j) as [-> | Hkj].
  - rewrite at_j in Hu. injection Hu as <-. now rewrite same_value_zero_sym.
  - destruct (same_value_zero x (user_id u)) eqn:E; [| reflexivity].
    elim Hkj. symmetry. apply (distinct_ids_nth table j k tgt u); auto.
    rewrite same_value_zero_sym in Hx.
    now apply (same_value_zero_trans x).
Qed.

Lemma is_y_at (k : nat) (u : User) :
  nth_error table k = Some u -> same_value_zero y (user_id u) = (k =? i).
Proof.
  intros Hu. apply table_ok_iff in ok as (Hd & _ & _).
  apply strict_equals_true in is_y as (Hy & _ & _).
  destruct (Nat.eqb_spec k i) as [-> | Hki].
  - rewrite at_i in Hu. injection Hu as <-. now rewrite same_value_zero_sym.
  - destruct (same_value_zero y (user_id u)) eqn:E; [| reflexivity].
    elim Hki. symmetry. apply (distinct_ids_nth table i k cur u); auto.
    rewrite same_value_zero_sym in Hy.
    now apply (same_value_zero_trans y).
Qed.

Lemma includes_toggled (z v : JsVal) (l : list JsVal) (b : bool) :
  strict_equals z z = true ->
  includes v (if b then without z l else l ++ [z]) =
  if same_value_zero z v then negb b else includes v l.
Proof.
  intros Hz. destruct (same_value_zero z v) eqn:E, b; simpl.
  - rewrite same_value_zero_sym in E. rewrite (includes_ext v z _ E).
    now apply includes_without_same.
  - rewrite includes_app, E. apply orb_true_r.
  - now apply includes_without_other.
  - rewrite includes_app, E. apply orb_false_r.
Qed.

Lemma relink_ok : table_ok table' = true.
Proof.
  pose proof ok as ok'. apply table_ok_iff in ok' as (Hd & Hs & Hm).
  pose proof (strict_equals_true _ _ is_x) as (_ & _ & Hxx).
  pose proof (strict_equals_true _ _ is_y) as (_ & _ & Hyy).
  assert (forall v, is_follower v cur = includes v fl) as Hfl.
  { intros v. unfold is_follower, fl. now destruct (user_following cur). }
  apply table_ok_iff. repeat split.
  - rewrite (distinct_ids_map table' table relink_ids). exact Hd.
  - intros u' Hu'. apply relink_In in Hu' as (k & u & Hk & Hu & ->).
    destruct (Nat.eqb_spec k i) as [-> | Hki].
    + rewrite at_i in Hk. injection Hk as <-.
      unfold is_follower. cbn [with_following user_id user_following].
      unfold fl'. rewrite (includes_toggled x _ _ _ Hxx).
      rewrite (is_x_at i cur at_i).
      destruct (Nat.eqb_spec i j); [contradiction |].
      rewrite <- Hfl. now apply Hs.
    + destruct (k =? j); [| now apply Hs].
      unfold is_follower. cbn [with_followers user_id user_following].
      now apply Hs.
  - intros a' b' Ha' Hb'.
    apply relink_In in Ha' as (ka & a & Hka & Ha & ->).
    apply relink_In in Hb' as (kb & b & Hkb & Hb & ->).
    assert (forall u, user_id (if kb =? i then with_following (Some fl') u
                               else if kb =? j then with_followers fo' u else u)
                      = user_id u) as Eid.
    { intros u. now destruct (kb =? i), (kb =? j). }
    assert (forall u, user_id (if ka =? i then with_following (Some fl') u
                               else if ka =? j then with_followers fo' u else u)
                      = user_id u) as Eid'.
    { intros u. now destruct (ka =? i), (ka =? j). }
    rewrite Eid, Eid'.
    assert (is_follower (user_id b)
              (if ka =? i then with_following (Some fl') a
               else if ka =? j then with_followers fo' a else a) =
            if ka =? i
            then (if kb =? j then negb (includes x fl)
                  else is_follower (user_id b) cur)
            else is_follower (user_id b) a) as ->.
    { destruct (ka =? i).
      - unfold is_follower at 1. cbn [with_following user_following].
        unfold fl'. rewrite (includes_toggled x _ _ _ Hxx).
        rewrite (is_x_at kb b Hkb). now rewrite Hfl.
      - now destruct (ka =? j). }
    assert (includes (user_id a)
              (user_followers
                 (if kb =? i then with_following (Some fl') b
                  else if kb =? j then with_followers fo' b else b)) =
            if kb =? j
            then (if ka =? i then negb (includes x fl)
                  else includes (user_id a) (user_followers tgt))
            else includes (user_id a) (user_followers b)) as ->.
    { destruct (Nat.eqb_spec kb j) as [-> | Hkbj].
      - destruct (Nat.eqb_spec j i) as [E | _]; [now elim apart |].
        cbn [with_followers user_followers].
        unfold fo'. rewrite (includes_toggled y _ _ _ Hyy).
        now rewrite (is_y_at ka a Hka).
      - now destruct (kb =? i). }
    destruct (Nat.eqb_spec ka i) as [-> | Hkai], (Nat.eqb_spec kb j) as [-> | Hkbj];
      try reflexivity.
    + rewrite at_i in Hka. injection Hka as <-. now apply Hm.
    + rewrite at_j in Hkb. injection Hkb as <-. now apply Hm.
    + now apply Hm.
Qed.
End Relink.

Lemma find_entry_apart (table : list User) (p q : User -> bool) (i j : nat)
      (cur tgt : User) :
  find_entry p table = Some (i, cur) -> find_entry q table = Some (j, tgt) ->
  cur <> tgt -> i <> j.
Proof.
  intros Hp Hq Hne ->. apply find_entry_Some in Hp as [Hp _].
  apply find_entry_Some in Hq as [Hq _]. congruence.
Qed.

Lemma find_entry_update_at (p : User -> bool) (f : User -> User)
      (table : list User) (k : nat) :
  (forall u, p (f u) = p u) ->
  find_entry p (update_at k f table) =
  match find_entry p table with
  | Some (i, u) => Some (i, if i =? k then f u else u)
  | None => None
  end.
Proof.
  intros Hp. unfold find_entry. rewrite (find_index_update_at p f _ _ Hp).
  destruct (find_index p table) as [i |]; [| reflexivity].
  rewrite nth_error_update_at.
  destruct (nth_error table i); simpl; [| now destruct (i =? k)].
  now destruct (i =? k).
Qed.

Section FollowRoute.
Variable host : Host.

Lemma find_entry_cons {A : Type} (p : A -> bool) (x : A) (rest : list A) :
  find_entry p (x :: rest) =
  if p x then Some (0, x)
  else match find_entry p rest with
       | Some (i, y) => Some (S i, y)
       | None => None
       end.
Proof.
  unfold find_entry. cbn [find_index]. destruct (p x); [reflexivity |].
  destruct (find_index p rest) as [i |]; [| reflexivity].
  cbn [option_map nth_error]. now destruct (nth_error rest i).
Qed.

Lemma find_entryR_total {A : Type} (p : A -> Result bool) (q : A -> bool)
      (l : list A) :
  (forall x, p x = Ok (q x)) -> find_entryR p l = Ok (find_entry q l).
Proof.
  intros Hp. induction l as [| x rest IH]; [reflexivity |].
  cbn [find_entryR]. rewrite find_entry_cons, Hp.
  destruct (q x); [reflexivity |]. rewrite IH.
  now destruct (find_entry q rest) as [[i y] |].
Qed.

(** A search whose callback converts one and the same value before it
    compares: the conversion decides the outcome as soon as there is a record
    to look at. *)
Lemma find_entryR_converted {A T : Type} (c : Result T) (q : A -> T -> bool)
      (l : list A) :
  find_entryR (fun x => (t <- c ;; Ok (q x t))%exc) l =
  match c with
  | Ok t => Ok (find_entry (fun x => q x t) l)
  | Throw e =>
      match l with
      | [] => Ok None
      | _ :: _ => Throw e
      end
  end.
Proof.
  destruct c as [t | e]; [| now destruct l].
  now apply find_entryR_total.
Qed.

(** What a call of [POST /follow] comes to: an error that leaves the state
    as it was, or the two writes, followed by the answer 200 and the
    broadcast, or by the answer 500 when the broadcast throws. *)
Lemma follow_route_cases (userId targetUserId : JsVal) (w : World) :
  (exists code message,
     follow_route host userId targetUserId w =
     (error_response code message, None, w) /\ code <> 200) \/
  (exists i j cur tgt fl target,
     parseInt host targetUserId = Ok target /\
     find_entry (fun u => strict_equals (user_id u) userId) (users w)
       = Some (i, cur) /\
     find_entry (fun u => strict_equals (user_id u) target) (users w)
       = Some (j, tgt) /\
     i <> j /\
     user_following cur = Some fl /\
     (if broadcast_throws (io host)
      then fst (follow_route host userId targetUserId w) =
           (error_response 500 "Internal server error", None)
      else exists payload,
          fst (follow_route host userId targetUserId w) =
          ({| status := 200;
              body := JObj [("success", JBool true);
                            ("action",
                             JStr (if includes (user_id tgt) fl
                                   then "unfollowed" else "followed"));
                            ("following",
                             JArr (if includes (user_id tgt) fl
                                   then without (user_id tgt) fl
                                   else fl ++ [user_id tgt]));
                            ("followers",
                             JArr (if includes (user_id tgt) fl
                                   then without (user_id cur) (user_followers tgt)
                                   else user_followers tgt ++ [user_id cur]))]%string |},
           Some payload)) /\
     snd (follow_route host userId targetUserId w) =
       with_users
         (update_at j
            (with_followers
               (if includes (user_id tgt) fl
                then without (user_id cur) (user_followers tgt)
                else user_followers tgt ++ [user_id cur]))
            (update_at i
               (with_following
                  (Some (if includes (user_id tgt) fl
                         then without (user_id tgt) fl
                         else fl ++ [user_id tgt])))
               (users w))) w).
Proof.
  unfold follow_route.
  destruct (truthy targetUserId); simpl;
    [| left; eexists _, _; split; [reflexivity | discriminate]].
  rewrite (find_entryR_converted (parseInt host targetUserId)
             (fun u target => strict_equals (user_id u) target)).
  destruct (parseInt host targetUserId) as [target | e] eqn:Hparse.
  2:{ left. destruct (users w) as [| u rest].
      - eexists _, _; split; [reflexivity | discriminate].
      - eexists _, _; split; [reflexivity | discriminate]. }
  destruct (find_entry (fun u => strict_equals (user_id u) userId) (users w))
    as [[i cur] |] eqn:Hcur;
    [| left; eexists _, _; split; [reflexivity | discriminate]].
  destruct (find_entry (fun u => strict_equals (user_id u) target) (users w))
    as [[j tgt] |] eqn:Htgt;
    [| left; eexists _, _; split; [reflexivity | discriminate]].
  destruct (strict_equals (user_id cur) (user_id tgt)) eqn:Hsame;
    [left; eexists _, _; split; [reflexivity | discriminate] |].
  destruct (user_following cur) as [fl |] eqn:Hfl;
    [| left; eexists _, _; split; [reflexivity | discriminate]].
  right. exists i, j, cur, tgt, fl, target.
  split; [first [assumption | reflexivity] |].
  split; [first [assumption | reflexivity] |].
  split; [first [assumption | reflexivity] |].
  split.
  { apply (find_entry_apart _ _ _ _ _ _ _ Hcur Htgt).
    intros ->. apply find_entry_Some in Hcur as [_ Hcur].
    apply strict_equals_true in Hcur as (_ & Hcur & _). congruence. }
  split; [first [assumption | reflexivity] |].
  destruct (broadcast_throws (io host)); [now split |].
  split; [| reflexivity]. eexists. reflexivity.
Qed.

Lemma follow_route_ok (userId targetUserId : JsVal) (w : World) :
  table_ok (users w) = true ->
  table_ok (users (snd (follow_route host userId targetUserId w))) = true.
Proof.
  intros ok.
  destruct (follow_route_cases userId targetUserId w)
    as [(code & message & -> & _) | (i & j & cur & tgt & fl & target & _ & Hcur &
                                     Htgt & Hij & Hfl & _ & ->)];
    [exact ok |].
  cbn [users with_users].
  apply find_entry_Some in Hcur as [Hi Hcur].
  apply find_entry_Some in Htgt as [Hj Htgt].
  apply strict_equals_true in Hcur as (_ & Hcur & _).
  apply strict_equals_true in Htgt as (_ & Htgt & _).
  pose proof (relink_ok (users w) i j cur tgt (user_id tgt) (user_id cur)
                ok Hi Hj Hij Htgt Hcur) as H.
  now rewrite Hfl in H.
Qed.

(** What a call of [POST /api/users/:userId/follow] comes to. *)
Lemma users_follow_route_cases (currentUserId : JsVal) (param : string) (w : World) :
  (exists code message,
     users_follow_route host currentUserId param w =
     (error_response code message, w) /\ (code = 403 \/ code = 404)) \/
  (exists i j cur tgt,
     find_entry (fun u => strict_equals (user_id u) currentUserId) (users w)
       = Some (i, cur) /\
     find_entry (fun u => strict_equals (user_id u) (JNum (parse_int_string param)))
                (users w) = Some (j, tgt) /\
     i <> j /\
     user_type cur = "public"%string /\ user_type tgt = "celebrity"%string /\
     status (fst (users_follow_route host currentUserId param w)) = 200 /\
     snd (users_follow_route host currentUserId param w) =
       let fl := match user_following cur with Some l => l | None => [] end in
       let x := JNum (parse_int_string param) in
       with_users
         (update_at j
            (with_followers
               (if includes x fl
                then without currentUserId (user_followers tgt)
                else user_followers tgt ++ [currentUserId]))
            (update_at i
               (with_following
                  (Some (if includes x fl then without x fl else fl ++ [x])))
               (users w))) w).
Proof.
  unfold users_follow_route. cbn [parseInt to_string bindR].
  destruct (find_entry (fun u => strict_equals (user_id u) (JNum (parse_int_string param)))
                       (users w)) as [[j tgt] |] eqn:Htgt;
    [| left; eexists _, _; split; [reflexivity | auto]].
  destruct (find_entry (fun u => strict_equals (user_id u) currentUserId)
                       (users w)) as [[i cur] |] eqn:Hcur;
    [| left; eexists _, _; split; [reflexivity | auto]].
  destruct (String.eqb_spec (user_type cur) "public") as [Hpub | Hpub]; simpl;
    [| left; eexists _, _; split; [reflexivity | auto]].
  destruct (String.eqb_spec (user_type tgt) "celebrity") as [Hcel | Hcel]; simpl;
    [| left; eexists _, _; split; [reflexivity | auto]].
  right. exists i, j, cur, tgt. repeat split; auto.
  apply (find_entry_apart _ _ _ _ _ _ _ Hcur Htgt).
  intros ->. rewrite Hpub in Hcel. discriminate.
Qed.

Lemma users_follow_route_ok (currentUserId : JsVal) (param : string) (w : World) :
  table_ok (users w) = true ->
  table_ok (users (snd (users_follow_route host currentUserId param w))) = true.
Proof.
  intros ok.
  destruct (users_follow_route_cases currentUserId param w)
    as [(code & message & -> & _) | (i & j & cur & tgt & Hcur & Htgt & Hij &
                                     _ & _ & _ & ->)];
    [exact ok |].
  cbn [users with_users].
  apply find_entry_Some in Hcur as [Hi Hcur].
  apply find_entry_Some in Htgt as [Hj Htgt].
  exact (relink_ok (users w) i j cur tgt _ _ ok Hi Hj Hij Htgt Hcur).
Qed.
End FollowRoute.

Lemma following_of_relinked (id : JsVal) (table : list User) (i j : nat)
      (cur : User) (fl' fo' : list JsVal) :
  find_entry (fun u => strict_equals (user_id u) id) table = Some (i, cur) ->
  i <> j ->
  following_of id
    (update_at j (with_followers fo')
       (update_at i (with_following (Some fl')) table)) = fl'.
Proof.
  intros Hcur Hij. unfold following_of.
  rewrite !find_entry_update_at by reflexivity. rewrite Hcur, Nat.eqb_refl.
  destruct (Nat.eqb_spec i j); [contradiction | reflexivity].
Qed.

(** X17.  [POST /follow] either answers an error before it writes (400,
    404 or 500, the last also when the target cannot be converted to a
    string), broadcasts nothing and leaves the state as it was, or toggles:
    the parsed target is in the caller's following list after the call
    exactly when it was not before, every other id is in the list as before,
    and nothing but the table of users changes.  After the toggle, a server
    whose [io.emit] goes through gives the answer 200 and one [followUpdate]
    broadcast; a server whose [io.emit] throws gives the answer 500 and no
    broadcast, and the table stays toggled. *)
Theorem follow_route_toggles (host : Host) (userId targetUserId : JsVal) (w : World) :
  let r := follow_route host userId targetUserId w in
  (status (fst (fst r)) <> 200 /\ snd (fst r) = None /\ snd r = w) \/
  (exists target,
     parseInt host targetUserId = Ok target /\
     includes target (following_of userId (users (snd r))) =
       negb (includes target (following_of userId (users w))) /\
     (forall v, same_value_zero target v = false ->
        includes v (following_of userId (users (snd r))) =
        includes v (following_of userId (users w))) /\
     snd r = with_users (users (snd r)) w /\
     (if broadcast_throws (io host)
      then status (fst (fst r)) = 500 /\ snd (fst r) = None
      else status (fst (fst r)) = 200 /\ snd (fst r) <> None)).
Proof.
  cbv zeta.
  destruct (follow_route_cases host userId targetUserId w)
    as [(code & message & -> & Hcode) |
        (i & j & cur & tgt & fl & target & Hparse & Hcur & Htgt & Hij & Hfl &
         Hanswer & ->)];
    [left; simpl; auto |].
  right. exists target. split; [exact Hparse |].
  cbn [fst snd status users with_users].
  rewrite (following_of_relinked _ _ _ _ _ _ _ Hcur Hij).
  assert (following_of userId (users w) = fl) as ->.
  { unfold following_of. now rewrite Hcur, Hfl. }
  apply find_entry_Some in Htgt as [_ Htgt].
  apply strict_equals_true in Htgt as (Hsame & Htt & _).
  split; [| split; [| split; [reflexivity |]]].
  - rewrite (includes_toggled _ _ _ _ Htt), Hsame.
    f_equal. now apply includes_ext.
  - intros v Hv. rewrite (includes_toggled _ _ _ _ Htt).
    rewrite (same_value_zero_sym (user_id tgt) v).
    rewrite (same_value_zero_ext _ _ v Hsame).
    now rewrite (same_value_zero_sym v), Hv.
  - destruct (broadcast_throws (io host)).
    + rewrite Hanswer. now split.
    + destruct Hanswer as [payload ->]. split; [reflexivity | discriminate].
Qed.

(** X18.  [POST /api/users/:userId/follow] changes the table only for a
    caller of type [public] and a target of type [celebrity] that are both
    in the table, and then toggles; every other call answers 403 or 404 and
    leaves the state as it was. *)
Theorem users_follow_route_toggles (host : Host) (currentUserId : JsVal)
        (param : string) (w : World) :
  let r := users_follow_route host currentUserId param w in
  let target := JNum (parse_int_string param) in
  (status (fst r) = 200 /\
   (exists i j cur tgt,
      find_entry (fun u => strict_equals (user_id u) currentUserId) (users w)
        = Some (i, cur) /\
      find_entry (fun u => strict_equals (user_id u) target) (users w)
        = Some (j, tgt) /\
      user_type cur = "public"%string /\ user_type tgt = "celebrity"%string) /\
   includes target (following_of currentUserId (users (snd r))) =
     negb (includes target (following_of currentUserId (users w))) /\
   (forall v, same_value_zero target v = false ->
      includes v (following_of currentUserId (users (snd r))) =
      includes v (following_of currentUserId (users w))) /\
   snd r = with_users (users (snd r)) w) \/
  ((status (fst r) = 403 \/ status (fst r) = 404) /\ snd r = w).
Proof.
  cbv zeta.
  destruct (users_follow_route_cases host currentUserId param w)
    as [(code & message & E & Hcode) |
        (i & j & cur & tgt & Hcur & Htgt & Hij & Hpub & Hcel & Hstatus & E)].
  - right. rewrite E. now split.
  - left. rewrite E. cbv zeta. cbn [fst snd users with_users].
    rewrite (following_of_relinked _ _ _ _ _ _ _ Hcur Hij).
    assert (following_of currentUserId (users w) =
            match user_following cur with Some l => l | None => [] end) as ->.
    { unfold following_of. now rewrite Hcur. }
    pose proof Htgt as Htgt'.
    apply find_entry_Some in Htgt' as [_ Htgt'].
    apply strict_equals_true in Htgt' as (_ & _ & Htt).
    repeat split; auto.
    + exists i, j, cur, tgt. now repeat split.
    + rewrite (includes_toggled _ _ _ _ Htt).
      rewrite same_value_zero_refl; [reflexivity |].
      destruct (JNum (parse_int_string param)); (discriminate || reflexivity).
    + intros v Hv. now rewrite (includes_toggled _ _ _ _ Htt), Hv.
Qed.

(** *** The table through the events of the process *)

Section Served.
Variable host : Host.

Lemma perform_users (a : Action) (w : World) :
  (forall table, a <> Follow table) -> users (perform host a w) = users w.
Proof.
  intros Ha.
  assert (forall userId notification,
             preserves (fun w' => users w' = users w)
                       (addNotification_ host userId notification)) as P_add.
  { intros userId notification w0 H. exact H. }
  assert (forall userId notification server,
             preserves (fun w' => users w' = users w)
                       (sendNotificationToUser userId notification server))
    as P_send.
  { intros userId notification server w0 H.
    unfold sendNotificationToUser, io_emit.
    destruct server as [srv |]; [| exact H].
    destruct (truthy _); [| exact H].
    destruct (emit_throws _ _); exact H. }
  destruct a; simpl.
  - apply (newPostHandler_preserves host (fun w' => users w' = users w));
      auto.
  - apply (newLikeHandler_preserves host (fun w' => users w' = users w));
      auto.
  - now rewrite newCommentHandler_identity.
  - unfold markAsRead.
    destruct (negb (map_has userId (notifications w))); [reflexivity |].
    now destruct (find_index _ (stored userId w)).
  - unfold markAllAsRead.
    now destruct (negb (map_has userId (notifications w))).
  - reflexivity.
  - reflexivity.
  - now elim (Ha table).
Qed.

Lemma serve_users (r : Request) (w : World) :
  table_ok (users w) = true ->
  table_ok (users (serve host r w)) = true /\
  map user_id (users (serve host r w)) = map user_id (users w).
Proof.
  intros ok.
  destruct r as [data | data | data | userId notificationId | userId |
                 userId socketId | userId | userId targetUserId |
                 currentUserId param];
    try (cbn [serve]; rewrite perform_users by discriminate; now split).
  - split; [now apply follow_route_ok |]. cbn [serve].
    destruct (follow_route_cases host userId targetUserId w)
      as [(code & message & -> & _) |
          (i & j & cur & tgt & fl & target & _ & _ & _ & _ & _ & _ & ->)];
      [reflexivity |].
    cbn [users with_users]. now rewrite !map_update_at.
  - split; [now apply users_follow_route_ok |]. cbn [serve].
    destruct (users_follow_route_cases host currentUserId param w)
      as [(code & message & -> & _) |
          (i & j & cur & tgt & _ & _ & _ & _ & _ & _ & ->)];
      [reflexivity |].
    cbn [users with_users]. now rewrite !map_update_at.
Qed.

Lemma serve_all_users (requests : list Request) (w : World) :
  table_ok (users w) = true ->
  table_ok (users (serve_all host requests w)) = true /\
  map user_id (users (serve_all host requests w)) = map user_id (users w).
Proof.
  revert w. induction requests as [| r rest IH]; intros w ok; [now split |].
  destruct (serve_users r w ok) as [ok1 ids1].
  destruct (IH (serve host r w) ok1) as [ok2 ids2].
  cbn [serve_all fold_left]. split; [exact ok2 |].
  unfold serve_all in ids2. now rewrite ids2.
Qed.

(** The loop of the [newPost] handler writes the lists of the followers it
    is given and no other, whether a delivery throws or not. *)
Lemma fan_out_frame (post author k : JsVal) (followers : list User) :
  forall w,
    (forall f, In f followers -> same_value_zero (user_id f) k = false) ->
    stored k (snd (forEach (notifyFollower host post author) followers w)) =
    stored k w.
Proof.
  destruct (createPostNotification host post author) as [draft | e] eqn:Hdraft.
  - induction followers as [| f rest IH]; intros w Hk; [reflexivity |].
    cbn [forEach]. unfold bind.
    rewrite (notifyFollower_run host post author draft Hdraft).
    assert (stored k (snd (push_to (io host)
                             (getUserSocket (user_id f) w) draft
                             (snd (addNotification host (user_id f) draft w))))
            = stored k w) as Hstep.
    { destruct (push_to_emitted (io host) (getUserSocket (user_id f) w) draft
                  (snd (addNotification host (user_id f) draft w)))
        as (_ & Hn & _).
      rewrite (stored_ext k _ _ Hn), stored_addNotification.
      now rewrite (Hk f (or_introl eq_refl)). }
    destruct (push_to _ _ _ _) as [[[] | e] w1].
    + rewrite IH by (intros g Hg; apply Hk; now right). exact Hstep.
    + exact Hstep.
  - intros w _.
    rewrite (forEach_first_throws _ _ w e); [reflexivity |].
    intros x w0. unfold notifyFollower, bind, lift. now rewrite Hdraft.
Qed.

Lemma newPostHandler_frame (data k : JsVal) (w : World) :
  (forall author authorId u,
     get data "author" = Ok author -> get author "id" = Ok authorId ->
     In u (users w) -> is_follower authorId u = true ->
     same_value_zero (user_id u) k = false) ->
  stored k (snd (newPostHandler host data w)) = stored k w.
Proof.
  intros Hk.
  unfold newPostHandler, async, try_catch, bind, lift, gets.
  destruct (get data "post") as [post |] eqn:Hpost; [| reflexivity].
  destruct (get data "author") as [author |] eqn:Hauthor; [| reflexivity].
  destruct (nullish author) eqn:Hnull.
  - pose proof (get_nullish author "id" Hnull) as Hid.
    now destruct (filterR_follows_unreadable author (users w) Hid) as [-> | ->].
  - destruct (get_not_nullish author "id" Hnull) as [authorId Hid].
    rewrite (filterR_follows author authorId _ Hid).
    pose proof (fan_out_frame post author k
                  (filter (is_follower authorId) (users w)) w) as H.
    destruct (forEach _ _ w) as [[[] | e] w1]; simpl in *; apply H;
      intros f Hf; apply filter_In in Hf as [Hin Hf];
      now apply (Hk author authorId).
Qed.

(** X19.  From a table where ids are distinct, nobody follows themself and
    the followers lists mirror the following lists, whatever the process is
    asked (events, notification routes, sockets, the two follow routes), the
    table keeps the same ids in the same order and the three properties. *)
Theorem served_table_stays_consistent (requests : list Request) (w : World) :
  table_ok (users w) = true ->
  let table := users (serve_all host requests w) in
  map user_id table = map user_id (users w) /\
  distinct_ids table = true /\
  (forall u, In u table -> is_follower (user_id u) u = false) /\
  (forall a b, In a table -> In b table ->
     is_follower (user_id b) a = includes (user_id a) (user_followers b)).
Proof.
  intros ok. cbv zeta.
  destruct (serve_all_users requests w ok) as [ok' ids].
  split; [exact ids |]. now apply table_ok_iff.
Qed.

(** X20.  In the process as [data/users.js] starts it, whatever it was asked
    since, the author of a post gets no notification of their own post: the
    [newPost] handler leaves the list stored for the id of the message's
    author as it was. *)
Theorem served_author_is_never_notified (requests : list Request)
        (data author authorId : JsVal) :
  get data "author" = Ok author ->
  get author "id" = Ok authorId ->
  let w := serve_all host requests (initial users_js) in
  stored authorId (snd (newPostHandler host data w)) = stored authorId w.
Proof.
  intros Hauthor Hid. cbv zeta.
  destruct (serve_all_users requests (initial users_js) eq_refl) as [ok _].
  apply table_ok_iff in ok as (_ & Hself & _).
  apply newPostHandler_frame.
  intros author' authorId' u Hauthor' Hid' Hu Hfollows.
  rewrite Hauthor in Hauthor'. injection Hauthor' as <-.
  rewrite Hid in Hid'. injection Hid' as <-.
  destruct (same_value_zero (user_id u) authorId) eqn:Hsame; [| reflexivity].
  specialize (Hself u Hu). unfold is_follower in *.
  destruct (user_following u) as [fl |]; [| discriminate].
  rewrite same_value_zero_sym in Hsame.
  rewrite (includes_ext _ _ fl Hsame) in Hfollows. congruence.
Qed.
End Served.

(** ** The like route *)

Lemma json_value_JObj (props : Props) :
  json_value (JObj props) = JObj (json_props props).
Proof.
  reflexivity.
Qed.

Lemma own_absent (k : string) (props : Props) :
  ~ In k (map fst props) -> own k props = JUndefined.
Proof.
  induction props as [| [k' x] rest IH]; simpl; [reflexivity |].
  intros H. destruct (String.eqb_spec k k') as [-> | _]; [tauto |].
  apply IH. tauto.
Qed.

Lemma json_props_keys (k : string) (props : Props) :
  In k (map fst (json_props props)) -> In k (map fst props).
Proof.
  induction props as [| [k' x] rest IH]; simpl; [auto |].
  destruct x; simpl; tauto.
Qed.

Lemma own_json_props (k : string) (props : Props) :
  NoDup (map fst props) -> own k (json_props props) = kept (own k props).
Proof.
  induction props as [| [k' x] rest IH]; [reflexivity |].
  intros H. inversion H as [| ? ? Hfresh Hrest]; subst.
  cbn [own]. destruct (String.eqb_spec k k') as [-> | Hk].
  - destruct x; cbn [json_props own kept]; rewrite ?String.eqb_refl; try reflexivity.
    apply own_absent. intros Hin. now apply json_props_keys in Hin.
  - rewrite <- (IH Hrest).
    destruct x; cbn [json_props own]; try reflexivity;
      now destruct (String.eqb_spec k k').
Qed.

Lemma post_props_NoDup (p : Post) : NoDup (map fst (post_props p)).
Proof.
  unfold post_props, optional, option_map.
  destruct (post_likes p), (post_comments p); simpl;
    repeat (constructor; [simpl; intuition discriminate |]); constructor.
Qed.

Lemma strict_equals_trans (a b c : JsVal) :
  strict_equals a b = true -> strict_equals b c = true ->
  strict_equals a c = true.
Proof.
  intros Hab Hbc.
  apply strict_equals_true in Hab as (Hab & _ & _).
  apply strict_equals_true in Hbc as (Hbc & _ & Hc).
  apply same_value_strict; [| exact Hc].
  rewrite same_value_zero_sym in Hab.
  exact (same_value_zero_trans b a c Hab Hbc).
Qed.

Lemma strict_equals_sym (a b : JsVal) :
  strict_equals a b = true -> strict_equals b a = true.
Proof.
  intros Hab. apply strict_equals_true in Hab as (Hab & Ha & _).
  apply same_value_strict; [| exact Ha]. now rewrite same_value_zero_sym.
Qed.

Lemma kept_strict (a b : JsVal) :
  strict_equals a b = true -> strict_equals (kept a) (kept b) = true.
Proof.
  destruct a, b; simpl; try discriminate; auto.
  destruct x as [[] | [] | | [] mx ex], x0 as [[] | [] | | [] my ey];
    simpl; try discriminate; auto.
Qed.

Lemma survives_json_kept (v : JsVal) :
  survives_json v = true ->
  strict_equals (kept v) v = true /\ same_value_zero (kept v) v = true.
Proof.
  unfold survives_json. intros H.
  assert (kept v = json_value v) as -> by (now destruct v).
  split; [exact H |]. now apply strict_equals_true in H.
Qed.

Section LikeRouteFacts.
Variable host : Host.

(** What the [newLike] handler makes of the message the route publishes. *)
Lemma like_message_handled (post : Post) (liker author : User) (w : World) :
  snd (newLikeHandler host
         (json_value (JObj [("post", JObj (post_props post));
                            ("liker", user_summary liker);
                            ("postAuthor", user_summary author)]%string)) w) =
  if strict_equals (kept (user_id liker)) (kept (user_id author)) then w
  else
    snd (push_to (io host) (getUserSocket (kept (user_id author)) w)
           (like_notification post liker)
           (snd (addNotification host (kept (user_id author))
                   (like_notification post liker) w))).
Proof.
  assert (forall u k,
             get (json_value (user_summary u)) k =
             Ok (kept (own k [("id", user_id u); ("name", JStr (user_name u));
                              ("type", JStr (user_type u))]%string))) as Hu.
  { intros u k. unfold user_summary. rewrite json_value_JObj. cbn [get].
    rewrite own_json_props; [reflexivity |].
    repeat (constructor; [simpl; intuition discriminate |]); constructor. }
  assert (get (json_value (JObj (post_props post))) "id" = Ok (kept (post_id post)))
    as Hp.
  { rewrite json_value_JObj. cbn [get].
    now rewrite own_json_props by apply post_props_NoDup. }
  assert (json_value (JObj [("post", JObj (post_props post));
                            ("liker", user_summary liker);
                            ("postAuthor", user_summary author)]%string) =
          JObj [("post", json_value (JObj (post_props post)));
                ("liker", json_value (user_summary liker));
                ("postAuthor", json_value (user_summary author))]%string)
    as -> by reflexivity.
  unfold newLikeHandler, async, try_catch, bind, lift.
  cbn [get own String.eqb Ascii.eqb Bool.eqb].
  rewrite !Hu. cbn [own String.eqb Ascii.eqb Bool.eqb].
  destruct (strict_equals (kept (user_id liker)) (kept (user_id author)));
    [reflexivity |].
  unfold createLikeNotification.
  rewrite !Hu, Hp. cbn [own String.eqb Ascii.eqb Bool.eqb bindR].
  assert (forall s, kept (JStr s) = JStr s) as Hk by reflexivity.
  rewrite !Hk. cbn [to_string bindR]. fold (like_notification post liker).
  unfold addNotification_, sendNotificationToUser, push_to, io_emit, ret.
  destruct (truthy _); [| reflexivity].
  now destruct (emit_throws _ _).
Qed.
End LikeRouteFacts.

Section LikeRouteTheorems.
Variable host : Host.

Lemma like_route_cases (r : Redis) (userId : JsVal) (param : string)
      (posts : list Post) (w : World) :
  (find_entry (fun p => strict_equals (post_id p) (JNum (parse_int_string param)))
              posts = None /\
   like_route host r userId param posts w =
   (error_response 404 "Post not found", posts, w)) \/
  (exists i found,
     find_entry (fun p => strict_equals (post_id p) (JNum (parse_int_string param)))
                posts = Some (i, found) /\
     let likes := match post_likes found with Some l => l | None => [] end in
     let likes' :=
       if includes userId likes then without userId likes
       else likes ++ [userId] in
     status (fst (fst (like_route host r userId param posts w))) = 200 /\
     snd (fst (like_route host r userId param posts w)) =
       update_at i (with_likes (Some likes')) posts /\
     snd (like_route host r userId param posts w) =
       match includes userId likes,
             find_entry (fun u => strict_equals (user_id u) userId) (users w),
             find_entry (fun u => strict_equals (user_id u) (post_userId found))
                        (users w) with
       | false, Some (_, liker), Some (_, author) =>
           snd (publishMessage r "newLike"
                  (JObj [("post", JObj (post_props (with_likes (Some likes') found)));
                         ("liker", user_summary liker);
                         ("postAuthor", user_summary author)]%string) w)
       | _, _, _ => w
       end).
Proof.
  unfold like_route. cbn [parseInt to_string bindR].
  destruct (find_entry _ posts) as [[i found] |]; [right | left; now split].
  exists i, found. split; [reflexivity |]. cbv zeta. now repeat split.
Qed.

(** X21.  [POST /api/posts/:id/like] toggles for a user id that is [===]
    itself: the id is in the post's [likes] after the call exactly when it
    was not before, every other id is in it as before, and the ids of the
    posts are as before; without a post of that id the call answers 404 and
    changes nothing. *)
Theorem like_route_toggles (r : Redis) (userId : JsVal) (param : string)
        (posts : list Post) (w : World) :
  strict_equals userId userId = true ->
  let answer := like_route host r userId param posts w in
  let target := JNum (parse_int_string param) in
  (status (fst (fst answer)) = 404 /\ snd (fst answer) = posts /\
   snd answer = w) \/
  (status (fst (fst answer)) = 200 /\
   map post_id (snd (fst answer)) = map post_id posts /\
   includes userId (likes_of target (snd (fst answer))) =
     negb (includes userId (likes_of target posts)) /\
   (forall v, same_value_zero userId v = false ->
      includes v (likes_of target (snd (fst answer))) =
      includes v (likes_of target posts))).
Proof.
  intros Hself. cbv zeta.
  destruct (like_route_cases r userId param posts w)
    as [[_ ->] | (i & found & Hfound & Hstatus & Hposts & _)];
    [left; now repeat split | right].
  cbv zeta in Hposts. rewrite Hstatus, Hposts.
  assert (likes_of (JNum (parse_int_string param)) posts =
          match post_likes found with Some l => l | None => [] end) as ->.
  { unfold likes_of. now rewrite Hfound. }
  assert (forall likes',
             likes_of (JNum (parse_int_string param))
                      (update_at i (with_likes (Some likes')) posts) = likes')
    as ->.
  { intros likes'. unfold likes_of, find_entry.
    rewrite find_index_update_at by reflexivity.
    unfold find_entry in Hfound.
    destruct (find_index _ posts) as [i' |]; [| discriminate].
    destruct (nth_error posts i') as [p |] eqn:Hp; [| discriminate].
    injection Hfound as -> ->.
    now rewrite nth_error_update_at, Nat.eqb_refl, Hp. }
  repeat split.
  - now rewrite map_update_at.
  - rewrite (includes_toggled _ _ _ _ Hself).
    now rewrite same_value_zero_refl by (now destruct userId).
  - intros v Hv. now rewrite (includes_toggled _ _ _ _ Hself), Hv.
Qed.

(** X22.  On the bus of [index.js] the like route changes the state of the
    notifications only for a like, not an unlike, of a post whose author and
    whose liker are both in the table of users and have ids that differ;
    every other call (no such post, an unlike, a like of one's own post, a
    user or an author the table does not hold) leaves that state as it
    was. *)
Theorem like_route_changes_state_only_if (userId : JsVal) (param : string)
        (posts : list Post) (w : World) :
  snd (like_route host (index_redis host) userId param posts w) = w \/
  exists i found j liker k author,
    find_entry (fun p => strict_equals (post_id p) (JNum (parse_int_string param)))
               posts = Some (i, found) /\
    includes userId (match post_likes found with Some l => l | None => [] end)
      = false /\
    find_entry (fun u => strict_equals (user_id u) userId) (users w)
      = Some (j, liker) /\
    find_entry (fun u => strict_equals (user_id u) (post_userId found)) (users w)
      = Some (k, author) /\
    strict_equals (user_id liker) (user_id author) = false.
Proof.
  destruct (like_route_cases (index_redis host) userId param posts w)
    as [[_ ->] | (i & found & Hfound & _ & _ & ->)]; [now left |].
  cbv zeta.
  destruct (includes userId _) eqn:Hliked; [now left |].
  destruct (find_entry _ (users w)) as [[j liker] |] eqn:Hliker; [| now left].
  destruct (find_entry (fun u => strict_equals (user_id u) (post_userId found))
                       (users w)) as [[k author] |] eqn:Hauthor; [| now left].
  match goal with
  | |- context [publishMessage _ _ ?m w] =>
      destruct (index_redis_dispatch host m w) as (_ & -> & _)
  end.
  cbn [snd JSON_stringify]. rewrite like_message_handled.
  destruct (strict_equals (user_id liker) (user_id author)) eqn:Hsame.
  - left. now rewrite (kept_strict _ _ Hsame).
  - right. exists i, found, j, liker, k, author. now repeat split.
Qed.

(** X23.  On the bus of [index.js], a like of somebody else's post, by a
    user and for an author the table holds and whose ids a JSON text gives
    back as they were, answers 200, adds the user's id to the post's [likes],
    puts exactly one record in front of the author's list (cut to 50), built
    from the [newLike] draft, and leaves every other list as it was. *)
Theorem like_route_notifies_author (userId : JsVal) (param : string)
        (posts : list Post) (w : World) (i j k : nat) (found : Post)
        (liker author : User) :
  find_entry (fun p => strict_equals (post_id p) (JNum (parse_int_string param)))
             posts = Some (i, found) ->
  find_entry (fun u => strict_equals (user_id u) userId) (users w)
    = Some (j, liker) ->
  find_entry (fun u => strict_equals (user_id u) (post_userId found)) (users w)
    = Some (k, author) ->
  strict_equals (user_id liker) (user_id author) = false ->
  survives_json (user_id liker) = true ->
  survives_json (user_id author) = true ->
  let likes := match post_likes found with Some l => l | None => [] end in
  includes userId likes = false ->
  let answer := like_route host (index_redis host) userId param posts w in
  let liked := with_likes (Some (likes ++ [userId])) found in
  status (fst (fst answer)) = 200 /\
  nth_error (snd (fst answer)) i = Some liked /\
  stored (user_id author) (snd answer) =
    firstn 50 (newNotification (readings host (clock w))
                 (like_notification liked liker)
               :: stored (user_id author) w) /\
  (forall other, same_value_zero (user_id author) other = false ->
     stored other (snd answer) = stored other w).
Proof.
  intros Hfound Hliker Hauthor Hother Hlj Haj likes Hliked.
  cbv zeta.
  destruct (like_route_cases (index_redis host) userId param posts w)
    as [[E _] | (i' & found' & Hfound' & Hstatus & Hposts & Hworld)];
    [congruence |].
  rewrite Hfound in Hfound'. injection Hfound' as <- <-.
  cbv zeta in Hposts, Hworld. fold likes in Hposts, Hworld.
  rewrite Hliked, Hliker, Hauthor in Hworld. rewrite Hliked in Hposts.
  rewrite Hstatus, Hposts, Hworld. clear Hstatus Hposts Hworld.
  match goal with
  | |- context [publishMessage _ _ ?m w] =>
      destruct (index_redis_dispatch host m w) as (_ & -> & _)
  end.
  cbn [snd JSON_stringify]. rewrite like_message_handled.
  destruct (survives_json_kept _ Hlj) as [Hl _].
  destruct (survives_json_kept _ Haj) as [Ha Ha'].
  assert (strict_equals (kept (user_id liker)) (kept (user_id author)) = false)
    as ->.
  { destruct (strict_equals (kept (user_id liker)) (kept (user_id author)))
      eqn:E; [| reflexivity].
    rewrite <- Hother. symmetry.
    apply (strict_equals_trans _ (kept (user_id liker)));
      [now apply strict_equals_sym |].
    now apply (strict_equals_trans _ (kept (user_id author))). }
  split; [reflexivity |]. split.
  { apply find_entry_Some in Hfound as [Hi _].
    now rewrite nth_error_update_at, Nat.eqb_refl, Hi. }
  set (draft := like_notification _ liker).
  destruct (push_to_emitted (io host) (getUserSocket (kept (user_id author)) w)
              draft (snd (addNotification host (kept (user_id author)) draft w)))
    as (_ & Hn & _).
  split.
  - rewrite (stored_ext _ _ _ Hn), stored_addNotification, Ha'.
    unfold addNotification at 1. cbn [fst].
    unfold stored. now rewrite (map_get_same_key _ _ _ Ha').
  - intros other Hne. rewrite (stored_ext _ _ _ Hn), stored_addNotification.
    destruct (same_value_zero (kept (user_id author)) other) eqn:E;
      [| reflexivity].
    pose proof (same_value_zero_trans _ _ _ Ha' E). congruence.
Qed.
End LikeRouteTheorems.

(** ** The comment route *)

Ltac unchanged :=
  split; [now repeat split | left; cbn; repeat split; (discriminate || reflexivity)].

(** X24.  On the bus of [index.js], [POST /api/posts/:id/comment] never
    notifies anybody: whatever the request, the stored notifications, the
    log of emits, the registry and the table of users are as before, also
    when the comment is accepted and the [newComment] message is published.
    The call answers 201 only for a text that is a string, not blank once
    trimmed and of at most 500 code units, on a post that exists; the
    post then gets one more comment, last in its list, with the trimmed
    text and the caller's id.  Every other call leaves the posts and the
    state as they were. *)
Theorem comment_route_never_notifies (host : Host) (userId text : JsVal)
        (param : string) (posts : list Post) (w : World) :
  let answer := comment_route host (index_redis host) userId text param posts w in
  (notifications (snd answer) = notifications w /\
   emitted (snd answer) = emitted w /\
   userSockets (snd answer) = userSockets w /\
   users (snd answer) = users w) /\
  ((status (fst (fst answer)) <> 201 /\ snd (fst answer) = posts /\
    snd answer = w) \/
   (status (fst (fst answer)) = 201 /\
    exists s i found c,
      text = JStr s /\ trim s <> EmptyString /\ String.length s <= 500 /\
      find_entry (fun p => strict_equals (post_id p) (JNum (parse_int_string param)))
                 posts = Some (i, found) /\
      snd (fst answer) =
        update_at i
          (with_comments
             (Some (match post_comments found with Some l => l | None => [] end
                    ++ [c]))) posts /\
      comment_text c = trim s /\ comment_userId c = userId)).
Proof.
  cbv zeta. unfold comment_route. cbn [parseInt to_string bindR].
  destruct text as [| | b | x | s | items | props];
    try (destruct (truthy _); unchanged).
  destruct (negb (truthy (JStr s)) || (String.length (trim s) =? 0)) eqn:Hblank;
    [unchanged |].
  destruct (500 <? String.length s) eqn:Hlong;
    [unchanged |].
  destruct (find_entry _ posts) as [[i found] |] eqn:Hfound;
    [| unchanged].
  cbn [fst snd status].
  set (comments := match post_comments found with Some l => l | None => [] end).
  set (c := {| comment_id := _; comment_userId := userId;
               comment_text := trim s; comment_timestamp := _ |}).
  split.
  - destruct (find_entry _ (users w)) as [[j commentUser] |];
      [| now repeat split].
    destruct (find_entry _ (users w)) as [[k postUser] |]; [| now repeat split].
    match goal with
    | |- context [publishMessage _ _ ?m ?w0] =>
        destruct (index_redis_dispatch host m w0) as (_ & _ & ->)
    end.
    cbn [snd JSON_stringify]. rewrite newCommentHandler_identity.
    now repeat split.
  - right. split; [reflexivity |]. exists s, i, found, c.
    apply orb_false_iff in Hblank as [_ Hblank].
    apply Nat.eqb_neq in Hblank. apply Nat.ltb_ge in Hlong.
    repeat split; auto.
    intros E. now rewrite E in Hblank.
Qed.

(** ** The properties above at the sample data *)

Lemma addNotification_copies_draft_witness :
  own "type" (fst (addNotification sample_host (uid 1) like_draft
                     (initial users_js))) = JStr "newLike".
Proof.
  destruct (addNotification_copies_draft sample_host (uid 1)
              (enumerable like_draft) (initial users_js) "type") as [H _].
  - repeat (constructor; [simpl; intuition discriminate |]). constructor.
  - discriminate.
  - discriminate.
  - exact (H eq_refl).
Defined.

Lemma newLike_stores_then_pushes_draft_witness :
  clock (snd (newLikeHandler sample_host like_event (initial users_js))) = 1.
Proof.
  exact (proj2 (proj2 (proj2 (proj2 (proj2 (proj2
    (newLike_stores_then_pushes_draft sample_host like_event post_3 jane john
       (uid 2) (uid 1) like_draft (initial users_js)
       eq_refl eq_refl eq_refl eq_refl eq_refl eq_refl eq_refl))))))).
Defined.

Lemma newPost_pushes_to_connected_followers_witness :
  emitted (snd (newPostHandler sample_host post_event second_user_connected)) =
  [push_event (JStr "socket-2") post_draft].
Proof.
  rewrite (proj1 (newPost_pushes_to_connected_followers sample_host post_event
                    post_3 john (uid 1) post_draft second_user_connected
                    eq_refl eq_refl eq_refl eq_refl (fun _ => eq_refl))).
  reflexivity.
Defined.

Lemma reachable_store_is_bounded_witness :
  List.length (stored (uid 1) liked_fifty_times) <= 50.
Proof.
  exact (proj1 (reachable_store_is_bounded sample_host liked_fifty_times (uid 1)
                  (run_reachable sample_host _ _ (reachable_initial _ users_js)))).
Defined.

Lemma run_only_grows_witness :
  grows_from liked_once (run sample_host [NewLike like_event] liked_once).
Proof.
  exact (run_only_grows sample_host [NewLike like_event] liked_once
           liked_once_reachable).
Defined.

Lemma raw_listener_throw_ends_emit_witness :
  publishMessage
    (subscribe_raw "newPost" ([] ++ throwing_listener :: [idle_listener])
       (connectRedis redis_loaded))
    "newPost" post_event (initial users_js) =
  (Ok (Ok tt), initial users_js).
Proof.
  exact (proj2 (raw_listener_throw_ends_emit "newPost" [] [idle_listener]
                  throwing_listener post_event (initial users_js)
                  (initial users_js) (initial users_js) TypeError
                  eq_refl eq_refl)).
Defined.

Lemma stale_disconnect_unregisters_user_witness :
  getUserSocket (uid 2)
    (on_disconnect
       (snd (fst (on_authenticate (Ok jane_token) (connected (JStr "socket-a"))
                    (initial users_js))))
       (snd (on_authenticate (Ok jane_token) (connected (JStr "socket-b"))
               (snd (on_authenticate (Ok jane_token)
                       (connected (JStr "socket-a")) (initial users_js))))))
  = JUndefined.
Proof.
  destruct (stale_disconnect_unregisters_user jane_token (uid 2)
              (JStr "socket-a") (JStr "socket-b") (initial users_js)
              eq_refl eq_refl) as (_ & _ & H & _).
  - intros k. apply Nat.le_0_l.
  - exact (proj1 (H eq_refl)).
Defined.

Lemma served_table_stays_consistent_witness :
  distinct_ids (users (serve_all sample_host follow_requests (initial users_js)))
  = true.
Proof.
  exact (proj1 (proj2 (served_table_stays_consistent sample_host follow_requests
                         (initial users_js) eq_refl))).
Defined.

Lemma served_author_is_never_notified_witness :
  stored (uid 1)
    (snd (newPostHandler sample_host post_event
            (serve_all sample_host follow_requests (initial users_js)))) =
  stored (uid 1) (serve_all sample_host follow_requests (initial users_js)).
Proof.
  exact (served_author_is_never_notified sample_host follow_requests post_event
           john (uid 1) eq_refl eq_refl).
Defined.

Lemma like_route_toggles_witness :
  includes (uid 2)
    (likes_of (uid 1)
       (snd (fst (like_route sample_host (index_redis sample_host) (uid 2) "1"
                    posts_js (initial users_js))))) = true.
Proof.
  destruct (like_route_toggles sample_host (index_redis sample_host) (uid 2) "1"
              posts_js (initial users_js) eq_refl)
    as [(H & _) | (_ & _ & H & _)].
  - discriminate H.
  - exact H.
Defined.

Lemma like_route_notifies_author_witness :
  stored (uid 1)
    (snd (like_route sample_host (index_redis sample_host) (uid 2) "1"
            posts_js (initial users_js))) =
  [newNotification (readings sample_host 0)
     (like_notification (with_likes (Some [uid 2]) first_post) jane_record)].
Proof.
  exact (proj1 (proj2 (proj2
    (like_route_notifies_author sample_host (uid 2) "1" posts_js
       (initial users_js) 0 1 0 first_post jane_record john_record
       eq_refl eq_refl eq_refl eq_refl eq_refl eq_refl eq_refl)))).
Defined.
